(** * gifwriter: a shallow embedding of scripts/gifwriter.py

    The development models the two functions of the GIF89a writer,
    [lzw_encode] and [write_gif], over Python's unbounded integers ([Z]),
    byte strings ([list Z] whose elements are checked to lie in
    [0, 256) wherever Python's [bytes] constructor checks them) and the
    [dict] keyed by byte strings ([gmap (list Z) Z]).  Exceptions are
    explicit results; the output file is an explicit byte sink that keeps
    what was written when an exception propagates. *)

From Stdlib Require Import ZArith List Lia.
From stdpp Require Import base gmap list fin_maps.
From Equations Require Import Equations.

Local Open Scope Z_scope.

(** ** Exceptions and fallible results *)

Inductive exn : Type :=
| ValueError    (* bytes([v]) with v outside range(256); 1 << negative *)
| IndexError    (* frames[0][0] on an empty first frame *)
| KeyError      (* table[prefix] on a missing key *)
| StructError.  (* struct.pack("<H", v) with v outside 0..65535 *)

Inductive res (A : Type) : Type :=
| Ok (a : A)
| Raise (e : exn).
Arguments Ok {A} a.
Arguments Raise {A} e.

#[global] Instance res_ret : MRet res := fun A a => Ok a.

#[global] Instance res_bind : MBind res := fun A B k r =>
  match r with
  | Ok a => k a
  | Raise e => Raise e
  end.

(** ** Python primitives on integers and byte strings *)

Definition is_byte (v : Z) : bool := (0 <=? v) && (v <? 256).

(** [bytes(vs)]: raises ValueError unless every element is in range(256). *)
Definition py_bytes (vs : list Z) : res (list Z) :=
  if forallb is_byte vs then Ok vs else Raise ValueError.

(** [struct.pack("<H", v)]: two bytes, little endian; struct.error when
    [v] does not fit 16 unsigned bits. *)
Definition is_u16 (v : Z) : bool := (0 <=? v) && (v <? 65536).

Definition pack_H (v : Z) : res (list Z) :=
  if is_u16 v then Ok [Z.land v 255; Z.shiftr v 8] else Raise StructError.

(** [struct.pack] with several "H" fields: all arguments are checked in
    order, the result is the concatenation. *)
Fixpoint pack_Hs (vs : list Z) : res (list Z) :=
  match vs with
  | [] => Ok []
  | v :: vs' =>
      (b ← pack_H v; bs ← pack_Hs vs'; Ok (b ++ bs))
  end.

(** ** The LZW encoder *)

Module Lzw.

(** [table = {bytes([i]): i for i in range(256)}] *)
Definition init_table : gmap (list Z) Z :=
  foldl (fun t i => <[ [i] := i ]> t) ∅ (seqZ 0 256).

(** The bit buffer of one call: [chunk_bits] and [result]. *)
Record bitbuf : Type := BitBuf {
  chunk_bits : list Z;
  result : list Z
}.

(** [sum((chunk_bits.pop(0) & 1) << i for i in range(8))] on the eight
    popped bits. *)
Definition byte_of_bits (b0 b1 b2 b3 b4 b5 b6 b7 : Z) : Z :=
  Z.shiftl (Z.land b0 1) 0 + Z.shiftl (Z.land b1 1) 1 +
  Z.shiftl (Z.land b2 1) 2 + Z.shiftl (Z.land b3 1) 3 +
  Z.shiftl (Z.land b4 1) 4 + Z.shiftl (Z.land b5 1) 5 +
  Z.shiftl (Z.land b6 1) 6 + Z.shiftl (Z.land b7 1) 7.

(** [flush_bits]: while at least eight bits are buffered, pop eight and
    append one byte to [result]. *)
Fixpoint flush_loop (bits : list Z) (out : list Z) : bitbuf :=
  match bits with
  | b0 :: b1 :: b2 :: b3 :: b4 :: b5 :: b6 :: b7 :: rest =>
      flush_loop rest (out ++ [byte_of_bits b0 b1 b2 b3 b4 b5 b6 b7])
  | _ => BitBuf bits out
  end.

Definition flush_bits (buf : bitbuf) : bitbuf :=
  flush_loop (chunk_bits buf) (result buf).

(** [write_code(c)] at the current [code_size]: append
    [(c >> b) & 1] for [b] in [range(code_size)], then flush. *)
Definition code_bits (code_size c : Z) : list Z :=
  map (fun b => Z.land (Z.shiftr c (Z.of_nat b)) 1)
      (seq 0 (Z.to_nat code_size)).

Definition write_code (code_size c : Z) (buf : bitbuf) : bitbuf :=
  flush_bits (BitBuf (chunk_bits buf ++ code_bits code_size c) (result buf)).

(** The dictionary part of the encoder does not look at the bit buffer:
    it only calls [write_code].  The loop is therefore written once over
    an arbitrary sink [S] with its [write_code]; [lzw_encode] below is the
    instance with the bit buffer of the source, and [lzw_codes] is the
    instance that records the codes themselves. *)
Section Encoder.
Context {S : Type}.
Variable wcode : Z -> Z -> S -> S.

Record enc : Type := Enc {
  table : gmap (list Z) Z;
  prefix : list Z;
  next_code : Z;
  code_size : Z;
  sink : S
}.

Definition max_code : Z := 4095.

(** One iteration of [for byte in data]. *)
Definition step (st : enc) (byte : Z) : res enc :=
  (b ← py_bytes [byte];
   let new_prefix := prefix st ++ b in
   match table st !! new_prefix with
   | Some _ =>
       Ok (Enc (table st) new_prefix (next_code st) (code_size st) (sink st))
   | None =>
       match table st !! prefix st with
       | None => Raise KeyError
       | Some c =>
           let sink' := wcode (code_size st) c (sink st) in
           if next_code st <=? max_code then
             let table' := <[ new_prefix := next_code st ]> (table st) in
             let next_code' := next_code st + 1 in
             let code_size' :=
               if Z.shiftl 1 (code_size st) <? next_code'
               then Z.min 12 (code_size st + 1)
               else code_size st in
             Ok (Enc table' b next_code' code_size' sink')
           else
             Ok (Enc (table st) b (next_code st) (code_size st) sink')
       end
   end).

Fixpoint feed (st : enc) (data : list Z) : res enc :=
  match data with
  | [] => Ok st
  | byte :: data' => (st' ← step st byte; feed st' data')
  end.

(** The state when the loop is entered: the table is seeded and
    [write_code(clear_code)] has run.  [1 << min_bits] raises
    ValueError on a negative shift count. *)
Definition start (s0 : S) (min_bits : Z) : res enc :=
  if min_bits <? 0 then Raise ValueError
  else
    let clear_code := Z.shiftl 1 min_bits in
    let end_code := clear_code + 1 in
    let code_size := min_bits + 1 in
    let next_code := end_code + 1 in
    Ok (Enc init_table [] next_code code_size (wcode code_size clear_code s0)).

(** After the loop: [if prefix: write_code(table[prefix])], then
    [write_code(end_code)]. *)
Definition finish (min_bits : Z) (st : enc) : res S :=
  let end_code := Z.shiftl 1 min_bits + 1 in
  (s1 ← match prefix st with
         | [] => Ok (sink st)
         | _ :: _ =>
             match table st !! prefix st with
             | None => Raise KeyError
             | Some c => Ok (wcode (code_size st) c (sink st))
             end
         end;
   Ok (wcode (code_size st) end_code s1)).

Definition encode (s0 : S) (min_bits : Z) (data : list Z) : res S :=
  (st0 ← start s0 min_bits;
   st ← feed st0 data;
   finish min_bits st).
End Encoder.

Arguments enc S : clear implicits.

(** [if chunk_bits: while len(chunk_bits) < 8: chunk_bits.append(0);
    flush_bits()] *)
Definition pad_flush (buf : bitbuf) : bitbuf :=
  match chunk_bits buf with
  | [] => buf
  | _ :: _ =>
      flush_bits
        (BitBuf (chunk_bits buf ++
                 repeat 0 (8 - length (chunk_bits buf))%nat)
                (result buf))
  end.

Definition lzw_encode (data : list Z) (min_bits : Z) : res (list Z) :=
  (buf ← encode write_code (BitBuf [] []) min_bits data;
   py_bytes (result (pad_flush buf))).

(** The codes handed to [write_code], each with the width in force. *)
Definition log_code (code_size c : Z) (log : list (Z * Z)) : list (Z * Z) :=
  log ++ [(c, code_size)].

Definition lzw_codes (data : list Z) (min_bits : Z) : res (list (Z * Z)) :=
  encode log_code [] min_bits data.

End Lzw.

(** ** The container writer *)

Module Gif.
Import Lzw.

(** The file object [f] of [with open(filepath, "wb") as f]: the bytes
    written so far.  A computation yields its result together with the
    file as it stands; when it raises, what was written stays (the
    [with] statement closes the file, it does not remove or truncate it). *)
Definition io (A : Type) : Type := list Z -> res A * list Z.

#[global] Instance io_ret : MRet io := fun A a f => (Ok a, f).

#[global] Instance io_bind : MBind io := fun A B k m f =>
  match m f with
  | (Ok a, f') => k a f'
  | (Raise e, f') => (Raise e, f')
  end.

Definition f_write (bs : list Z) : io unit := fun f => (Ok tt, f ++ bs).

Definition lift {A} (r : res A) : io A := fun f => (r, f).

(** [b"GIF89a"] *)
Definition signature : list Z := [71; 73; 70; 56; 57; 97].

(** [b"\x21\xFF\x0BNETSCAPE2.0\x03\x01\x00\x00\x00"] *)
Definition netscape_ext : list Z :=
  [0x21; 0xFF; 0x0B; 78; 69; 84; 83; 67; 65; 80; 69; 50; 46; 48;
   0x03; 0x01; 0x00; 0x00; 0x00].

(** [pal_bytes[i*3 : i*3+3] = c[0], c[1], c[2]]: the three values go
    through the byte check (ValueError), and replace three bytes. *)
Definition set_rgb (pal_bytes : list Z) (i : nat) (c : Z * Z * Z)
  : res (list Z) :=
  let '(r, g, b) := c in
  v ← py_bytes [r; g; b];
  Ok (take (i * 3) pal_bytes ++ v ++ drop (i * 3 + 3) pal_bytes).

(** [for i, c in enumerate(...)] *)
Fixpoint fill_palette (pal_bytes : list Z) (i : nat) (cs : list (Z * Z * Z))
  : res (list Z) :=
  match cs with
  | [] => Ok pal_bytes
  | c :: cs' => pb ← set_rgb pal_bytes i c; fill_palette pb (S i) cs'
  end.

(** [pal_bytes = bytearray(768)] filled from [palette[:256]]. *)
Definition build_palette (palette : list (Z * Z * Z)) : res (list Z) :=
  fill_palette (replicate 768 0) 0 (take 256 palette).

(** The sub-block loop:
    [while pos < len(compressed): block_len = min(255, len(compressed) - pos);
     f.write(bytes([block_len])); f.write(compressed[pos:pos+block_len]);
     pos += block_len]. *)
#[local] Opaque Nat.min.
Equations? write_subblocks (compressed : list Z) (pos : nat) (f : list Z)
  : res unit * list Z by wf (length compressed - pos)%nat lt :=
  write_subblocks compressed pos f
    with decide (pos < length compressed)%nat => {
    | right _ => (Ok tt, f)
    | left _
        with py_bytes
               [Z.of_nat (Nat.min 255 (length compressed - pos))] => {
        | Raise e => (Raise e, f)
        | Ok b =>
            write_subblocks compressed
              (pos + Nat.min 255 (length compressed - pos))
              (f ++ b ++
               take (Nat.min 255 (length compressed - pos))
                    (drop pos compressed)) } }.
Proof. lia. Qed.
#[local] Transparent Nat.min.

(** The body of [for idx, frame in enumerate(frames)]. *)
Definition write_frame (W H duration_ms transparent_index : Z)
    (frame : list (list Z)) : io unit :=
  _ ← f_write [0x21; 0xF9; 0x04; 0x02];
  d ← lift (pack_H duration_ms);
  _ ← f_write d;
  t ← lift (py_bytes [transparent_index; 0]);
  _ ← f_write t;
  _ ← f_write [0x2C];
  desc ← lift (pack_Hs [0; 0; W; H; 0]);
  _ ← f_write desc;
  let flat := concat frame in
  m ← lift (py_bytes [8]);
  _ ← f_write m;
  compressed ← lift (lzw_encode flat 8);
  _ ← write_subblocks compressed 0;
  f_write [0x00].

Fixpoint write_frames (W H duration_ms transparent_index : Z)
    (frames : list (list (list Z))) : io unit :=
  match frames with
  | [] => mret tt
  | frame :: frames' =>
      _ ← write_frame W H duration_ms transparent_index frame;
      write_frames W H duration_ms transparent_index frames'
  end.

(** Everything inside the [with] block. *)
Definition write_body (W H : Z) (pal_bytes : list Z)
    (duration_ms transparent_index : Z) (frames : list (list (list Z)))
  : io unit :=
  _ ← f_write signature;
  lsd ← lift (pack_Hs [W; H]);
  _ ← f_write lsd;
  flags ← lift (py_bytes [0xF7; 0; 0]);
  _ ← f_write flags;
  _ ← f_write pal_bytes;
  _ ← f_write netscape_ext;
  _ ← write_frames W H duration_ms transparent_index frames;
  f_write [0x3B].

(** What a call leaves behind: the file at [filepath] ([None] when the
    call never opened it) and the exception that propagated, if any. *)
Record outcome : Type := Outcome {
  file : option (list Z);
  raised : option exn
}.

Definition write_gif (frames : list (list (list Z)))
    (palette : list (Z * Z * Z)) (duration_ms transparent_index : Z)
  : outcome :=
  match frames with
  | [] => Outcome None None
  | frame0 :: _ =>
      match frame0 with
      | [] => Outcome None (Some IndexError)
      | row0 :: _ =>
          let H := Z.of_nat (length frame0) in
          let W := Z.of_nat (length row0) in
          match build_palette palette with
          | Raise e => Outcome None (Some e)
          | Ok pal_bytes =>
              match write_body W H pal_bytes duration_ms transparent_index
                               frames [] with
              | (Ok _, f) => Outcome (Some f) None
              | (Raise e, f) => Outcome (Some f) (Some e)
              end
          end
      end
  end.

End Gif.

(** ** Reading the output back

    The side of the format: how a decoder reads bits out
    of bytes and fields out of the graphic control extension. *)

Module Format.

(** The eight bits of a byte, least significant first. *)
Definition bits_of_byte (v : Z) : list Z :=
  map (fun i => Z.b2z (Z.testbit v (Z.of_nat i))) (seq 0 8).

(** The bit stream carried by a byte string. *)
Definition unpack (bs : list Z) : list Z := flat_map bits_of_byte bs.

(** The [w] low bits of a code, least significant first. *)
Definition bits_lsb (w : nat) (c : Z) : list Z :=
  map (fun i => Z.b2z (Z.testbit c (Z.of_nat i))) (seq 0 w).

(** The bit stream of a sequence of (code, width) pairs. *)
Definition stream_bits (codes : list (Z * Z)) : list Z :=
  flat_map (fun cw => bits_lsb (Z.to_nat (snd cw)) (fst cw)) codes.

(** GIF89a, graphic control extension, packed field:
    bits 7-5 reserved, bits 4-2 disposal method, bit 1 user input flag,
    bit 0 transparent color flag. *)
Definition disposal_method (packed : Z) : Z := Z.land (Z.shiftr packed 2) 7.
Definition user_input_flag (packed : Z) : Z := Z.land (Z.shiftr packed 1) 1.
Definition transparent_color_flag (packed : Z) : Z := Z.land packed 1.

(** Disposal method 2 is "restore to background color". *)
Definition restore_to_background : Z := 2.

(** A 16-bit little-endian field. *)
Definition u16_le (lo hi : Z) : Z := lo + 256 * hi.

(** A sub-block as it is laid out: its length byte, then its data. *)
Definition sub_block (data : list Z) : list Z :=
  Z.of_nat (length data) :: data.

End Format.

(** ** Predicates and closed forms used in the statements *)

Module Props.
Import Lzw Gif Format.

Definition is_bit (b : Z) : Prop := b = 0 \/ b = 1.

(** What the buffer holds after a flush, in terms of the bits that have
    gone into it. *)
Record packed (buf : bitbuf) (bits : list Z) : Prop := Packed {
  packed_bits : unpack (result buf) ++ chunk_bits buf = bits;
  packed_short : (length (chunk_bits buf) < 8)%nat;
  packed_are_bits : Forall is_bit (chunk_bits buf);
  packed_bytes : Forall (fun v => 0 <= v < 256) (result buf)
}.

(** What holds of the encoder state between two iterations, whatever
    [min_bits >= 0] is. *)
Record wf {S : Type} (m : Z) (st : enc S) : Prop := Wf {
  wf_seed : forall i, 0 <= i < 256 -> table st !! [i] = Some i;
  wf_prefix : prefix st = [] \/ is_Some (table st !! prefix st);
  wf_codes : forall k v, table st !! k = Some v ->
    (k = [v] /\ 0 <= v < 256) \/ 2 ^ m + 2 <= v < next_code st;
  wf_size : Z.of_nat (size (table st)) = 256 + (next_code st - (2 ^ m + 2));
  wf_next_lo : 2 ^ m + 2 <= next_code st;
  wf_next_hi : next_code st <= Z.max 4096 (2 ^ m + 2);
  wf_width_lo : m + 1 <= code_size st;
  wf_width_hi : code_size st <= Z.max 12 (m + 1)
}.

(** Two results agree: both values related, or the same exception. *)
Definition res_sim {A B} (P : A -> B -> Prop) (r1 : res A) (r2 : res B) : Prop :=
  match r1, r2 with
  | Ok a, Ok b => P a b
  | Raise e1, Raise e2 => e1 = e2
  | _, _ => False
  end.

Definition sim {S1 S2} (R : S1 -> S2 -> Prop) (st1 : enc S1) (st2 : enc S2) : Prop :=
  table st1 = table st2 /\ prefix st1 = prefix st2 /\
  next_code st1 = next_code st2 /\ code_size st1 = code_size st2 /\
  R (sink st1) (sink st2).

(** Closed forms of what the writer puts in the file. *)
Definition gce_bytes (d t : Z) : list Z :=
  [0x21; 0xF9; 0x04; 0x02; Z.land d 255; Z.shiftr d 8; t; 0].

Definition descriptor_bytes (W H : Z) : list Z :=
  [0x2C; 0; 0; 0; 0;
   Z.land W 255; Z.shiftr W 8; Z.land H 255; Z.shiftr H 8; 0; 0].

Definition frame_head (W H d t : Z) : list Z :=
  gce_bytes d t ++ descriptor_bytes W H ++ [8].

Definition frame_bytes (W H d t : Z) (blocks : list (list Z)) : list Z :=
  frame_head W H d t ++ concat (map sub_block blocks) ++ [0].

Definition header_bytes (W H : Z) (pal_bytes : list Z) : list Z :=
  signature ++ [Z.land W 255; Z.shiftr W 8; Z.land H 255; Z.shiftr H 8] ++
  [0xF7; 0; 0] ++ pal_bytes ++ netscape_ext.

Definition pixels_ok (frame : list (list Z)) : Prop :=
  Forall (Forall (fun v => 0 <= v < 256)) frame.

Definition pixel_bad (frame : list (list Z)) : Prop :=
  Exists (Exists (fun v => ~ 0 <= v < 256)) frame.

(** [blocks] are sub-blocks of 1 to 255 bytes that make up the encoding
    of [frame]. *)
Definition blocks_of (frame : list (list Z)) (blocks : list (list Z)) : Prop :=
  lzw_encode (concat frame) 8 = Ok (concat blocks) /\
  Forall (fun b => (1 <= length b <= 255)%nat) blocks.

(** The color table. *)
Definition rgb_bytes (c : Z * Z * Z) : list Z :=
  let '(r, g, b) := c in [r; g; b].

Definition rgb_ok (c : Z * Z * Z) : Prop :=
  Forall (fun v => 0 <= v < 256) (rgb_bytes c).

Definition color_table (palette : list (Z * Z * Z)) : list Z :=
  concat (map rgb_bytes (take 256 palette)) ++
  replicate (768 - 3 * length (take 256 palette)) 0.

(** [H, W = len(frames[0]), len(frames[0][0])] *)
Definition dims (frames : list (list (list Z))) : option (Z * Z) :=
  match frames with
  | (row0 :: rows0) :: _ =>
      Some (Z.of_nat (length row0), Z.of_nat (length (row0 :: rows0)))
  | _ => None
  end.

(** The arguments other than the pixels are such that nothing raises. *)
Definition args_ok (W H : Z) (palette : list (Z * Z * Z)) (d t : Z) : Prop :=
  0 <= W < 65536 /\ 0 <= H < 65536 /\
  Forall rgb_ok (take 256 palette) /\
  0 <= d < 65536 /\ 0 <= t < 256.

(** A computation on the file only ever appends to it. *)
Definition grows {A} (m : io A) : Prop :=
  forall f, exists more, snd (m f) = f ++ more.

(** Proof scripts: projections of the encoder state; byte ranges of
    closed lists; ranges of closed arguments. *)
Ltac enc_simpl := cbn [table prefix next_code code_size sink].

Ltac bytes_ok := repeat (constructor; [lia|]); constructor.

Ltac args_tac :=
  unfold args_ok, pixels_ok, pixel_bad, rgb_ok, rgb_bytes; simpl;
  repeat first [ lia | constructor ].

End Props.

(** ** Reading the code stream back

    The reader's side of the LZW stream: codes out of bits, strings out
    of codes, payload out of sub-blocks. *)

Module Decode.
Import Lzw Format.

(** The number whose binary digits, least significant first, are [bits]. *)
Fixpoint bits_value (bits : list Z) : Z :=
  match bits with
  | [] => 0
  | b :: bits' => b + 2 * bits_value bits'
  end.

(** Read one code of [w] bits from the front of the bit stream. *)
Definition read_code (w : nat) (bits : list Z) : option (Z * list Z) :=
  if (length bits <? w)%nat then None
  else Some (bits_value (take w bits), drop w bits).

(** Read the codes whose widths are [ws], in order; what is left of the
    bit stream is returned with them. *)
Fixpoint read_codes (ws : list Z) (bits : list Z) : option (list Z * list Z) :=
  match ws with
  | [] => Some ([], bits)
  | w :: ws' =>
      match read_code (Z.to_nat w) bits with
      | None => None
      | Some (c, bits') =>
          match read_codes ws' bits' with
          | None => None
          | Some (cs, rest) => Some (c :: cs, rest)
          end
      end
  end.

(** The width that [n] table codes call for, between 9 and 12 bits. *)
Definition width_for (n : Z) : Z :=
  if n <=? 512 then 9
  else if n <=? 1024 then 10
  else if n <=? 2048 then 11
  else 12.

(** The LZW decoder for 8-bit data: the table maps codes to strings and
    is rebuilt one entry behind the encoder; a code that is not in the
    table yet can only be the next one to be assigned, and stands for the
    previous string followed by its own first byte.  The table stops
    growing at 4096 codes, as the encoder's does. *)
Record dec : Type := Dec {
  dtable : gmap Z (list Z);
  dnext : Z;
  dprev : option (list Z);
  dout : list Z
}.

Definition dec_init_table : gmap Z (list Z) :=
  foldl (fun t i => <[ i := [i] ]> t) ∅ (seqZ 0 256).

Definition dec_start : dec := Dec dec_init_table 258 None [].

Definition dec_entry (st : dec) (c : Z) : option (list Z) :=
  match dtable st !! c with
  | Some s => Some s
  | None =>
      match dprev st with
      | Some (p :: ps) =>
          if c =? dnext st then Some ((p :: ps) ++ [p]) else None
      | _ => None
      end
  end.

Definition dec_step (st : dec) (c : Z) : option dec :=
  match dec_entry st c with
  | None => None
  | Some entry =>
      match dprev st, entry with
      | Some prev, x :: _ =>
          if dnext st <=? 4095 then
            Some (Dec (<[ dnext st := prev ++ [x] ]> (dtable st))
                      (dnext st + 1) (Some entry) (dout st ++ entry))
          else
            Some (Dec (dtable st) (dnext st) (Some entry) (dout st ++ entry))
      | _, _ =>
          Some (Dec (dtable st) (dnext st) (Some entry) (dout st ++ entry))
      end
  end.

Fixpoint dec_run (st : dec) (codes : list Z) : option dec :=
  match codes with
  | [] => Some st
  | c :: codes' =>
      match dec_step st c with
      | None => None
      | Some st' => dec_run st' codes'
      end
  end.

(** The bytes that a sequence of data codes (clear and end codes taken
    off) stands for. *)
Definition lzw_decode (codes : list Z) : option (list Z) :=
  match dec_run dec_start codes with
  | None => None
  | Some st => Some (dout st)
  end.

(** Read length-prefixed sub-blocks up to the zero-length one; the
    payload and the bytes after the terminator are returned.  [fuel]
    bounds the number of blocks. *)
Fixpoint read_subblocks (fuel : nat) (bytes : list Z)
  : option (list Z * list Z) :=
  match fuel with
  | O => None
  | S fuel' =>
      match bytes with
      | [] => None
      | n :: bytes' =>
          if n =? 0 then Some ([], bytes')
          else if (length bytes' <? Z.to_nat n)%nat then None
          else
            match read_subblocks fuel' (drop (Z.to_nat n) bytes') with
            | None => None
            | Some (payload, rest) =>
                Some (take (Z.to_nat n) bytes' ++ payload, rest)
            end
      end
  end.

End Decode.

(** ** Predicates for the code stream and the decoder *)

Module StreamProps.
Import Lzw Format Props Decode.

(** A logged code lies below 2 to the power of its width, and the width
    is one the encoder can be in. *)
Definition fits (m : Z) (cw : Z * Z) : Prop :=
  0 <= fst cw < 2 ^ snd cw /\ m + 1 <= snd cw <= 12.

(** A logged code is a data code: neither [clear_code] nor [end_code]. *)
Definition data_code (m : Z) (cw : Z * Z) : Prop :=
  fst cw <> 2 ^ m /\ fst cw <> 2 ^ m + 1.

(** What the code log satisfies between two iterations. *)
Record log_ok (m : Z) (st : enc (list (Z * Z))) : Prop := LogOk {
  lo_wf : wf m st;
  lo_next : next_code st <= 2 ^ code_size st;
  lo_fit : Forall (fits m) (sink st);
  lo_shape : exists body,
    sink st = (2 ^ m, m + 1) :: body /\ Forall (data_code m) body
}.

(** The width schedule for [min_bits = 8], by position in the log. *)
Record sched_ok (st : enc (list (Z * Z))) : Prop := SchedOk {
  so_next : next_code st = Z.min (257 + Z.of_nat (length (sink st))) 4096;
  so_width : code_size st = width_for (next_code st);
  so_log : forall (i : nat) cw,
    sink st !! i = Some cw -> snd cw = width_for (257 + Z.of_nat i)
}.

(** The decoder, having read the data codes written so far, against the
    encoder, having consumed [consumed]: the decoder's table is the
    encoder's read backwards, short of the entry the encoder assigned
    last (which joins the last string written and the first byte of the
    prefix in progress). *)
Record dec_sync (st : enc (list (Z * Z))) (consumed : list Z) (D : dec)
  : Prop := DecSync {
  ds_out : dout D ++ prefix st = consumed;
  ds_dec_enc : forall v k,
    dtable D !! v = Some k -> table st !! k = Some v /\ v < dnext D;
  ds_enc_dec : forall v k,
    table st !! k = Some v -> v < dnext D -> dtable D !! v = Some k;
  ds_inj : forall k1 k2 v,
    table st !! k1 = Some v -> table st !! k2 = Some v -> k1 = k2;
  ds_case :
    match dprev D with
    | None => dnext D = 258 /\ next_code st = 258
    | Some s =>
        s <> [] /\ prefix st <> [] /\
        ((dnext D = next_code st - 1 /\
          table st !! (s ++ take 1 (prefix st)) = Some (dnext D)) \/
         (dnext D = next_code st /\ next_code st = 4096))
    end
}.

End StreamProps.

(** ** The canvas and the drawing primitives

    A canvas is a Python list of row lists, and the drawing functions
    change it in place.  Rows are objects: the store holds them by
    address, and a canvas is the list of the addresses of its rows, so
    that two references to one row see the same pixels. *)

Module Canvas.

Abbreviation store := (list (list Z)).
Abbreviation canvas := (list nat).

(** The row object at an address. *)
Definition row_at (st : store) (a : nat) : list Z := default [] (st !! a).

(** The position that the index [i] denotes in a list of [n] elements:
    negative indices count from the end, anything else out of range is
    an IndexError. *)
Definition py_pos (n : nat) (i : Z) : res nat :=
  if (0 <=? i) && (i <? Z.of_nat n) then Ok (Z.to_nat i)
  else if (- Z.of_nat n <=? i) && (i <? 0) then Ok (Z.to_nat (Z.of_nat n + i))
  else Raise IndexError.

(** [range(a, b)] *)
Definition py_range (a b : Z) : list Z := seqZ a (b - a).

(** [create_canvas(w, h, default)]:
    [[[default] * w for _ in range(h)]] makes [h] new rows. *)
Definition create_canvas (w h default : Z) (st : store) : store * canvas :=
  (st ++ replicate (Z.to_nat h) (replicate (Z.to_nat w) default),
   seq (length st) (Z.to_nat h)).

(** [canvas[y][x] = v] *)
Definition set_pixel (st : store) (cv : canvas) (y x v : Z) : res store :=
  iy ← py_pos (length cv) y;
  let a := nth iy cv 0%nat in
  ix ← py_pos (length (row_at st a)) x;
  Ok (<[ a := <[ ix := v ]> (row_at st a) ]> st).

(** [for x in xs: body] on the store. *)
Fixpoint for_each {A} (xs : list A) (body : A -> store -> res store)
    (st : store) : res store :=
  match xs with
  | [] => Ok st
  | x :: xs' => st' ← body x st; for_each xs' body st'
  end.

(** [H, W = len(canvas), len(canvas[0])] *)
Definition canvas_dims (st : store) (cv : canvas) : res (Z * Z) :=
  r0 ← py_pos (length cv) 0;
  Ok (Z.of_nat (length cv), Z.of_nat (length (row_at st (nth r0 cv 0%nat)))).

Definition in_range (lo v hi : Z) : bool := (lo <=? v) && (v <? hi).

Definition draw_rect (st : store) (cv : canvas) (x1 y1 x2 y2 idx : Z)
    (outline_idx : option Z) : res store :=
  hw ← canvas_dims st cv;
  let '(H, W) := hw in
  let ys := py_range (Z.max 0 y1) (Z.min H (y2 + 1)) in
  let xs := py_range (Z.max 0 x1) (Z.min W (x2 + 1)) in
  st1 ← for_each ys
          (fun y => for_each xs (fun x st => set_pixel st cv y x idx)) st;
  match outline_idx with
  | None => Ok st1
  | Some o =>
      st2 ← for_each xs
              (fun x st =>
                 st' ← (if in_range 0 y1 H then set_pixel st cv y1 x o
                        else Ok st);
                 if in_range 0 y2 H then set_pixel st' cv y2 x o else Ok st')
              st1;
      for_each ys
        (fun y st =>
           st' ← (if in_range 0 x1 W then set_pixel st cv y x1 o else Ok st);
           if in_range 0 x2 W then set_pixel st' cv y x2 o else Ok st')
        st2
  end.

(** The loop of [draw_line], with what it reads from the enclosing
    function as parameters. *)
Section Line.
Variable cv : canvas.
Variables H W x1 y1 dx dy sx sy half idx : Z.

(** The square of pixels around [(x, y)], clipped to the canvas. *)
Definition draw_dot (x y : Z) (st : store) : res store :=
  for_each (py_range (- half) (half + 1))
    (fun oy =>
       for_each (py_range (- half) (half + 1))
         (fun ox st =>
            let nx := x + ox in
            let ny := y + oy in
            if in_range 0 nx W && in_range 0 ny H
            then set_pixel st cv ny nx idx else Ok st))
    st.

(** One update of the error term and of the position. *)
Definition line_next (x y err : Z) : Z * Z * Z :=
  let e2 := 2 * err in
  let '(err1, x') := if - dy <? e2 then (err - dy, x + sx) else (err, x) in
  let '(err2, y') := if e2 <? dx then (err1 + dx, y + sy) else (err1, y) in
  (x', y', err2).

(** [for _ in range(n)], leaving at the [break]. *)
Fixpoint line_loop (n : nat) (x y err : Z) (st : store) : res store :=
  match n with
  | O => Ok st
  | S n' =>
      st' ← draw_dot x y st;
      if (x =? x1) && (y =? y1) then Ok st'
      else
        let '(x', y', err') := line_next x y err in
        line_loop n' x' y' err' st'
  end.

(** The positions that the loop visits. *)
Fixpoint line_points (n : nat) (x y err : Z) : list (Z * Z) :=
  match n with
  | O => []
  | S n' =>
      (x, y) ::
      (if (x =? x1) && (y =? y1) then []
       else
         let '(x', y', err') := line_next x y err in
         line_points n' x' y' err')
  end.
End Line.

Definition draw_line (st : store) (cv : canvas) (x0 y0 x1 y1 idx thickness : Z)
  : res store :=
  hw ← canvas_dims st cv;
  let '(H, W) := hw in
  let dx := Z.abs (x1 - x0) in
  let dy := Z.abs (y1 - y0) in
  let sx := if x0 <? x1 then 1 else -1 in
  let sy := if y0 <? y1 then 1 else -1 in
  let err := dx - dy in
  let half := thickness / 2 in
  line_loop cv H W x1 y1 dx dy sx sy half idx
            (Z.to_nat (Z.max dx dy + 1)) x0 y0 err st.

(** The positions that [draw_line] visits from [(x0, y0)]. *)
Definition line_trace (x0 y0 x1 y1 : Z) : list (Z * Z) :=
  let dx := Z.abs (x1 - x0) in
  let dy := Z.abs (y1 - y0) in
  line_points x1 y1 dx dy
    (if x0 <? x1 then 1 else -1) (if y0 <? y1 then 1 else -1)
    (Z.to_nat (Z.max dx dy + 1)) x0 y0 (dx - dy).

(** The frame that [write_gif] reads from a canvas. *)
Definition frame_of (st : store) (cv : canvas) : list (list Z) :=
  map (row_at st) cv.

End Canvas.

(** ** Predicates on canvases *)

Module CanvasProps.
Import Canvas.

(** The pixel at row [y], column [x], when there is one. *)
Definition pixel (st : store) (cv : canvas) (y x : nat) : option Z :=
  a ← cv !! y; row_at st a !! x.

(** A canvas of [H] rows of [W] pixels whose rows are distinct objects
    of the store. *)
Record canvas_ok (st : store) (cv : canvas) (H W : nat) : Prop := CanvasOk {
  co_rows : length cv = H;
  co_nodup : NoDup cv;
  co_row : forall a, a ∈ cv -> (a < length st)%nat /\ length (row_at st a) = W
}.

(** From [st] to [st'], the pixels of the canvas selected by [t] have
    taken the value [v]; nothing else has changed, in the canvas or in
    the other objects of the store. *)
Record paints (cv : canvas) (H W : nat) (st st' : store) (v : Z)
    (t : Z -> Z -> bool) : Prop := Paints {
  pa_ok : canvas_ok st' cv H W;
  pa_len : length st' = length st;
  pa_other : forall a, a ∉ cv -> row_at st' a = row_at st a;
  pa_pixel : forall y x, (y < H)%nat -> (x < W)%nat ->
    pixel st' cv y x =
      if t (Z.of_nat y) (Z.of_nat x) then Some v else pixel st cv y x
}.

(** The pixels that [draw_rect] fills: columns [x1..x2] of rows
    [y1..y2]. *)
Definition rect_inside (x1 y1 x2 y2 y x : Z) : bool :=
  in_range y1 y (y2 + 1) && in_range x1 x (x2 + 1).

(** The pixels that [draw_rect] outlines: columns [x1..x2] of rows [y1]
    and [y2], and rows [y1..y2] of columns [x1] and [x2]. *)
Definition rect_border (x1 y1 x2 y2 y x : Z) : bool :=
  (in_range x1 x (x2 + 1) && ((y =? y1) || (y =? y2))) ||
  (in_range y1 y (y2 + 1) && ((x =? x1) || (x =? x2))).

(** The pixels within [half] of a visited position, in both directions. *)
Definition near (half : Z) (points : list (Z * Z)) (y x : Z) : bool :=
  existsb (fun p => in_range (fst p - half) x (fst p + half + 1) &&
                    in_range (snd p - half) y (snd p + half + 1)) points.

(** What the loop of [draw_line] keeps true: after [k] iterations the
    position is [i] steps along x and [j] steps along y, the error term
    is [dx - dy - i * dy + j * dx], and it stays in the band that makes
    the longer axis advance at every iteration. *)
Definition line_inv (dx dy k i j err : Z) : Prop :=
  0 <= k <= Z.max dx dy /\ 0 <= i <= dx /\ 0 <= j <= dy /\
  err = dx - dy - i * dy + j * dx /\
  (dy <= dx ->
     i = k /\ 2 * err <= 3 * dx - 2 * dy /\
     (dy < dx -> - dy < 2 * err) /\ (dx = dy -> err = 0)) /\
  (dx < dy -> j = k /\ 2 * err < dx /\ 2 * dx - 3 * dy <= 2 * err).

(** Two consecutive positions of a line: one step along the longer
    axis, at most one along the other. *)
Definition line_step (sx sy : Z) (p q : Z * Z) : Prop :=
  (fst q = fst p \/ fst q = fst p + sx) /\
  (snd q = snd p \/ snd q = snd p + sy) /\
  (fst q = fst p + sx \/ snd q = snd p + sy).

(** Every pixel of the canvas is a byte. *)
Definition canvas_bytes (st : store) (cv : canvas) : Prop :=
  Forall (Forall (fun v => 0 <= v < 256)) (frame_of st cv).

End CanvasProps.

(** ** Facts about results and Python primitives *)

Lemma bind_Ok {A B} (a : A) (k : A -> res B) : (Ok a ≫= k) = k a.
Proof. reflexivity. Qed.

Lemma bind_Raise {A B} (e : exn) (k : A -> res B) : (Raise e ≫= k) = Raise e.
Proof. reflexivity. Qed.

Lemma bind_Ok_inv {A B} (r : res A) (k : A -> res B) (b : B) :
  (r ≫= k) = Ok b -> exists a, r = Ok a /\ k a = Ok b.
Proof. destruct r as [a|e]; [eauto | discriminate]. Qed.

Lemma is_byte_spec (v : Z) : is_byte v = true <-> 0 <= v < 256.
Proof. unfold is_byte. rewrite andb_true_iff. lia. Qed.

Lemma is_u16_spec (v : Z) : is_u16 v = true <-> 0 <= v < 65536.
Proof. unfold is_u16. rewrite andb_true_iff. lia. Qed.

Lemma py_bytes_Ok (vs : list Z) :
  Forall (fun v => 0 <= v < 256) vs -> py_bytes vs = Ok vs.
Proof.
  intros H. unfold py_bytes.
  replace (forallb is_byte vs) with true; [reflexivity|].
  symmetry. apply forallb_forall. intros v Hv.
  apply is_byte_spec. rewrite Forall_forall in H. apply H.
  by apply list_elem_of_In.
Qed.

Lemma py_bytes_Raise (vs : list Z) :
  Exists (fun v => ~ 0 <= v < 256) vs -> py_bytes vs = Raise ValueError.
Proof.
  intros H. unfold py_bytes.
  destruct (forallb is_byte vs) eqn:E; [|reflexivity].
  exfalso. rewrite forallb_forall in E.
  apply Exists_exists in H as (v & Hin & Hv).
  apply Hv, is_byte_spec, E. by apply list_elem_of_In.
Qed.

Lemma py_bytes_inv (vs bs : list Z) :
  py_bytes vs = Ok bs -> bs = vs /\ Forall (fun v => 0 <= v < 256) vs.
Proof.
  unfold py_bytes. destruct (forallb is_byte vs) eqn:E; [|discriminate].
  intros [= <-]. split; [reflexivity|].
  rewrite forallb_forall in E. apply Forall_forall. intros v Hv.
  apply is_byte_spec, E. by apply list_elem_of_In.
Qed.

Example lzw_empty : Lzw.lzw_encode [] 8 = Ok [0; 3; 2].
Proof. vm_compute. reflexivity. Qed.

Example lzw_one : Lzw.lzw_encode [5] 2 = Ok [108; 1].
Proof. vm_compute. reflexivity. Qed.

Example lzw_run : Lzw.lzw_encode [1;1;1;1;1;1;1] 8 = Ok [0; 3; 8; 28; 24; 32; 32].
Proof. vm_compute. reflexivity. Qed.

Example gif_1x1 :
  Gif.file (Gif.write_gif [[[0]]] [] 83 0) =
  Some (Gif.signature ++ [1;0;1;0] ++ [0xF7;0;0] ++ replicate 768 0 ++
        Gif.netscape_ext ++
        [0x21;0xF9;0x04;0x02; 83;0; 0;0; 0x2C; 0;0;0;0;1;0;1;0;0;0; 8;
         4; 0;1;4;4; 0; 0x3B]).
Proof. vm_compute. reflexivity. Qed.

(** ** The bit buffer *)

Module BitFacts.
Import Lzw Format Props.

Lemma land_1_bit (x : Z) : is_bit (Z.land x 1).
Proof.
  change 1 with (Z.ones 1) at 1. rewrite Z.land_ones by lia.
  unfold is_bit. change (2 ^ 1) with 2.
  pose proof (Z.mod_pos_bound x 2). lia.
Qed.

Lemma land_shiftr_testbit (c : Z) (b : nat) :
  Z.land (Z.shiftr c (Z.of_nat b)) 1 = Z.b2z (Z.testbit c (Z.of_nat b)).
Proof.
  change 1 with (Z.ones 1). rewrite Z.land_ones by lia.
  rewrite Z.shiftr_div_pow2 by lia.
  rewrite Z.testbit_spec' by lia. reflexivity.
Qed.

Lemma code_bits_lsb (w c : Z) : code_bits w c = bits_lsb (Z.to_nat w) c.
Proof.
  unfold code_bits, bits_lsb. apply map_ext. intros b.
  apply land_shiftr_testbit.
Qed.

Lemma code_bits_are_bits (w c : Z) : Forall is_bit (code_bits w c).
Proof.
  unfold code_bits. apply Forall_map, Forall_forall. intros b _.
  apply land_1_bit.
Qed.

Lemma byte_of_bits_unpack (b0 b1 b2 b3 b4 b5 b6 b7 : Z) :
  is_bit b0 -> is_bit b1 -> is_bit b2 -> is_bit b3 ->
  is_bit b4 -> is_bit b5 -> is_bit b6 -> is_bit b7 ->
  bits_of_byte (byte_of_bits b0 b1 b2 b3 b4 b5 b6 b7)
    = [b0; b1; b2; b3; b4; b5; b6; b7]
  /\ 0 <= byte_of_bits b0 b1 b2 b3 b4 b5 b6 b7 < 256.
Proof.
  intros [-> | ->] [-> | ->] [-> | ->] [-> | ->]
         [-> | ->] [-> | ->] [-> | ->] [-> | ->];
    vm_compute; intuition congruence.
Qed.

Lemma unpack_app (xs ys : list Z) : unpack (xs ++ ys) = unpack xs ++ unpack ys.
Proof. unfold unpack. apply flat_map_app. Qed.

Lemma unpack_single (x : Z) : unpack [x] = bits_of_byte x.
Proof. unfold unpack, flat_map. apply app_nil_r. Qed.

Lemma flush_loop_packed (n : nat) :
  forall bits out,
    (length bits <= n)%nat ->
    Forall is_bit bits ->
    Forall (fun v => 0 <= v < 256) out ->
    packed (flush_loop bits out) (unpack out ++ bits).
Proof.
  induction n as [n IH] using lt_wf_ind. intros bits out Hlen Hbits Hout.
  destruct bits as [|b0 [|b1 [|b2 [|b3 [|b4 [|b5 [|b6 [|b7 rest]]]]]]]];
    try (constructor; simpl; [reflexivity | lia | assumption | assumption]).
  repeat match goal with
         | H : Forall is_bit (_ :: _) |- _ => inversion_clear H
         end.
  destruct (byte_of_bits_unpack b0 b1 b2 b3 b4 b5 b6 b7) as [Hu Hr];
    try assumption.
  change (flush_loop (b0 :: b1 :: b2 :: b3 :: b4 :: b5 :: b6 :: b7 :: rest) out)
    with (flush_loop rest (out ++ [byte_of_bits b0 b1 b2 b3 b4 b5 b6 b7])).
  replace (unpack out ++ b0 :: b1 :: b2 :: b3 :: b4 :: b5 :: b6 :: b7 :: rest)
    with (unpack (out ++ [byte_of_bits b0 b1 b2 b3 b4 b5 b6 b7]) ++ rest).
  - apply (IH (length rest)); simpl in *; try lia; try assumption.
    apply Forall_app; split; [assumption|]. by constructor.
  - rewrite unpack_app, unpack_single, Hu, <- app_assoc. reflexivity.
Qed.

Lemma write_code_packed (w c : Z) (buf : bitbuf) (bits : list Z) :
  packed buf bits ->
  packed (write_code w c buf) (bits ++ bits_lsb (Z.to_nat w) c).
Proof.
  intros [Hb Hs Hbit Hby]. unfold write_code, flush_bits. simpl.
  rewrite <- Hb, <- app_assoc, <- code_bits_lsb.
  apply (flush_loop_packed _ _ _ (le_n _)); [|assumption].
  apply Forall_app; split; [assumption | apply code_bits_are_bits].
Qed.

Lemma empty_packed : packed (BitBuf [] []) [].
Proof. constructor; simpl; [reflexivity | lia | constructor | constructor]. Qed.

(** The final padding: fewer than eight zero bits complete the last byte. *)
Lemma pad_flush_unpack (buf : bitbuf) (bits : list Z) :
  packed buf bits ->
  exists pad : nat,
    (pad < 8)%nat /\
    unpack (result (pad_flush buf)) = bits ++ repeat 0 pad /\
    chunk_bits (pad_flush buf) = [] /\
    Forall (fun v => 0 <= v < 256) (result (pad_flush buf)).
Proof.
  intros [Hb Hs Hbit Hby]. unfold pad_flush.
  destruct (chunk_bits buf) as [|b0 cb] eqn:E.
  - exists 0%nat. simpl. rewrite app_nil_r in *.
    repeat split; [lia | assumption | assumption | assumption].
  - set (pad := (8 - length (b0 :: cb))%nat).
    assert (Hp : packed (flush_bits (BitBuf ((b0 :: cb) ++ repeat 0 pad) (result buf)))
                        (bits ++ repeat 0 pad)).
    { unfold flush_bits. simpl chunk_bits. simpl result.
      rewrite <- Hb, <- app_assoc.
      apply (flush_loop_packed _ _ _ (le_n _)); [|assumption].
      apply (Forall_app_2 is_bit (b0 :: cb)); [assumption|].
      apply Forall_forall. intros x Hx. apply list_elem_of_In, repeat_spec in Hx.
      left. assumption. }
    assert (Hlen : length ((b0 :: cb) ++ repeat 0 pad) = 8%nat).
    { rewrite length_app, repeat_length. subst pad. simpl in *. lia. }
    destruct Hp as [Hb' Hs' Hbit' Hby'].
    assert (Hnil : chunk_bits (flush_bits (BitBuf ((b0 :: cb) ++ repeat 0 pad) (result buf))) = []).
    { assert (Hfl : forall xs, length (unpack xs) = (8 * length xs)%nat).
      { induction xs as [|x xs IHxs]; [reflexivity|].
        change (unpack (x :: xs)) with (bits_of_byte x ++ unpack xs).
        rewrite length_app, IHxs. simpl. lia. }
      apply (f_equal (@length Z)) in Hb'.
      rewrite <- Hb in Hb'.
      rewrite !length_app, repeat_length, !Hfl in Hb'.
      clear E.
      destruct (chunk_bits (flush_bits _)) as [|? ?]; [reflexivity|].
      subst pad. simpl in *. lia. }
    exists pad. rewrite Hnil, app_nil_r in Hb'.
    repeat split; [subst pad; simpl; lia | assumption | assumption | assumption].
Qed.

End BitFacts.

(** ** The dictionary *)

Module LzwFacts.
Import Lzw Format Props BitFacts.

Lemma init_table_seed (i : Z) : 0 <= i < 256 -> init_table !! [i] = Some i.
Proof.
  intros Hi.
  assert (H : forallb (fun j => match init_table !! [j] with
                                | Some v => v =? j
                                | None => false
                                end) (seqZ 0 256) = true).
  { vm_compute. reflexivity. }
  rewrite forallb_forall in H.
  specialize (H i). destruct (init_table !! [i]) as [v|].
  - f_equal. apply Z.eqb_eq, H, list_elem_of_In, elem_of_seqZ. lia.
  - exfalso. apply diff_false_true, H, list_elem_of_In, elem_of_seqZ. lia.
Qed.

Lemma init_table_only_seed (k : list Z) (v : Z) :
  init_table !! k = Some v -> k = [v] /\ 0 <= v < 256.
Proof.
  intros Hkv.
  assert (H : forallb (fun kv => match fst kv with
                                 | [x] => (x =? snd kv) && is_byte x
                                 | _ => false
                                 end) (map_to_list init_table) = true).
  { vm_compute. reflexivity. }
  rewrite forallb_forall in H.
  apply elem_of_map_to_list, list_elem_of_In, H in Hkv. simpl in Hkv.
  destruct k as [|x [|? ?]]; try discriminate.
  apply andb_true_iff in Hkv as [E Hx].
  apply Z.eqb_eq in E. apply is_byte_spec in Hx. subst x. by split.
Qed.

Lemma init_table_size : size init_table = 256%nat.
Proof. vm_compute. reflexivity. Qed.

Section Dictionary.
Context {S : Type}.
Variable wcode : Z -> Z -> S -> S.

Lemma start_Ok (s0 : S) (m : Z) :
  0 <= m ->
  start wcode s0 m =
    Ok (Enc init_table [] (2 ^ m + 2) (m + 1) (wcode (m + 1) (2 ^ m) s0)).
Proof.
  intros Hm. unfold start.
  destruct (Z.ltb_spec m 0) as [?|_]; [lia|].
  rewrite Z.shiftl_1_l. do 2 f_equal. lia.
Qed.

Lemma start_Raise (s0 : S) (m : Z) :
  m < 0 -> start wcode s0 m = Raise ValueError.
Proof.
  intros Hm. unfold start. destruct (Z.ltb_spec m 0); [reflexivity | lia].
Qed.

Lemma start_wf (s0 : S) (m : Z) (st : enc S) :
  0 <= m -> start wcode s0 m = Ok st -> wf m st.
Proof.
  intros Hm. rewrite start_Ok by assumption. intros [= <-].
  constructor; enc_simpl.
  - apply init_table_seed.
  - by left.
  - intros k v Hkv. left. by apply init_table_only_seed.
  - rewrite init_table_size. lia.
  - lia.
  - lia.
  - lia.
  - lia.
Qed.

Lemma step_Raise (st : enc S) (byte : Z) :
  ~ 0 <= byte < 256 -> step wcode st byte = Raise ValueError.
Proof.
  intros Hb. unfold step. rewrite py_bytes_Raise; [reflexivity|].
  by apply Exists_cons_hd.
Qed.

Lemma step_Ok (m : Z) (st : enc S) (byte : Z) :
  wf m st -> 0 <= byte < 256 ->
  exists st',
    step wcode st byte = Ok st' /\ wf m st' /\
    code_size st <= code_size st' /\ prefix st' <> [].
Proof.
  intros [Hseed Hpre Hcodes Hsize Hlo Hhi Hwlo Hwhi] Hb. unfold step.
  rewrite py_bytes_Ok by (constructor; [assumption | constructor]).
  rewrite bind_Ok.
  destruct (table st !! (prefix st ++ [byte])) as [c'|] eqn:Enew.
  { eexists. split; [reflexivity|]. split; [|split].
    - constructor; enc_simpl; try assumption. right. by eexists.
    - enc_simpl. lia.
    - enc_simpl. by destruct (prefix st). }
  assert (Hne : prefix st <> []).
  { intros E. rewrite E in Enew. change ([] ++ [byte]) with [byte] in Enew.
    rewrite Hseed in Enew by assumption. discriminate. }
  destruct Hpre as [?|[c Hc]]; [contradiction|]. rewrite Hc.
  destruct (Z.leb_spec (next_code st) max_code) as [Hroom|Hfull].
  - unfold max_code in Hroom.
    assert (Hgrow : Z.shiftl 1 (code_size st) < next_code st + 1 ->
                    code_size st < 12).
    { rewrite Z.shiftl_1_l. intros Hlt.
      destruct (Z_lt_le_dec (code_size st) 12) as [?|Hge]; [assumption|].
      exfalso.
      assert (2 ^ 12 <= 2 ^ code_size st) by (apply Z.pow_le_mono_r; lia).
      change (2 ^ 12) with 4096 in *. lia. }
    eexists. split; [reflexivity|].
    split; [|split]; enc_simpl.
    + constructor; enc_simpl.
      * intros i Hi. rewrite lookup_insert_ne; [by apply Hseed|].
        intros E. rewrite E, Hseed in Enew by assumption. discriminate.
      * right. rewrite lookup_insert_ne; [rewrite Hseed by assumption; by eexists|].
        intros E. rewrite E, Hseed in Enew by assumption. discriminate.
      * intros k v. rewrite lookup_insert. case_decide.
        -- intros [= <-]. right. lia.
        -- intros Hkv. destruct (Hcodes _ _ Hkv) as [?|?]; [by left | right; lia].
      * rewrite map_size_insert_None by assumption. lia.
      * lia.
      * lia.
      * destruct (Z.ltb_spec (Z.shiftl 1 (code_size st)) (next_code st + 1)); lia.
      * destruct (Z.ltb_spec (Z.shiftl 1 (code_size st)) (next_code st + 1)); lia.
    + destruct (Z.ltb_spec (Z.shiftl 1 (code_size st)) (next_code st + 1)); lia.
    + discriminate.
  - eexists. split; [reflexivity|]. split; [|split]; enc_simpl.
    + constructor; enc_simpl; try assumption.
      right. rewrite Hseed by assumption. by eexists.
    + lia.
    + discriminate.
Qed.

Lemma feed_app (st : enc S) (d1 d2 : list Z) :
  feed wcode st (d1 ++ d2) = (feed wcode st d1 ≫= fun st' => feed wcode st' d2).
Proof.
  revert st. induction d1 as [|b d1 IH]; intros st; [reflexivity|].
  simpl. destruct (step wcode st b) as [st'|e]; [|reflexivity].
  rewrite !bind_Ok. apply IH.
Qed.

Lemma feed_Ok (m : Z) (data : list Z) :
  forall st,
    wf m st -> Forall (fun v => 0 <= v < 256) data ->
    exists st',
      feed wcode st data = Ok st' /\ wf m st' /\
      code_size st <= code_size st' /\
      (data <> [] -> prefix st' <> []).
Proof.
  induction data as [|b data IH]; intros st Hwf Hdata.
  - exists st. split; [reflexivity|]. split; [assumption|].
    split; [lia | congruence].
  - inversion_clear Hdata as [|? ? Hb Hrest].
    destruct (step_Ok m st b Hwf Hb) as (st1 & E1 & Hwf1 & Hw1 & Hp1).
    destruct (IH st1 Hwf1 Hrest) as (st2 & E2 & Hwf2 & Hw2 & Hp2).
    exists st2. simpl. rewrite E1, bind_Ok, E2.
    split; [reflexivity|]. split; [assumption|]. split; [lia|].
    intros _. destruct data as [|b' data']; [|by apply Hp2].
    simpl in E2. by injection E2 as <-.
Qed.

Lemma feed_Raise (m : Z) (data : list Z) :
  forall st,
    wf m st -> Exists (fun v => ~ 0 <= v < 256) data ->
    feed wcode st data = Raise ValueError.
Proof.
  induction data as [|b data IH]; intros st Hwf Hdata.
  - inversion Hdata.
  - simpl. destruct (Z_le_dec 0 b) as [H0|H0];
      [destruct (Z_lt_dec b 256) as [H1|H1]|];
      try (rewrite step_Raise by lia; reflexivity).
    destruct (step_Ok m st b Hwf (conj H0 H1)) as (st1 & E1 & Hwf1 & _).
    rewrite E1, bind_Ok. apply IH; [assumption|].
    inversion Hdata; [lia | assumption].
Qed.

(** Going on from a state the loop reached keeps the invariant. *)
Lemma step_inv (m : Z) (st st' : enc S) (byte : Z) :
  wf m st -> step wcode st byte = Ok st' ->
  0 <= byte < 256 /\ wf m st' /\ code_size st <= code_size st'.
Proof.
  intros Hwf E. destruct (decide (0 <= byte < 256)) as [Hb|Hb].
  - destruct (step_Ok m st byte Hwf Hb) as (st2 & E2 & Hwf2 & Hw2 & _).
    rewrite E in E2. injection E2 as <-.
    split; [assumption|]. split; assumption.
  - rewrite step_Raise in E by assumption. discriminate.
Qed.

Lemma feed_inv (m : Z) (data : list Z) :
  forall st st',
    wf m st -> feed wcode st data = Ok st' ->
    wf m st' /\ code_size st <= code_size st'.
Proof.
  induction data as [|b data IH]; intros st st' Hwf E.
  - simpl in E. injection E as <-. split; [assumption | lia].
  - simpl in E. apply bind_Ok_inv in E as (st1 & E1 & E2).
    destruct (step_inv m st st1 b Hwf E1) as (_ & Hwf1 & Hw1).
    destruct (IH st1 st' Hwf1 E2) as [Hwf2 Hw2]. split; [assumption | lia].
Qed.

Lemma finish_Ok (m : Z) (st : enc S) :
  wf m st ->
  exists pending,
    finish wcode m st =
      Ok (wcode (code_size st) (2 ^ m + 1)
            (match pending with
             | Some c => wcode (code_size st) c (sink st)
             | None => sink st
             end)) /\
    match pending with
    | Some c => prefix st <> [] /\ table st !! prefix st = Some c
    | None => prefix st = []
    end.
Proof.
  intros Hwf. unfold finish. rewrite Z.shiftl_1_l.
  destruct (prefix st) as [|p ps] eqn:E.
  - exists None. split; reflexivity.
  - destruct (wf_prefix _ _ Hwf) as [E'|[c Hc]]; [congruence|].
    rewrite E in Hc. exists (Some c). rewrite Hc. by repeat split.
Qed.
End Dictionary.

End LzwFacts.

(** ** Two sinks driven by the same dictionary *)

Module SinkFacts.
Import Lzw Format Props BitFacts LzwFacts.

Section Simulation.
Context {S1 S2 : Type}.
Variable wc1 : Z -> Z -> S1 -> S1.
Variable wc2 : Z -> Z -> S2 -> S2.
Variable R : S1 -> S2 -> Prop.
Hypothesis wc_sim : forall w c s1 s2, R s1 s2 -> R (wc1 w c s1) (wc2 w c s2).

Lemma step_sim (st1 : enc S1) (st2 : enc S2) (byte : Z) :
  sim R st1 st2 -> res_sim (sim R) (step wc1 st1 byte) (step wc2 st2 byte).
Proof.
  destruct st1 as [t1 p1 n1 w1 s1], st2 as [t2 p2 n2 w2 s2].
  intros (Ht & Hp & Hn & Hw & Hs). simpl in Ht, Hp, Hn, Hw, Hs. subst.
  unfold step. enc_simpl.
  destruct (py_bytes [byte]) as [b|e]; [|reflexivity]. rewrite !bind_Ok.
  destruct (t2 !! (p2 ++ b)); [by repeat split|].
  destruct (t2 !! p2) as [c|]; [|reflexivity].
  destruct (n2 <=? max_code); repeat split; enc_simpl; by apply wc_sim.
Qed.

Lemma feed_sim (data : list Z) :
  forall st1 st2,
    sim R st1 st2 -> res_sim (sim R) (feed wc1 st1 data) (feed wc2 st2 data).
Proof.
  induction data as [|b data IH]; intros st1 st2 Hsim; [exact Hsim|].
  simpl. pose proof (step_sim st1 st2 b Hsim) as Hstep.
  destruct (step wc1 st1 b) as [st1'|e1], (step wc2 st2 b) as [st2'|e2];
    try contradiction; [|exact Hstep].
  rewrite !bind_Ok. by apply IH.
Qed.

Lemma start_sim (a1 : S1) (a2 : S2) (m : Z) :
  R a1 a2 -> res_sim (sim R) (start wc1 a1 m) (start wc2 a2 m).
Proof.
  intros Ha. unfold start. destruct (m <? 0); [reflexivity|].
  repeat split. enc_simpl. by apply wc_sim.
Qed.

Lemma finish_sim (m : Z) (st1 : enc S1) (st2 : enc S2) :
  sim R st1 st2 -> res_sim R (finish wc1 m st1) (finish wc2 m st2).
Proof.
  destruct st1 as [t1 p1 n1 w1 s1], st2 as [t2 p2 n2 w2 s2].
  intros (Ht & Hp & Hn & Hw & Hs). simpl in Ht, Hp, Hn, Hw, Hs. subst.
  unfold finish. enc_simpl. destruct p2 as [|x p2].
  - rewrite !bind_Ok. by apply wc_sim.
  - destruct (t2 !! (x :: p2)) as [c|]; [|reflexivity].
    rewrite !bind_Ok. by apply wc_sim, wc_sim.
Qed.

Lemma encode_sim (a1 : S1) (a2 : S2) (m : Z) (data : list Z) :
  R a1 a2 -> res_sim R (encode wc1 a1 m data) (encode wc2 a2 m data).
Proof.
  intros Ha. unfold encode. pose proof (start_sim a1 a2 m Ha) as H0.
  destruct (start wc1 a1 m) as [st1|e1], (start wc2 a2 m) as [st2|e2];
    try contradiction; [|exact H0].
  rewrite !bind_Ok. pose proof (feed_sim data st1 st2 H0) as H1.
  destruct (feed wc1 st1 data) as [st1'|e1], (feed wc2 st2 data) as [st2'|e2];
    try contradiction; [|exact H1].
  rewrite !bind_Ok. by apply finish_sim.
Qed.
End Simulation.

Lemma stream_bits_app (xs ys : list (Z * Z)) :
  stream_bits (xs ++ ys) = stream_bits xs ++ stream_bits ys.
Proof. unfold stream_bits. apply flat_map_app. Qed.

(** The bit buffer always holds the packing of the codes written. *)
Lemma write_code_log (w c : Z) (buf : bitbuf) (log : list (Z * Z)) :
  packed buf (stream_bits log) ->
  packed (write_code w c buf) (stream_bits (log_code w c log)).
Proof.
  intros Hp. unfold log_code. rewrite stream_bits_app.
  unfold stream_bits at 2. simpl. rewrite app_nil_r.
  by apply write_code_packed.
Qed.

Lemma encode_packed (data : list Z) (m : Z) :
  res_sim (fun buf log => packed buf (stream_bits log))
    (encode write_code (BitBuf [] []) m data)
    (lzw_codes data m).
Proof.
  unfold lzw_codes. apply encode_sim.
  - intros w c s1 s2. apply write_code_log.
  - apply empty_packed.
Qed.

(** [lzw_encode] returns on every sequence of bytes. *)
Lemma lzw_encode_total (data : list Z) (min_bits : Z) :
  0 <= min_bits ->
  Forall (fun v => 0 <= v < 256) data ->
  exists out, lzw_encode data min_bits = Ok out /\
              Forall (fun v => 0 <= v < 256) out.
Proof.
  intros Hm Hdata.
  pose proof (start_wf write_code (BitBuf [] []) min_bits _ Hm
                (start_Ok write_code _ min_bits Hm)) as Hwf0.
  destruct (feed_Ok write_code min_bits data _ Hwf0 Hdata)
    as (st & Efeed & Hwf & _).
  destruct (finish_Ok write_code min_bits st Hwf) as (pend & Efin & _).
  pose proof (encode_packed data min_bits) as Hs.
  unfold lzw_encode. unfold encode in *.
  rewrite start_Ok, bind_Ok, Efeed, bind_Ok, Efin in * by assumption.
  destruct (lzw_codes data min_bits) as [log|]; [|contradiction].
  destruct (pad_flush_unpack _ _ Hs) as (pad & _ & _ & _ & Hby).
  eexists. rewrite bind_Ok. split; [by apply py_bytes_Ok | exact Hby].
Qed.

(** [lzw_encode] raises ValueError when [min_bits] is negative or some
    value of the input is not a byte. *)
Lemma lzw_encode_Raise (data : list Z) (min_bits : Z) :
  Exists (fun v => ~ 0 <= v < 256) data ->
  lzw_encode data min_bits = Raise ValueError.
Proof.
  intros Hex. unfold lzw_encode, encode.
  destruct (Z_lt_le_dec min_bits 0) as [Hneg|Hm].
  - rewrite start_Raise by assumption. reflexivity.
  - pose proof (start_wf write_code (BitBuf [] []) min_bits _ Hm
                  (start_Ok write_code _ min_bits Hm)) as Hwf0.
    rewrite start_Ok, bind_Ok by assumption.
    rewrite (feed_Raise write_code min_bits data _ Hwf0 Hex). reflexivity.
Qed.

End SinkFacts.

Module LzwClaims.
Import Lzw Format Props BitFacts LzwFacts SinkFacts.

(** C3.  For every sequence of bytes and every [min_bits >= 0],
    [lzw_encode] returns the LSB-first packing of the codes it handed to
    [write_code]: reading the bits of the output bytes, least significant
    bit first, gives the bits of the codes in order (each code with the
    low bit first, at the width in force), followed by fewer than eight
    zero bits.  At the end of the input the bit buffer holds fewer than
    eight bits (whole bytes were flushed as they filled up), the code of
    the pending prefix is written when the prefix is not empty (which is
    the case exactly when there was input), and [end_code] is written
    last. *)
Theorem C3_lzw_encode_bit_packing (data : list Z) (min_bits : Z) :
  0 <= min_bits ->
  Forall (fun v => 0 <= v < 256) data ->
  exists (st : enc (list (Z * Z))) (stb : enc bitbuf)
         (pending : list (Z * Z)) (out : list Z) (pad : nat),
    (start log_code [] min_bits ≫= fun st0 => feed log_code st0 data) = Ok st /\
    (start write_code (BitBuf [] []) min_bits ≫=
       fun st0 => feed write_code st0 data) = Ok stb /\
    unpack (result (sink stb)) ++ chunk_bits (sink stb) = stream_bits (sink st) /\
    (length (chunk_bits (sink stb)) < 8)%nat /\
    match prefix st with
    | [] => data = [] /\ pending = []
    | _ :: _ =>
        data <> [] /\
        exists c, table st !! prefix st = Some c /\ pending = [(c, code_size st)]
    end /\
    lzw_codes data min_bits =
      Ok (sink st ++ pending ++ [(2 ^ min_bits + 1, code_size st)]) /\
    lzw_encode data min_bits = Ok out /\
    unpack out =
      stream_bits (sink st ++ pending ++ [(2 ^ min_bits + 1, code_size st)])
      ++ repeat 0 pad /\
    (pad < 8)%nat /\
    Forall (fun v => 0 <= v < 256) out.
Proof.
  intros Hm Hdata.
  (* the run on the code log *)
  pose proof (start_wf log_code [] min_bits _ Hm (start_Ok log_code [] min_bits Hm))
    as Hwf0.
  destruct (feed_Ok log_code min_bits data _ Hwf0 Hdata)
    as (st & Efeed & Hwf & _ & Hpre).
  destruct (finish_Ok log_code min_bits st Hwf) as (pend & Efin & Hpend).
  (* the run on the bit buffer *)
  pose proof (start_sim write_code log_code
                (fun buf log => packed buf (stream_bits log)) write_code_log
                (BitBuf [] []) [] min_bits empty_packed) as Hs0.
  rewrite !start_Ok in Hs0 by assumption.
  pose proof (feed_sim write_code log_code _ write_code_log data _ _ Hs0) as Hs1.
  rewrite Efeed in Hs1.
  destruct (feed write_code _ data) as [stb|] eqn:Efeedb; [|contradiction].
  destruct Hs1 as (_ & _ & _ & _ & [Hbits Hshort _ _]).
  (* the whole call *)
  pose proof (encode_packed data min_bits) as Hs2.
  assert (Ecodes : lzw_codes data min_bits =
            Ok (sink st ++ match pend with
                           | Some c => [(c, code_size st)]
                           | None => []
                           end ++ [(2 ^ min_bits + 1, code_size st)])).
  { unfold lzw_codes, encode. rewrite start_Ok, bind_Ok, Efeed, bind_Ok, Efin
      by assumption.
    f_equal. unfold log_code. destruct pend; [|reflexivity].
    rewrite <- app_assoc. reflexivity. }
  rewrite Ecodes in Hs2.
  destruct (encode write_code _ min_bits data) as [buf|] eqn:Ebuf;
    [|contradiction].
  destruct (pad_flush_unpack buf _ Hs2) as (pad & Hpad & Hun & _ & Hby).
  exists st, stb,
    (match pend with Some c => [(c, code_size st)] | None => [] end),
    (result (pad_flush buf)), pad.
  rewrite !start_Ok, !bind_Ok by assumption.
  split; [exact Efeed|]. split; [exact Efeedb|].
  split; [exact Hbits|]. split; [exact Hshort|].
  split.
  { destruct pend as [c|].
    - destruct Hpend as [Hne Hc]. destruct (prefix st) as [|x xs] eqn:E;
        [contradiction|].
      split; [|by exists c].
      intros ->. simpl in Efeed. injection Efeed as <-. discriminate.
    - rewrite Hpend. split; [|reflexivity].
      destruct data as [|b data']; [reflexivity|].
      exfalso. by apply Hpre. }
  split; [exact Ecodes|].
  split; [|split; [exact Hun | split; [exact Hpad | exact Hby]]].
  unfold lzw_encode. rewrite Ebuf, bind_Ok. by apply py_bytes_Ok.
Qed.

Lemma C3_lzw_encode_bit_packing_witness :
  exists (st : enc (list (Z * Z))) (stb : enc bitbuf)
         (pending : list (Z * Z)) (out : list Z) (pad : nat),
    (start log_code [] 8 ≫= fun st0 => feed log_code st0 [1; 1; 1]) = Ok st /\
    (start write_code (BitBuf [] []) 8 ≫=
       fun st0 => feed write_code st0 [1; 1; 1]) = Ok stb /\
    unpack (result (sink stb)) ++ chunk_bits (sink stb) = stream_bits (sink st) /\
    (length (chunk_bits (sink stb)) < 8)%nat /\
    match prefix st with
    | [] => [1; 1; 1] = [] /\ pending = []
    | _ :: _ =>
        [1; 1; 1] <> [] /\
        exists c, table st !! prefix st = Some c /\ pending = [(c, code_size st)]
    end /\
    lzw_codes [1; 1; 1] 8 =
      Ok (sink st ++ pending ++ [(2 ^ 8 + 1, code_size st)]) /\
    lzw_encode [1; 1; 1] 8 = Ok out /\
    unpack out =
      stream_bits (sink st ++ pending ++ [(2 ^ 8 + 1, code_size st)])
      ++ repeat 0 pad /\
    (pad < 8)%nat /\
    Forall (fun v => 0 <= v < 256) out.
Proof.
  apply (C3_lzw_encode_bit_packing [1; 1; 1] 8).
  - lia.
  - repeat constructor; lia.
Defined.

(** C4 (as amended).  For [8 <= min_bits <= 11], in every state the loop
    of [lzw_encode] reaches: the table has at most 4096 entries counting
    the two reserved codes, the code width lies in [min_bits+1, 12] and
    never decreases afterwards, and no table entry carries the value of
    [clear_code] or [end_code]. *)
Theorem C4_lzw_table_and_width_invariants
    (min_bits : Z) (data1 data2 : list Z) (st0 st1 st2 : enc bitbuf) :
  8 <= min_bits <= 11 ->
  start write_code (BitBuf [] []) min_bits = Ok st0 ->
  feed write_code st0 data1 = Ok st1 ->
  feed write_code st1 data2 = Ok st2 ->
  (size (table st1) + 2 <= 4096)%nat /\
  min_bits + 1 <= code_size st1 <= 12 /\
  code_size st1 <= code_size st2 /\
  (forall k v, table st1 !! k = Some v ->
     v <> Z.shiftl 1 min_bits /\ v <> Z.shiftl 1 min_bits + 1).
Proof.
  intros Hm E0 E1 E2.
  assert (Hm0 : 0 <= min_bits) by lia.
  pose proof (start_wf write_code _ min_bits st0 Hm0 E0) as Hwf0.
  destruct (feed_inv write_code min_bits data1 st0 st1 Hwf0 E1) as [Hwf1 _].
  destruct (feed_inv write_code min_bits data2 st1 st2 Hwf1 E2) as [_ Hmono].
  destruct Hwf1 as [_ _ Hcodes Hsize _ Hhi Hwlo Hwhi].
  assert (Hlo8 : 2 ^ 8 <= 2 ^ min_bits) by (apply Z.pow_le_mono_r; lia).
  assert (Hhi11 : 2 ^ min_bits <= 2 ^ 11) by (apply Z.pow_le_mono_r; lia).
  change (2 ^ 8) with 256 in Hlo8. change (2 ^ 11) with 2048 in Hhi11.
  rewrite Z.shiftl_1_l.
  split; [lia|]. split; [lia|]. split; [exact Hmono|].
  intros k v Hkv. destruct (Hcodes k v Hkv) as [[_ Hv]|Hv]; lia.
Qed.

Lemma C4_lzw_table_and_width_invariants_witness :
  exists st0 st1 st2 : enc bitbuf,
    start write_code (BitBuf [] []) 8 = Ok st0 /\
    feed write_code st0 [7; 7; 7] = Ok st1 /\
    feed write_code st1 [7; 7] = Ok st2 /\
    (size (table st1) + 2 <= 4096)%nat /\
    8 + 1 <= code_size st1 <= 12 /\
    code_size st1 <= code_size st2 /\
    (forall k v, table st1 !! k = Some v ->
       v <> Z.shiftl 1 8 /\ v <> Z.shiftl 1 8 + 1).
Proof.
  assert (H8 : 0 <= 8) by lia.
  pose proof (start_Ok write_code (BitBuf [] []) 8 H8) as E0.
  pose proof (start_wf write_code _ 8 _ H8 E0) as Hwf0.
  destruct (feed_Ok write_code 8 [7; 7; 7] _ Hwf0) as (st1 & E1 & Hwf1 & _);
    [repeat constructor; lia|].
  destruct (feed_Ok write_code 8 [7; 7] _ Hwf1) as (st2 & E2 & _);
    [repeat constructor; lia|].
  eexists. exists st1, st2.
  split; [exact E0|]. split; [exact E1|]. split; [exact E2|].
  eapply (C4_lzw_table_and_width_invariants 8 [7; 7; 7] [7; 7] _ st1 st2);
    [lia | exact E0 | exact E1 | exact E2].
Defined.

(** The claim C4 as stated, for every [min_bits], fails on both sides of
    that range: with [min_bits = 12] the width starts at 13, above 12;
    with [min_bits = 2] the seeded table already maps the byte string
    [[4]] to 4, the value of [clear_code]. *)
Lemma C4_counterexample :
  (exists st0 : enc bitbuf,
     start write_code (BitBuf [] []) 12 = Ok st0 /\
     ~ (12 + 1 <= code_size st0 <= 12)) /\
  (exists st0 : enc bitbuf,
     start write_code (BitBuf [] []) 2 = Ok st0 /\
     table st0 !! [4] = Some (Z.shiftl 1 2)).
Proof.
  split.
  - rewrite start_Ok by lia. eexists. split; [reflexivity|]. enc_simpl. lia.
  - rewrite start_Ok by lia. eexists. split; [reflexivity|]. enc_simpl.
    rewrite Z.shiftl_1_l. apply init_table_seed. lia.
Qed.

(** C6 (as amended).  [lzw_encode] raises ValueError on every input with
    a value outside [0, 256), whatever [min_bits] is; so for
    [min_bits >= 8] every byte outside [0, 2^min_bits) is rejected.  The
    bound does not follow [min_bits]: for [min_bits >= 0] every input
    whose values all lie in [0, 256) is encoded. *)
Theorem C6_lzw_rejects_values_outside_bytes (data : list Z) (min_bits : Z) :
  (Exists (fun v => ~ 0 <= v < 256) data ->
   lzw_encode data min_bits = Raise ValueError) /\
  (8 <= min_bits ->
   Exists (fun v => ~ 0 <= v < 2 ^ min_bits) data ->
   lzw_encode data min_bits = Raise ValueError) /\
  (0 <= min_bits ->
   Forall (fun v => 0 <= v < 256) data ->
   exists out, lzw_encode data min_bits = Ok out).
Proof.
  pose proof (lzw_encode_Raise data min_bits) as Hbad.
  split; [exact Hbad|]. split.
  - intros Hm Hex. apply Hbad.
    assert (H256 : 2 ^ 8 <= 2 ^ min_bits) by (apply Z.pow_le_mono_r; lia).
    change (2 ^ 8) with 256 in H256.
    apply Exists_exists in Hex as (v & Hin & Hv).
    apply Exists_exists. exists v. split; [assumption | lia].
  - intros Hm Hall.
    destruct (lzw_encode_total data min_bits Hm Hall) as (out & E & _). by exists out.
Qed.

Lemma C6_lzw_rejects_values_outside_bytes_witness :
  lzw_encode [1; 256; 2] 8 = Raise ValueError /\
  lzw_encode [3; -1] 9 = Raise ValueError /\
  (exists out, lzw_encode [1; 2; 3] 8 = Ok out).
Proof.
  split; [|split].
  - apply (proj1 (C6_lzw_rejects_values_outside_bytes [1; 256; 2] 8)).
    apply Exists_cons_tl, Exists_cons_hd. lia.
  - apply (proj1 (proj2 (C6_lzw_rejects_values_outside_bytes [3; -1] 9)));
      [lia|].
    apply Exists_cons_tl, Exists_cons_hd. lia.
  - apply (proj2 (proj2 (C6_lzw_rejects_values_outside_bytes [1; 2; 3] 8)));
      [lia|].
    repeat constructor; lia.
Defined.

(** The claim C6 as stated fails for [min_bits < 8]: with [min_bits = 2]
    the byte 5 lies outside [0, 4) and is encoded through its seeded
    table entry. *)
Lemma C6_counterexample :
  ~ 0 <= 5 < 2 ^ 2 /\ lzw_encode [5] 2 = Ok [108; 1].
Proof. split; [lia | vm_compute; reflexivity]. Qed.

End LzwClaims.

(** ** The container writer: closed forms *)

Module GifFacts.
Import Lzw Gif Format Props LzwFacts SinkFacts.

Lemma bind_write {B} (bs : list Z) (k : unit -> io B) (f : list Z) :
  (f_write bs ≫= k) f = k tt (f ++ bs).
Proof. reflexivity. Qed.

Lemma bind_lift_Ok {A B} (a : A) (k : A -> io B) (f : list Z) :
  (lift (Ok a) ≫= k) f = k a f.
Proof. reflexivity. Qed.

Lemma bind_lift_Raise {A B} (e : exn) (k : A -> io B) (f : list Z) :
  (lift (Raise e) ≫= k) f = (Raise e, f).
Proof. reflexivity. Qed.

Lemma bind_io_Ok {A B} (m : io A) (k : A -> io B) (f f' : list Z) (a : A) :
  m f = (Ok a, f') -> (m ≫= k) f = k a f'.
Proof. intros E. unfold mbind, io_bind. by rewrite E. Qed.

Lemma bind_io_Raise {A B} (m : io A) (k : A -> io B) (f f' : list Z) (e : exn) :
  m f = (Raise e, f') -> (m ≫= k) f = (Raise e, f').
Proof. intros E. unfold mbind, io_bind. by rewrite E. Qed.

Lemma pack_H_Ok (v : Z) :
  0 <= v < 65536 -> pack_H v = Ok [Z.land v 255; Z.shiftr v 8].
Proof.
  intros Hv. unfold pack_H.
  by rewrite (proj2 (is_u16_spec v) Hv).
Qed.

Lemma pack_H_Raise (v : Z) : ~ 0 <= v < 65536 -> pack_H v = Raise StructError.
Proof.
  intros Hv. unfold pack_H. destruct (is_u16 v) eqn:E; [|reflexivity].
  apply is_u16_spec in E. contradiction.
Qed.

(** The sub-block loop writes the rest of the payload as blocks of 1 to
    255 bytes, each behind its length byte. *)
Lemma write_subblocks_spec (compressed : list Z) (pos : nat) (f : list Z) :
  exists blocks,
    write_subblocks compressed pos f =
      (Ok tt, f ++ concat (map sub_block blocks)) /\
    concat blocks = drop pos compressed /\
    Forall (fun b => (1 <= length b <= 255)%nat) blocks.
Proof.
  funelim (write_subblocks compressed pos f).
  - (* pos has reached the end *)
    exists []. simpl. rewrite app_nil_r, drop_ge by lia.
    repeat split. constructor.
  - (* a block is written, the loop goes on *)
    match goal with
    | IH : exists _, _ |- _ => destruct IH as (blocks & E & Hcat & Hlen)
    end.
    apply py_bytes_inv in Heq as [-> _].
    set (n := Nat.min 255 (length compressed - pos)) in *.
    exists (take n (drop pos compressed) :: blocks).
    split; [|split].
    + rewrite E. f_equal. simpl. unfold sub_block at 1.
      rewrite length_take, length_drop.
      replace (n `min` (length compressed - pos))%nat with n by (subst n; lia).
      rewrite <- !app_assoc. reflexivity.
    + simpl. rewrite Hcat, <- drop_drop.
      apply take_drop.
    + constructor; [|assumption].
      rewrite length_take, length_drop. subst n. lia.
  - (* bytes([block_len]) cannot raise: block_len <= 255 *)
    exfalso. rewrite py_bytes_Ok in Heq; [discriminate|].
    constructor; [lia | constructor].
Qed.

Lemma pack_Hs_screen (W H : Z) :
  0 <= W < 65536 -> 0 <= H < 65536 ->
  pack_Hs [W; H] =
    Ok [Z.land W 255; Z.shiftr W 8; Z.land H 255; Z.shiftr H 8].
Proof.
  intros HW HH. cbn [pack_Hs].
  rewrite !pack_H_Ok by assumption. reflexivity.
Qed.

Lemma pack_Hs_descriptor (W H : Z) :
  0 <= W < 65536 -> 0 <= H < 65536 ->
  pack_Hs [0; 0; W; H; 0] =
    Ok [0; 0; 0; 0; Z.land W 255; Z.shiftr W 8; Z.land H 255; Z.shiftr H 8; 0; 0].
Proof.
  intros HW HH. cbn [pack_Hs].
  rewrite (pack_H_Ok W), (pack_H_Ok H) by assumption. reflexivity.
Qed.

Lemma concat_pixels_ok (frame : list (list Z)) :
  pixels_ok frame -> Forall (fun v => 0 <= v < 256) (concat frame).
Proof.
  induction 1 as [|row rows Hrow _ IH]; [constructor|].
  simpl. apply Forall_app_2; assumption.
Qed.

Lemma concat_pixel_bad (frame : list (list Z)) :
  pixel_bad frame -> Exists (fun v => ~ 0 <= v < 256) (concat frame).
Proof.
  induction 1 as [row rows Hrow|row rows _ IH]; simpl; apply Exists_app; auto.
Qed.

(** One iteration of the frame loop on valid arguments. *)
Lemma write_frame_Ok (W H d t : Z) (frame : list (list Z)) (f : list Z) :
  0 <= W < 65536 -> 0 <= H < 65536 -> 0 <= d < 65536 -> 0 <= t < 256 ->
  pixels_ok frame ->
  exists blocks,
    write_frame W H d t frame f = (Ok tt, f ++ frame_bytes W H d t blocks) /\
    lzw_encode (concat frame) 8 = Ok (concat blocks) /\
    Forall (fun b => (1 <= length b <= 255)%nat) blocks.
Proof.
  intros HW HH Hd Ht Hpix.
  destruct (lzw_encode_total (concat frame) 8) as (compressed & Elzw & _);
    [lia | by apply concat_pixels_ok |].
  destruct (write_subblocks_spec compressed 0
              (f ++ gce_bytes d t ++ descriptor_bytes W H ++ [8]))
    as (blocks & Esub & Hcat & Hlen).
  rewrite drop_0 in Hcat. subst compressed.
  exists blocks. split; [|split; assumption].
  unfold write_frame.
  rewrite bind_write, pack_H_Ok, bind_lift_Ok, bind_write by assumption.
  rewrite (py_bytes_Ok [t; 0]), bind_lift_Ok, bind_write by bytes_ok.
  rewrite bind_write, pack_Hs_descriptor, bind_lift_Ok, bind_write
    by assumption.
  rewrite (py_bytes_Ok [8]), bind_lift_Ok, bind_write by bytes_ok.
  rewrite Elzw, bind_lift_Ok.
  unfold gce_bytes, descriptor_bytes in Esub.
  erewrite bind_io_Ok.
  2: { rewrite <- Esub. f_equal. rewrite <- !app_assoc. reflexivity. }
  unfold f_write, frame_bytes, frame_head, gce_bytes, descriptor_bytes.
  f_equal. rewrite <- !app_assoc. reflexivity.
Qed.

(** One iteration of the frame loop on a frame with a value that is not
    a byte: [lzw_encode] raises after the control block, the image
    descriptor and the code-size byte have been written. *)
Lemma write_frame_bad_pixel (W H d t : Z) (frame : list (list Z)) (f : list Z) :
  0 <= W < 65536 -> 0 <= H < 65536 -> 0 <= d < 65536 -> 0 <= t < 256 ->
  pixel_bad frame ->
  write_frame W H d t frame f = (Raise ValueError, f ++ frame_head W H d t).
Proof.
  intros HW HH Hd Ht Hpix.
  pose proof (lzw_encode_Raise (concat frame) 8
                (concat_pixel_bad frame Hpix)) as Elzw.
  unfold write_frame.
  rewrite bind_write, pack_H_Ok, bind_lift_Ok, bind_write by assumption.
  rewrite (py_bytes_Ok [t; 0]), bind_lift_Ok, bind_write by bytes_ok.
  rewrite bind_write, pack_Hs_descriptor, bind_lift_Ok, bind_write
    by assumption.
  rewrite (py_bytes_Ok [8]), bind_lift_Ok, bind_write by bytes_ok.
  rewrite Elzw, bind_lift_Raise.
  unfold frame_head, gce_bytes, descriptor_bytes.
  f_equal. rewrite <- !app_assoc. reflexivity.
Qed.

Lemma write_frames_Ok (W H d t : Z) (frames : list (list (list Z))) :
  0 <= W < 65536 -> 0 <= H < 65536 -> 0 <= d < 65536 -> 0 <= t < 256 ->
  Forall pixels_ok frames ->
  forall f, exists bss,
    Forall2 blocks_of frames bss /\
    write_frames W H d t frames f =
      (Ok tt, f ++ concat (map (frame_bytes W H d t) bss)).
Proof.
  intros HW HH Hd Ht Hall.
  induction Hall as [|frame frames Hpix _ IH]; intros f.
  - exists []. split; [constructor|]. simpl. by rewrite app_nil_r.
  - destruct (write_frame_Ok W H d t frame f HW HH Hd Ht Hpix)
      as (blocks & E & Hlzw & Hlen).
    destruct (IH (f ++ frame_bytes W H d t blocks)) as (bss & Hbss & E').
    exists (blocks :: bss). split; [constructor; [by split | assumption]|].
    cbn [write_frames]. rewrite (bind_io_Ok _ _ _ _ _ E), E'.
    cbn [map concat]. by rewrite <- !app_assoc.
Qed.

Lemma write_frames_bad_pixel (W H d t : Z)
    (good : list (list (list Z))) (bad : list (list Z))
    (rest : list (list (list Z))) :
  0 <= W < 65536 -> 0 <= H < 65536 -> 0 <= d < 65536 -> 0 <= t < 256 ->
  Forall pixels_ok good -> pixel_bad bad ->
  forall f, exists bss,
    Forall2 blocks_of good bss /\
    write_frames W H d t (good ++ bad :: rest) f =
      (Raise ValueError,
       f ++ concat (map (frame_bytes W H d t) bss) ++ frame_head W H d t).
Proof.
  intros HW HH Hd Ht Hall Hbad.
  induction Hall as [|frame frames Hpix _ IH]; intros f.
  - exists []. split; [constructor|]. cbn [app write_frames].
    rewrite (bind_io_Raise _ _ _ _ _
               (write_frame_bad_pixel W H d t bad f HW HH Hd Ht Hbad)).
    reflexivity.
  - destruct (write_frame_Ok W H d t frame f HW HH Hd Ht Hpix)
      as (blocks & E & Hlzw & Hlen).
    destruct (IH (f ++ frame_bytes W H d t blocks)) as (bss & Hbss & E').
    exists (blocks :: bss). split; [constructor; [by split | assumption]|].
    cbn [app write_frames]. rewrite (bind_io_Ok _ _ _ _ _ E), E'.
    cbn [map concat]. by rewrite <- !app_assoc.
Qed.

Lemma fill_palette_Ok (cs : list (Z * Z * Z)) :
  forall (i : nat) (pb : list Z),
    Forall rgb_ok cs ->
    (3 * (i + length cs) <= length pb)%nat ->
    fill_palette pb i cs =
      Ok (take (3 * i) pb ++ concat (map rgb_bytes cs) ++
          drop (3 * (i + length cs)) pb).
Proof.
  induction cs as [|c cs IH]; intros i pb Hok Hlen.
  - cbn [fill_palette map concat length app].
    rewrite Nat.add_0_r, take_drop. reflexivity.
  - inversion_clear Hok as [|? ? Hc Hcs]. cbn [length] in Hlen.
    destruct c as [[r g] b]. cbn [fill_palette set_rgb].
    unfold rgb_ok, rgb_bytes in Hc.
    rewrite (py_bytes_Ok [r; g; b]) by assumption. rewrite !bind_Ok.
    rewrite IH; [|assumption|rewrite !length_app, length_take, length_drop; simpl; lia].
    f_equal.
    assert (Ltake : length (take (i * 3) pb) = (3 * i)%nat)
      by (rewrite length_take; lia).
    replace (3 * S i)%nat with (3 * i + 3)%nat by lia.
    rewrite (app_assoc (take (i * 3) pb)).
    rewrite take_app_length' by (rewrite length_app, Ltake; simpl; lia).
    replace (3 * (S i + length cs))%nat
      with ((3 * i + 3) + 3 * length cs)%nat by lia.
    rewrite drop_app_add' by (rewrite length_app, Ltake; simpl; lia).
    rewrite drop_drop.
    replace (3 * i)%nat with (i * 3)%nat by lia.
    replace (i * 3 + 3 + 3 * length cs)%nat
      with (3 * (i + S (length cs)))%nat by lia.
    cbn [map concat rgb_bytes]. rewrite <- !app_assoc. reflexivity.
Qed.

Lemma build_palette_Ok (palette : list (Z * Z * Z)) :
  Forall rgb_ok (take 256 palette) ->
  build_palette palette = Ok (color_table palette).
Proof.
  intros Hok. unfold build_palette, color_table.
  rewrite fill_palette_Ok; [|assumption|].
  - rewrite Nat.mul_0_r, take_0, Nat.add_0_l, drop_replicate. reflexivity.
  - rewrite length_replicate, length_take. lia.
Qed.

Lemma color_table_length (palette : list (Z * Z * Z)) :
  length (color_table palette) = 768%nat.
Proof.
  unfold color_table. rewrite length_app, length_replicate.
  assert (Hc : forall cs, length (concat (map rgb_bytes cs)) = (3 * length cs)%nat).
  { induction cs as [|[[r g] b] cs IH]; [reflexivity|].
    cbn [map concat rgb_bytes]. rewrite length_app, IH. simpl. lia. }
  rewrite Hc, length_take. lia.
Qed.

Lemma fill_palette_Raise (cs : list (Z * Z * Z)) :
  forall (i : nat) (pb : list Z) (e : exn),
    fill_palette pb i cs = Raise e -> e = ValueError.
Proof.
  induction cs as [|[[r g] b] cs IH]; intros i pb e; [discriminate|].
  cbn [fill_palette set_rgb]. unfold py_bytes.
  destruct (forallb is_byte [r; g; b]).
  - rewrite !bind_Ok. apply IH.
  - rewrite !bind_Raise. by intros [= <-].
Qed.

Lemma fill_palette_inv (cs : list (Z * Z * Z)) :
  forall (i : nat) (pb pal : list Z),
    fill_palette pb i cs = Ok pal -> Forall rgb_ok cs.
Proof.
  induction cs as [|[[r g] b] cs IH]; intros i pb pal E; [constructor|].
  cbn [fill_palette set_rgb] in E.
  destruct (py_bytes [r; g; b]) as [v|] eqn:Ev; [|discriminate].
  apply py_bytes_inv in Ev as [-> Hv]. rewrite !bind_Ok in E.
  constructor; [exact Hv | exact (IH _ _ _ E)].
Qed.

Lemma build_palette_inv (palette : list (Z * Z * Z)) (pal : list Z) :
  build_palette palette = Ok pal ->
  Forall rgb_ok (take 256 palette) /\ pal = color_table palette.
Proof.
  intros E.
  pose proof (fill_palette_inv _ _ _ _ E) as Hok.
  split; [assumption|].
  rewrite (build_palette_Ok palette Hok) in E. congruence.
Qed.

Lemma u16_le_pack (v : Z) : u16_le (Z.land v 255) (Z.shiftr v 8) = v.
Proof.
  unfold u16_le. change 255 with (Z.ones 8).
  rewrite Z.land_ones, Z.shiftr_div_pow2 by lia.
  change (2 ^ 8) with 256. pose proof (Z.div_mod v 256). lia.
Qed.

Lemma write_body_frames (W H : Z) (pal : list Z) (d t : Z)
    (frames : list (list (list Z))) :
  0 <= W < 65536 -> 0 <= H < 65536 ->
  write_body W H pal d t frames [] =
    match write_frames W H d t frames (header_bytes W H pal) with
    | (Ok _, f) => (Ok tt, f ++ [0x3B])
    | (Raise e, f) => (Raise e, f)
    end.
Proof.
  intros HW HH. unfold write_body.
  rewrite bind_write, pack_Hs_screen, bind_lift_Ok, bind_write by assumption.
  rewrite (py_bytes_Ok [247; 0; 0]), bind_lift_Ok, !bind_write by bytes_ok.
  replace ((((([] ++ signature) ++
             [Z.land W 255; Z.shiftr W 8; Z.land H 255; Z.shiftr H 8]) ++
            [247; 0; 0]) ++ pal) ++ netscape_ext)
    with (header_bytes W H pal)
    by (unfold header_bytes; rewrite <- !app_assoc; reflexivity).
  unfold mbind, io_bind.
  destruct (write_frames W H d t frames (header_bytes W H pal)) as [[u|e] f];
    reflexivity.
Qed.

Lemma write_gif_body (frames : list (list (list Z)))
    (palette : list (Z * Z * Z)) (d t W H : Z) :
  dims frames = Some (W, H) -> args_ok W H palette d t ->
  write_gif frames palette d t =
    match write_frames W H d t frames
            (header_bytes W H (color_table palette)) with
    | (Ok _, f) => Outcome (Some (f ++ [0x3B])) None
    | (Raise e, f) => Outcome (Some f) (Some e)
    end.
Proof.
  intros Hdims (HW & HH & Hpal & Hd & Ht).
  destruct frames as [|[|row0 rows0] more]; try discriminate.
  cbn [dims] in Hdims. injection Hdims as <- <-.
  unfold write_gif. rewrite build_palette_Ok by assumption.
  rewrite write_body_frames by assumption.
  destruct (write_frames _ _ d t _ _) as [[u|e] f]; reflexivity.
Qed.

(** The whole file on valid arguments. *)
Lemma write_gif_Ok (frames : list (list (list Z)))
    (palette : list (Z * Z * Z)) (d t W H : Z) :
  dims frames = Some (W, H) -> args_ok W H palette d t ->
  Forall pixels_ok frames ->
  exists bss,
    Forall2 blocks_of frames bss /\
    write_gif frames palette d t =
      Outcome
        (Some (header_bytes W H (color_table palette) ++
               concat (map (frame_bytes W H d t) bss) ++ [0x3B]))
        None.
Proof.
  intros Hdims Hargs Hpix. rewrite (write_gif_body _ _ _ _ W H) by assumption.
  destruct Hargs as (HW & HH & _ & Hd & Ht).
  destruct (write_frames_Ok W H d t frames HW HH Hd Ht Hpix
              (header_bytes W H (color_table palette))) as (bss & Hbss & E).
  exists bss. split; [assumption|]. rewrite E, <- app_assoc. reflexivity.
Qed.

(** The whole file when a frame holds a value that is not a byte. *)
Lemma write_gif_bad_pixel (good : list (list (list Z))) (bad : list (list Z))
    (rest : list (list (list Z))) (palette : list (Z * Z * Z)) (d t W H : Z) :
  dims (good ++ bad :: rest) = Some (W, H) -> args_ok W H palette d t ->
  Forall pixels_ok good -> pixel_bad bad ->
  exists bss,
    Forall2 blocks_of good bss /\
    write_gif (good ++ bad :: rest) palette d t =
      Outcome
        (Some (header_bytes W H (color_table palette) ++
               concat (map (frame_bytes W H d t) bss) ++ frame_head W H d t))
        (Some ValueError).
Proof.
  intros Hdims Hargs Hgood Hbad.
  rewrite (write_gif_body _ _ _ _ W H) by assumption.
  destruct Hargs as (HW & HH & _ & Hd & Ht).
  destruct (write_frames_bad_pixel W H d t good bad rest HW HH Hd Ht Hgood Hbad
              (header_bytes W H (color_table palette))) as (bss & Hbss & E).
  exists bss. split; [assumption|]. rewrite E. reflexivity.
Qed.

(** A list of frames with a bad pixel splits at its first bad frame. *)
Lemma first_bad_frame (frames : list (list (list Z))) :
  Exists pixel_bad frames ->
  exists good bad rest,
    frames = good ++ bad :: rest /\ Forall pixels_ok good /\ pixel_bad bad.
Proof.
  assert (Hdec : forall frame, {pixels_ok frame} + {pixel_bad frame}).
  { intros frame. apply Forall_Exists_dec. intros row.
    apply Forall_Exists_dec. intros v.
    destruct (decide (0 <= v < 256)); [by left|by right]. }
  induction frames as [|frame frames IH]; intros Hex.
  - by apply Exists_nil in Hex.
  - destruct (Hdec frame) as [Hok|Hbad].
    + apply Exists_cons in Hex as [Hbad|Hex].
      * exists [], frame, frames. by repeat split.
      * destruct (IH Hex) as (good & bad & rest & -> & Hgood & Hbad).
        exists (frame :: good), bad, rest.
        split; [reflexivity|]. split; [by constructor|assumption].
    + exists [], frame, frames. by repeat split.
Qed.

Lemma grows_write (bs : list Z) : grows (f_write bs).
Proof. intros f. by exists bs. Qed.

Lemma grows_lift {A} (r : res A) : grows (lift r).
Proof. intros f. exists []. simpl. by rewrite app_nil_r. Qed.

Lemma grows_bind {A B} (m : io A) (k : A -> io B) :
  grows m -> (forall a, grows (k a)) -> grows (m ≫= k).
Proof.
  intros Hm Hk f. destruct (Hm f) as (more & E).
  unfold mbind, io_bind. destruct (m f) as [[a|e] f']; simpl in E; subst f'.
  - destruct (Hk a (f ++ more)) as (more' & E'). exists (more ++ more').
    rewrite E'. by rewrite app_assoc.
  - by exists more.
Qed.

Lemma grows_subblocks (compressed : list Z) (pos : nat) :
  grows (write_subblocks compressed pos).
Proof.
  intros f. destruct (write_subblocks_spec compressed pos f) as (blocks & E & _).
  rewrite E. by eexists.
Qed.

Lemma grows_frame (W H d t : Z) (frame : list (list Z)) :
  grows (write_frame W H d t frame).
Proof.
  unfold write_frame.
  repeat first
    [ apply grows_bind; [|intros ?]
    | apply grows_write | apply grows_lift | apply grows_subblocks ].
Qed.

Lemma grows_frames (W H d t : Z) (frames : list (list (list Z))) :
  grows (write_frames W H d t frames).
Proof.
  induction frames as [|frame frames IH]; cbn [write_frames].
  - intros f. exists []. simpl. by rewrite app_nil_r.
  - apply grows_bind; [apply grows_frame | intros _; exact IH].
Qed.

Lemma bind_write_grows {B} (bs : list Z) (k : unit -> io B) (f : list Z) :
  grows (k tt) ->
  exists more, snd ((f_write bs ≫= k) f) = f ++ bs ++ more.
Proof.
  intros Hk. rewrite bind_write. destruct (Hk (f ++ bs)) as (more & E).
  exists more. by rewrite E, app_assoc.
Qed.

Lemma write_body_signature (W H : Z) (pal : list Z) (d t : Z)
    (frames : list (list (list Z))) :
  exists more, snd (write_body W H pal d t frames []) = signature ++ more.
Proof.
  unfold write_body. apply (bind_write_grows signature _ []).
  repeat first
    [ apply grows_bind; [|intros ?]
    | apply grows_write | apply grows_lift | apply grows_frames ].
Qed.

End GifFacts.

(** ** The container writer: claims *)

Module GifClaims.
Import Lzw Gif Format Props LzwFacts GifFacts.


(** C1.  Every iteration of the frame loop of [write_gif] starts by
    appending the bytes 21 F9 04 02: the packed byte of the graphic
    control extension is 0x02.  Read as the format lays the field out,
    0x02 is disposal method 0 with the user-input flag set and the
    transparent-color flag clear, not disposal method 2 with the
    transparent-color flag set (which is 0x09).  On the one-pixel
    animation the packed byte is the byte at offset 803 of the file. *)
Theorem C1_gce_packed_byte :
  (forall W H d t frame f,
     exists more,
       snd (write_frame W H d t frame f) = f ++ [0x21; 0xF9; 0x04; 0x02] ++ more) /\
  disposal_method 0x02 = 0 /\
  user_input_flag 0x02 = 1 /\
  transparent_color_flag 0x02 = 0 /\
  disposal_method 0x09 = restore_to_background /\
  transparent_color_flag 0x09 = 1 /\
  (exists written,
     file (write_gif [[[0]]] [] 83 0) = Some written /\
     take 4 (drop 800 written) = [0x21; 0xF9; 0x04; 0x02] /\
     nth 803 written 0 = 0x02).
Proof.
  split; [|repeat split; try reflexivity].
  - intros W H d t frame f. unfold write_frame.
    apply bind_write_grows.
    repeat first
      [ apply grows_bind; [|intros ?]
      | apply grows_write | apply grows_lift | apply grows_subblocks ].
  - eexists. split; [vm_compute; reflexivity|]. split; reflexivity.
Qed.

(** C2.  Every iteration of the frame loop writes, right after
    21 F9 04 02, the 16-bit little-endian value of [duration_ms] itself:
    the delay field, which the format counts in hundredths of a second,
    holds the number of milliseconds.  With the default 83 ms the field
    holds 83 (0.83 s), not 8. *)
Theorem C2_delay_field_holds_duration_ms :
  (forall W H d t frame f,
     0 <= d < 65536 ->
     exists more,
       snd (write_frame W H d t frame f) =
         f ++ [0x21; 0xF9; 0x04; 0x02] ++ [Z.land d 255; Z.shiftr d 8] ++ more /\
       u16_le (Z.land d 255) (Z.shiftr d 8) = d) /\
  (exists written,
     file (write_gif [[[0]]] [] 83 0) = Some written /\
     u16_le (nth 804 written 0) (nth 805 written 0) = 83).
Proof.
  split.
  - intros W H d t frame f Hd. unfold write_frame.
    rewrite bind_write, pack_H_Ok, bind_lift_Ok by assumption.
    match goal with
    | |- exists more, snd ((f_write ?bs ≫= ?k) ?g) = _ /\ _ =>
        destruct (bind_write_grows bs k g) as (more & E)
    end.
    { repeat first
        [ apply grows_bind; [|intros ?]
        | apply grows_write | apply grows_lift | apply grows_subblocks ]. }
    exists more. split; [|apply u16_le_pack].
    rewrite E, <- app_assoc. reflexivity.
  - eexists. split; [vm_compute; reflexivity|]. reflexivity.
Qed.

Lemma C2_delay_field_holds_duration_ms_witness :
  exists more,
    snd (write_frame 1 1 83 0 [[0]] []) =
      [] ++ [0x21; 0xF9; 0x04; 0x02] ++ [Z.land 83 255; Z.shiftr 83 8] ++ more /\
    u16_le (Z.land 83 255) (Z.shiftr 83 8) = 83.
Proof.
  apply (proj1 C2_delay_field_holds_duration_ms 1 1 83 0 [[0]] []). lia.
Defined.

(** C5.  On valid arguments every frame's compressed payload is written
    as sub-blocks of 1 to 255 bytes, each behind its own length byte,
    followed by a single zero byte; the blocks put together are the
    payload, so a payload of more than 255 bytes takes at least two
    blocks. *)
Theorem C5_payload_in_sub_blocks (frames : list (list (list Z)))
    (palette : list (Z * Z * Z)) (d t W H : Z) :
  dims frames = Some (W, H) -> args_ok W H palette d t ->
  Forall pixels_ok frames ->
  exists bss : list (list (list Z)),
    file (write_gif frames palette d t) =
      Some (header_bytes W H (color_table palette) ++
            concat (map (fun blocks =>
                           frame_head W H d t ++
                           concat (map (fun b => Z.of_nat (length b) :: b) blocks) ++
                           [0]) bss) ++
            [0x3B]) /\
    Forall2 (fun frame blocks =>
               exists compressed,
                 lzw_encode (concat frame) 8 = Ok compressed /\
                 concat blocks = compressed /\
                 Forall (fun b => (1 <= length b <= 255)%nat) blocks /\
                 ((255 < length compressed)%nat -> (2 <= length blocks)%nat))
            frames bss.
Proof.
  intros Hdims Hargs Hpix.
  destruct (write_gif_Ok frames palette d t W H Hdims Hargs Hpix)
    as (bss & Hbss & E).
  exists bss. rewrite E. split; [reflexivity|].
  eapply Forall2_impl; [exact Hbss|].
  intros frame blocks [Hlzw Hlen]. exists (concat blocks).
  split; [assumption|]. split; [reflexivity|]. split; [assumption|].
  destruct blocks as [|b1 [|b2 blocks]]; simpl; try lia.
  inversion_clear Hlen. rewrite app_nil_r. lia.
Qed.

Lemma C5_payload_in_sub_blocks_witness :
  exists bss : list (list (list Z)),
    file (write_gif [[[1; 2]; [3; 4]]; [[5; 6]; [7; 8]]] [(9, 9, 9)] 83 0) =
      Some (header_bytes 2 2 (color_table [(9, 9, 9)]) ++
            concat (map (fun blocks =>
                           frame_head 2 2 83 0 ++
                           concat (map (fun b => Z.of_nat (length b) :: b) blocks) ++
                           [0]) bss) ++
            [0x3B]) /\
    Forall2 (fun frame blocks =>
               exists compressed,
                 lzw_encode (concat frame) 8 = Ok compressed /\
                 concat blocks = compressed /\
                 Forall (fun b => (1 <= length b <= 255)%nat) blocks /\
                 ((255 < length compressed)%nat -> (2 <= length blocks)%nat))
            [[[1; 2]; [3; 4]]; [[5; 6]; [7; 8]]] bss.
Proof.
  apply (C5_payload_in_sub_blocks
           [[[1; 2]; [3; 4]]; [[5; 6]; [7; 8]]] [(9, 9, 9)] 83 0 2 2).
  - reflexivity.
  - args_tac.
  - args_tac.
Defined.

(** C7 (as amended).  With the other arguments valid: when a frame holds
    a value outside [0, 256), [write_gif] raises ValueError, and by then
    the file holds the header, the color table, the loop extension, every
    earlier frame in full (its 20 leading bytes, the sub-blocks of 1 to
    255 bytes that make up [lzw_encode] of its pixels, each behind its
    length byte, and the terminator), and the control block, image
    descriptor and code-size byte of the offending frame.  Values inside
    [0, 256) are accepted whatever the length of the palette.  Every list
    of frames with a value outside [0, 256) is such a case, the offending
    frame being the first one that holds such a value. *)
Theorem C7_bad_pixel_raises_after_output
    (palette : list (Z * Z * Z)) (d t W H : Z) :
  args_ok W H palette d t ->
  (forall good bad rest,
     dims (good ++ bad :: rest) = Some (W, H) ->
     Forall pixels_ok good -> pixel_bad bad ->
     exists bss,
       Forall2 blocks_of good bss /\
       write_gif (good ++ bad :: rest) palette d t =
         Outcome
           (Some (header_bytes W H (color_table palette) ++
                  concat (map (frame_bytes W H d t) bss) ++
                  frame_head W H d t))
           (Some ValueError)) /\
  (forall frames,
     dims frames = Some (W, H) -> Forall pixels_ok frames ->
     raised (write_gif frames palette d t) = None) /\
  (forall frames,
     dims frames = Some (W, H) -> Exists pixel_bad frames ->
     exists good bad rest bss,
       frames = good ++ bad :: rest /\
       Forall pixels_ok good /\ pixel_bad bad /\
       Forall2 blocks_of good bss /\
       write_gif frames palette d t =
         Outcome
           (Some (header_bytes W H (color_table palette) ++
                  concat (map (frame_bytes W H d t) bss) ++
                  frame_head W H d t))
           (Some ValueError)).
Proof.
  intros Hargs. split; [|split].
  - intros good bad rest Hdims Hgood Hbad.
    destruct (write_gif_bad_pixel good bad rest palette d t W H
                Hdims Hargs Hgood Hbad) as (bss & Hbss & E).
    exists bss. split; [exact Hbss|exact E].
  - intros frames Hdims Hpix.
    destruct (write_gif_Ok frames palette d t W H Hdims Hargs Hpix)
      as (bss & _ & E).
    rewrite E. reflexivity.
  - intros frames Hdims Hex.
    destruct (first_bad_frame frames Hex)
      as (good & bad & rest & -> & Hgood & Hbad).
    destruct (write_gif_bad_pixel good bad rest palette d t W H
                Hdims Hargs Hgood Hbad) as (bss & Hbss & E).
    exists good, bad, rest, bss.
    split; [reflexivity|]. split; [assumption|]. split; [assumption|].
    split; assumption.
Qed.

Lemma C7_bad_pixel_raises_after_output_witness :
  (exists bss,
     Forall2 blocks_of [[[1; 2]]] bss /\
     write_gif ([[[1; 2]]] ++ [[300; 0]] :: []) [(9, 9, 9)] 83 0 =
       Outcome
         (Some (header_bytes 2 1 (color_table [(9, 9, 9)]) ++
                concat (map (frame_bytes 2 1 83 0) bss) ++
                frame_head 2 1 83 0))
         (Some ValueError)) /\
  raised (write_gif [[[1; 200]]] [(9, 9, 9)] 83 0) = None /\
  (exists good bad rest bss,
     [[[1; 2]]; [[0; -1]]; [[3; 4]]] = good ++ bad :: rest /\
     Forall pixels_ok good /\ pixel_bad bad /\
     Forall2 blocks_of good bss /\
     write_gif [[[1; 2]]; [[0; -1]]; [[3; 4]]] [(9, 9, 9)] 83 0 =
       Outcome
         (Some (header_bytes 2 1 (color_table [(9, 9, 9)]) ++
                concat (map (frame_bytes 2 1 83 0) bss) ++
                frame_head 2 1 83 0))
         (Some ValueError)).
Proof.
  assert (Hargs : args_ok 2 1 [(9, 9, 9)] 83 0) by args_tac.
  split; [|split].
  - apply (proj1 (C7_bad_pixel_raises_after_output [(9, 9, 9)] 83 0 2 1 Hargs)
             [[[1; 2]]] [[300; 0]] []).
    + reflexivity.
    + args_tac.
    + apply Exists_cons_hd, Exists_cons_hd. lia.
  - apply (proj1 (proj2
             (C7_bad_pixel_raises_after_output [(9, 9, 9)] 83 0 2 1 Hargs))
             [[[1; 200]]]).
    + reflexivity.
    + args_tac.
  - apply (proj2 (proj2
             (C7_bad_pixel_raises_after_output [(9, 9, 9)] 83 0 2 1 Hargs))
             [[[1; 2]]; [[0; -1]]; [[3; 4]]]).
    + reflexivity.
    + apply Exists_cons_tl, Exists_cons_hd, Exists_cons_hd, Exists_cons_tl,
        Exists_cons_hd. lia.
Defined.

(** The claim C7 as stated fails: a value outside [0, 256) makes
    [write_gif] raise only after 820 bytes have been written to the
    file, and a value inside [0, 256) that no palette entry backs (5,
    with a one-entry palette) raises nothing. *)
Lemma C7_counterexample :
  (exists written,
     write_gif [[[256]]] [(0, 0, 0)] 83 0 =
       Outcome (Some written) (Some ValueError) /\
     length written = 820%nat) /\
  raised (write_gif [[[5]]] [(0, 0, 0)] 83 0) = None.
Proof.
  split.
  - eexists. split; [vm_compute; reflexivity|]. reflexivity.
  - vm_compute. reflexivity.
Qed.

(** C8 (as amended).  When [write_gif] raises, either it raised before
    opening the file (empty first frame, or a palette component that is
    not a byte) and the file is untouched, or the file was opened and
    keeps what the body of the [with] block had written when it raised:
    at least the signature.  Nothing is removed or truncated. *)
Theorem C8_partial_output_stays (frames : list (list (list Z)))
    (palette : list (Z * Z * Z)) (d t : Z) (e : exn) :
  raised (write_gif frames palette d t) = Some e ->
  match file (write_gif frames palette d t) with
  | None =>
      (exists more, frames = [] :: more) /\ e = IndexError \/
      build_palette palette = Raise e
  | Some written =>
      exists W H pal more,
        dims frames = Some (W, H) /\
        build_palette palette = Ok pal /\
        write_body W H pal d t frames [] = (Raise e, written) /\
        written = signature ++ more
  end.
Proof.
  unfold write_gif.
  destruct frames as [|[|row0 rows0] more]; [discriminate| |].
  - cbn [raised file]. intros [= <-]. left. split; [by exists more | reflexivity].
  - destruct (build_palette palette) as [pal|e'] eqn:Epal.
    + destruct (write_body _ _ pal d t _ []) as [[u|e'] written] eqn:Ebody;
        cbn [raised file]; [discriminate|].
      intros [= <-].
      destruct (write_body_signature
                  (Z.of_nat (length row0)) (Z.of_nat (length (row0 :: rows0)))
                  pal d t ((row0 :: rows0) :: more)) as (more' & Hsig).
      rewrite Ebody in Hsig. cbn [snd] in Hsig.
      exists (Z.of_nat (length row0)), (Z.of_nat (length (row0 :: rows0))),
             pal, more'.
      repeat split; assumption.
    + cbn [raised file]. intros [= <-]. by right.
Qed.

Lemma C8_partial_output_stays_witness :
  match file (write_gif [[[0]]; [[0; 700]]] [] 83 0) with
  | None =>
      (exists more, [[[0]]; [[0; 700]]] = [] :: more) /\ ValueError = IndexError \/
      build_palette [] = Raise ValueError
  | Some written =>
      exists W H pal more,
        dims [[[0]]; [[0; 700]]] = Some (W, H) /\
        build_palette [] = Ok pal /\
        write_body W H pal 83 0 [[[0]]; [[0; 700]]] [] = (Raise ValueError, written) /\
        written = signature ++ more
  end.
Proof.
  apply (C8_partial_output_stays [[[0]]; [[0; 700]]] [] 83 0 ValueError).
  vm_compute. reflexivity.
Defined.

(** The claim C8 as stated fails: with a duration that does not fit 16
    bits, [struct.pack] raises inside the first frame and the file is
    left with 804 bytes: header, color table, loop extension and the
    first four bytes of a control block. *)
Lemma C8_counterexample :
  write_gif [[[0]]] [] 70000 0 =
    Outcome
      (Some (header_bytes 1 1 (replicate 768 0) ++ [0x21; 0xF9; 0x04; 0x02]))
      (Some StructError).
Proof. vm_compute. reflexivity. Qed.

(** C9.  [write_gif] looks at the first 256 palette entries only: the
    outcome (file and exception alike) is the one for the 256-entry
    prefix, so a longer palette is cut without an error.  When these
    entries are made of bytes the color table is their 3-byte triples
    followed by zeros up to 768 bytes, and on valid arguments it is what
    the file holds after the 13 bytes of signature and screen
    descriptor. *)
Theorem C9_palette_cut_to_256_and_padded (frames : list (list (list Z)))
    (palette : list (Z * Z * Z)) (d t : Z) :
  write_gif frames palette d t = write_gif frames (take 256 palette) d t /\
  (Forall rgb_ok (take 256 palette) ->
   build_palette palette =
     Ok (concat (map rgb_bytes (take 256 palette)) ++
         replicate (768 - 3 * length (take 256 palette)) 0) /\
   length (concat (map rgb_bytes (take 256 palette)) ++
           replicate (768 - 3 * length (take 256 palette)) 0) = 768%nat) /\
  (forall W H,
     dims frames = Some (W, H) -> args_ok W H palette d t ->
     Forall pixels_ok frames ->
     exists lsd more,
       length lsd = 7%nat /\
       file (write_gif frames palette d t) =
         Some (signature ++ lsd ++
               (concat (map rgb_bytes (take 256 palette)) ++
                replicate (768 - 3 * length (take 256 palette)) 0) ++
               more)).
Proof.
  split; [|split].
  - unfold write_gif, build_palette. rewrite take_take, Nat.min_id.
    reflexivity.
  - intros Hok. split; [by apply build_palette_Ok|].
    apply color_table_length.
  - intros W H Hdims Hargs Hpix.
    destruct (write_gif_Ok frames palette d t W H Hdims Hargs Hpix)
      as (bss & _ & E).
    rewrite E. cbn [file]. unfold header_bytes, color_table.
    exists ([Z.land W 255; Z.shiftr W 8; Z.land H 255; Z.shiftr H 8] ++
            [0xF7; 0; 0]).
    eexists. split; [reflexivity|].
    rewrite <- !app_assoc. reflexivity.
Qed.

Lemma C9_palette_cut_to_256_and_padded_witness :
  build_palette [(1, 2, 3); (4, 5, 6)] =
    Ok (concat (map rgb_bytes (take 256 [(1, 2, 3); (4, 5, 6)])) ++
        replicate (768 - 3 * length (take 256 [(1, 2, 3); (4, 5, 6)])) 0) /\
  length (concat (map rgb_bytes (take 256 [(1, 2, 3); (4, 5, 6)])) ++
          replicate (768 - 3 * length (take 256 [(1, 2, 3); (4, 5, 6)])) 0)
    = 768%nat.
Proof.
  apply (proj1 (proj2 (C9_palette_cut_to_256_and_padded
                         [[[0]]] [(1, 2, 3); (4, 5, 6)] 83 0))).
  args_tac.
Defined.

(** C10.  For a non-empty list of frames whose first frame has a first
    row, [write_gif] takes the height from the number of rows of the
    first frame and the width from the length of its first row, and
    writes them in the screen descriptor and in the image descriptor of
    every frame.  The other frames are not compared with these
    dimensions: nothing is required of their shape, and for each frame
    the payload is the encoding of all its rows put end to end. *)
Theorem C10_dimensions_from_first_frame
    (row0 : list Z) (rows0 : list (list Z)) (more : list (list (list Z)))
    (palette : list (Z * Z * Z)) (d t : Z) :
  let frames := (row0 :: rows0) :: more in
  let W := Z.of_nat (length row0) in
  let H := Z.of_nat (length (row0 :: rows0)) in
  args_ok W H palette d t ->
  Forall pixels_ok frames ->
  exists (wlo whi hlo hhi : Z) (bss : list (list (list Z))),
    u16_le wlo whi = W /\ u16_le hlo hhi = H /\
    Forall2 (fun frame blocks => lzw_encode (concat frame) 8 = Ok (concat blocks))
            frames bss /\
    write_gif frames palette d t =
      Outcome
        (Some (signature ++ [wlo; whi; hlo; hhi] ++ [0xF7; 0; 0] ++
               color_table palette ++ netscape_ext ++
               concat (map (fun blocks =>
                              gce_bytes d t ++
                              [0x2C; 0; 0; 0; 0; wlo; whi; hlo; hhi; 0; 0] ++
                              [8] ++
                              concat (map sub_block blocks) ++ [0]) bss) ++
               [0x3B]))
        None.
Proof.
  intros frames W H Hargs Hpix.
  destruct (write_gif_Ok frames palette d t W H eq_refl Hargs Hpix)
    as (bss & Hbss & E).
  exists (Z.land W 255), (Z.shiftr W 8), (Z.land H 255), (Z.shiftr H 8), bss.
  split; [apply u16_le_pack|]. split; [apply u16_le_pack|].
  split.
  - eapply Forall2_impl; [exact Hbss|]. by intros frame blocks [Hlzw _].
  - rewrite E. do 2 f_equal.
    rewrite (map_ext (frame_bytes W H d t)
               (fun blocks =>
                  gce_bytes d t ++
                  [0x2C; 0; 0; 0; 0; Z.land W 255; Z.shiftr W 8;
                   Z.land H 255; Z.shiftr H 8; 0; 0] ++
                  [8] ++ concat (map sub_block blocks) ++ [0])).
    + unfold header_bytes. rewrite <- !app_assoc. reflexivity.
    + intros blocks. unfold frame_bytes, frame_head, descriptor_bytes.
      rewrite <- !app_assoc. reflexivity.
Qed.

Lemma C10_dimensions_from_first_frame_witness :
  exists (wlo whi hlo hhi : Z) (bss : list (list (list Z))),
    u16_le wlo whi = Z.of_nat (length [1; 2; 3]) /\
    u16_le hlo hhi = Z.of_nat (length ([1; 2; 3] :: [[4; 5; 6]])) /\
    Forall2 (fun frame blocks => lzw_encode (concat frame) 8 = Ok (concat blocks))
            (([1; 2; 3] :: [[4; 5; 6]]) :: [[[7]]; [[8; 9]; [10]; []]]) bss /\
    write_gif (([1; 2; 3] :: [[4; 5; 6]]) :: [[[7]]; [[8; 9]; [10]; []]])
              [(9, 9, 9)] 83 0 =
      Outcome
        (Some (signature ++ [wlo; whi; hlo; hhi] ++ [0xF7; 0; 0] ++
               color_table [(9, 9, 9)] ++ netscape_ext ++
               concat (map (fun blocks =>
                              gce_bytes 83 0 ++
                              [0x2C; 0; 0; 0; 0; wlo; whi; hlo; hhi; 0; 0] ++
                              [8] ++
                              concat (map sub_block blocks) ++ [0]) bss) ++
               [0x3B]))
        None.
Proof.
  apply (C10_dimensions_from_first_frame
           [1; 2; 3] [[4; 5; 6]] [[[7]]; [[8; 9]; [10]; []]] [(9, 9, 9)] 83 0).
  - args_tac.
  - args_tac.
Defined.

End GifClaims.


(** ** The code stream: what a reader can rely on *)

Module LzwMore.
Import Lzw Format Props Decode StreamProps BitFacts LzwFacts SinkFacts.

Lemma pow2_succ (w : Z) : 0 <= w -> 2 ^ (w + 1) = 2 * 2 ^ w.
Proof. intros Hw. rewrite Z.pow_add_r by lia. lia. Qed.

Lemma pow2_le (a b : Z) : 0 <= a <= b -> 2 ^ a <= 2 ^ b.
Proof. intros H. apply Z.pow_le_mono_r; lia. Qed.

Section Steps.
Context {S : Type}.
Variable wcode : Z -> Z -> S -> S.

(** One iteration either extends the prefix or writes the code of the
    prefix, assigns the next code while there is room, and restarts the
    prefix at the byte. *)
Lemma step_inversion (m : Z) (st st' : enc S) (byte : Z) :
  wf m st -> step wcode st byte = Ok st' ->
  0 <= byte < 256 /\
  ((is_Some (table st !! (prefix st ++ [byte])) /\
    st' = Enc (table st) (prefix st ++ [byte]) (next_code st)
              (code_size st) (sink st)) \/
   (exists c,
      table st !! (prefix st ++ [byte]) = None /\
      prefix st <> [] /\ table st !! prefix st = Some c /\
      ((next_code st <= 4095 /\
        st' = Enc (<[ prefix st ++ [byte] := next_code st ]> (table st))
                  [byte] (next_code st + 1)
                  (if Z.shiftl 1 (code_size st) <? next_code st + 1
                   then Z.min 12 (code_size st + 1) else code_size st)
                  (wcode (code_size st) c (sink st))) \/
       (4095 < next_code st /\
        st' = Enc (table st) [byte] (next_code st) (code_size st)
                  (wcode (code_size st) c (sink st)))))).
Proof.
  intros Hwf E.
  destruct (step_inv wcode m st st' byte Hwf E) as (Hb & _ & _).
  split; [assumption|].
  unfold step in E.
  rewrite (py_bytes_Ok [byte]) in E by (constructor; [assumption|constructor]).
  rewrite bind_Ok in E.
  destruct (table st !! (prefix st ++ [byte])) as [c'|] eqn:Enew.
  { left. split; [by eexists | congruence]. }
  right.
  assert (Hne : prefix st <> []).
  { intros E0. rewrite E0 in Enew. change ([] ++ [byte]) with [byte] in Enew.
    rewrite (wf_seed _ _ Hwf) in Enew by assumption. discriminate. }
  destruct (table st !! prefix st) as [c|] eqn:Ec; [|discriminate].
  exists c. repeat split; try assumption.
  unfold max_code in E.
  destruct (Z.leb_spec (next_code st) 4095) as [Hroom|Hfull];
    [left | right]; (split; [assumption | congruence]).
Qed.
End Steps.

(** *** The log of codes *)

Lemma start_log_ok (m : Z) (st : enc (list (Z * Z))) :
  8 <= m <= 11 -> start log_code [] m = Ok st -> log_ok m st.
Proof.
  intros Hm E.
  pose proof (start_wf log_code [] m st ltac:(lia) E) as Hwf.
  rewrite start_Ok in E by lia. injection E as <-.
  assert (H2 : 2 ^ 8 <= 2 ^ m) by (apply pow2_le; lia).
  change (2 ^ 8) with 256 in H2.
  pose proof (pow2_succ m ltac:(lia)) as Hs.
  constructor; enc_simpl; unfold log_code; cbn [app].
  - assumption.
  - lia.
  - constructor; [|constructor]. unfold fits. cbn [fst snd]. lia.
  - exists []. split; [reflexivity | constructor].
Qed.

Lemma step_log_ok (m : Z) (st st' : enc (list (Z * Z))) (byte : Z) :
  8 <= m <= 11 -> log_ok m st -> step log_code st byte = Ok st' ->
  log_ok m st' /\
  (length (sink st') + length (take 1 (prefix st'))
   <= S (length (sink st) + length (take 1 (prefix st))))%nat.
Proof.
  intros Hm [Hwf Hnext Hfit (body & Hsink & Hbody)] E.
  destruct (step_inv log_code m st st' byte Hwf E) as (_ & Hwf' & _).
  destruct (step_inversion log_code m st st' byte Hwf E)
    as (Hb & [[_ ->] | (c & Hnew & Hne & Hc & Hcase)]).
  { split.
    - constructor; enc_simpl; try assumption. by exists body.
    - enc_simpl. destruct (prefix st); simpl; lia. }
  assert (H2 : 2 ^ 8 <= 2 ^ m) by (apply pow2_le; lia).
  change (2 ^ 8) with 256 in H2.
  assert (Hcs : m + 1 <= code_size st <= 12).
  { pose proof (wf_width_lo _ _ Hwf). pose proof (wf_width_hi _ _ Hwf). lia. }
  assert (Hpow : 2 ^ (m + 1) <= 2 ^ code_size st) by (apply pow2_le; lia).
  pose proof (pow2_succ m ltac:(lia)) as Hs.
  assert (Hcfit : fits m (c, code_size st) /\ data_code m (c, code_size st)).
  { unfold fits, data_code. cbn [fst snd].
    destruct (wf_codes _ _ Hwf _ _ Hc) as [[_ Hv]|Hv]; lia. }
  destruct Hcfit as [Hcfit Hcdata].
  assert (Hfit' : Forall (fits m) (log_code (code_size st) c (sink st))).
  { unfold log_code. apply Forall_app_2; [assumption|]. by constructor. }
  assert (Hshape' : exists body',
             log_code (code_size st) c (sink st) = (2 ^ m, m + 1) :: body' /\
             Forall (data_code m) body').
  { exists (body ++ [(c, code_size st)]). unfold log_code. rewrite Hsink.
    split; [reflexivity|]. apply Forall_app_2; [assumption|]. by constructor. }
  assert (Hlen : (length (log_code (code_size st) c (sink st))
                    + length (take 1 [byte])
                  <= S (length (sink st) + length (take 1 (prefix st))))%nat).
  { unfold log_code. rewrite length_app.
    destruct (prefix st); [congruence | simpl; lia]. }
  destruct Hcase as [[Hroom ->] | [Hfull ->]]; (split; [|enc_simpl; exact Hlen]).
  - constructor; enc_simpl; try assumption.
    rewrite Z.shiftl_1_l.
    destruct (Z.ltb_spec (2 ^ code_size st) (next_code st + 1)) as [Hgrow|?];
      [|lia].
    assert (code_size st < 12).
    { destruct (Z_lt_le_dec (code_size st) 12) as [?|Hge]; [assumption|].
      assert (2 ^ 12 <= 2 ^ code_size st) by (apply pow2_le; lia).
      change (2 ^ 12) with 4096 in *. lia. }
    rewrite Z.min_r by lia. rewrite pow2_succ by lia. lia.
  - constructor; enc_simpl; assumption.
Qed.

Lemma feed_log_ok (m : Z) (data : list Z) :
  forall st st',
    8 <= m <= 11 -> log_ok m st -> feed log_code st data = Ok st' ->
    log_ok m st' /\
    (length (sink st') + length (take 1 (prefix st'))
     <= length (sink st) + length (take 1 (prefix st)) + length data)%nat.
Proof.
  induction data as [|b data IH]; intros st st' Hm Hok E.
  - simpl in E. injection E as <-. split; [assumption | lia].
  - simpl in E. apply bind_Ok_inv in E as (st1 & E1 & E2).
    destruct (step_log_ok m st st1 b Hm Hok E1) as [Hok1 Hlen1].
    destruct (IH st1 st' Hm Hok1 E2) as [Hok2 Hlen2].
    split; [assumption | simpl; lia].
Qed.

(** The whole log of a call. *)
Lemma lzw_codes_log (data : list Z) (m : Z) :
  8 <= m <= 11 -> Forall (fun v => 0 <= v < 256) data ->
  exists (st : enc (list (Z * Z))) (pending : list (Z * Z)),
    log_ok m st /\
    (start log_code [] m ≫= fun st0 => feed log_code st0 data) = Ok st /\
    (length (sink st) + length (take 1 (prefix st)) <= 1 + length data)%nat /\
    match prefix st with
    | [] => data = [] /\ pending = []
    | _ :: _ =>
        data <> [] /\
        exists c, table st !! prefix st = Some c /\ pending = [(c, code_size st)]
    end /\
    lzw_codes data m = Ok (sink st ++ pending ++ [(2 ^ m + 1, code_size st)]).
Proof.
  intros Hm Hdata. assert (Hm0 : 0 <= m) by lia.
  pose proof (start_Ok log_code [] m Hm0) as E0.
  pose proof (start_log_ok m _ Hm E0) as Hok0.
  destruct (feed_Ok log_code m data _ (lo_wf _ _ Hok0) Hdata)
    as (st & Efeed & Hwf & _ & Hpre).
  destruct (feed_log_ok m data _ st Hm Hok0 Efeed) as [Hok Hlen].
  destruct (finish_Ok log_code m st Hwf) as (pend & Efin & Hpend).
  exists st, (match pend with Some c => [(c, code_size st)] | None => [] end).
  split; [assumption|]. rewrite E0, bind_Ok. split; [assumption|].
  split; [unfold log_code in Hlen; cbn [sink prefix app length take] in Hlen; lia|].
  split.
  - destruct pend as [c|].
    + destruct Hpend as [Hne Hc]. destruct (prefix st) as [|x xs] eqn:E;
        [contradiction|].
      split; [|by exists c].
      intros ->. simpl in Efeed. injection Efeed as <-. discriminate.
    + rewrite Hpend. split; [|reflexivity].
      destruct data as [|b data']; [reflexivity|]. exfalso. by apply Hpre.
  - unfold lzw_codes, encode. rewrite E0, bind_Ok, Efeed, bind_Ok, Efin.
    f_equal. unfold log_code. destruct pend; [|reflexivity].
    rewrite <- app_assoc. reflexivity.
Qed.

(** X1.  With [8 <= min_bits <= 11] and an input made of bytes, the codes
    that [lzw_encode] writes are: [clear_code] at width [min_bits + 1],
    then at most one code per input byte (at least one when there is
    input), none of them [clear_code] or [end_code], then [end_code].
    A reader meets the clear code first and nowhere else, and the end
    code last and nowhere else. *)
Theorem X1_code_stream_shape (data : list Z) (min_bits : Z) :
  8 <= min_bits <= 11 ->
  Forall (fun v => 0 <= v < 256) data ->
  exists (body : list (Z * Z)) (w : Z),
    lzw_codes data min_bits =
      Ok ((2 ^ min_bits, min_bits + 1) :: body ++ [(2 ^ min_bits + 1, w)]) /\
    Forall (fun cw => fst cw <> 2 ^ min_bits /\ fst cw <> 2 ^ min_bits + 1) body /\
    (length body <= length data)%nat /\
    (data <> [] -> body <> []).
Proof.
  intros Hm Hdata.
  destruct (lzw_codes_log data min_bits Hm Hdata)
    as (st & pending & Hok & _ & Hlen & Hpend & Ecodes).
  destruct (lo_shape _ _ Hok) as (body & Hsink & Hbody).
  exists (body ++ pending), (code_size st).
  rewrite Ecodes, Hsink. rewrite Hsink in Hlen. cbn [length] in Hlen.
  split; [by rewrite <- !app_assoc|].
  assert (H2 : 2 ^ 8 <= 2 ^ min_bits) by (apply pow2_le; lia).
  change (2 ^ 8) with 256 in H2.
  destruct (prefix st) as [|x xs] eqn:Epre.
  - destruct Hpend as [-> ->]. rewrite app_nil_r.
    split; [assumption|]. split; [simpl in *; lia | congruence].
  - destruct Hpend as (Hne & c & Hc & ->).
    split; [|split].
    + apply Forall_app_2; [assumption|]. constructor; [|constructor].
      cbn [fst]. rewrite <- Epre in Hc.
      destruct (wf_codes _ _ (lo_wf _ _ Hok) _ _ Hc) as [[_ Hv]|Hv]; lia.
    + rewrite length_app. simpl in *. lia.
    + intros _. by destruct body.
Qed.

(** *** Reading the bits back *)

Lemma bits_lsb_succ (w : nat) (c : Z) :
  bits_lsb (S w) c = Z.b2z (Z.testbit c 0) :: bits_lsb w (Z.div2 c).
Proof.
  unfold bits_lsb. cbn [seq map]. f_equal.
  rewrite <- seq_shift, map_map. apply map_ext. intros i.
  rewrite Z.div2_spec, Z.shiftr_spec by lia. do 2 f_equal. lia.
Qed.

Lemma length_bits_lsb (w : nat) (c : Z) : length (bits_lsb w c) = w.
Proof. unfold bits_lsb. by rewrite length_map, length_seq. Qed.

Lemma bits_value_lsb (w : nat) :
  forall c, 0 <= c -> bits_value (bits_lsb w c) = c mod 2 ^ Z.of_nat w.
Proof.
  induction w as [|w IH]; intros c Hc.
  - simpl. by rewrite Z.mod_1_r.
  - rewrite bits_lsb_succ. cbn [bits_value].
    rewrite IH by (rewrite Z.div2_div; apply Z.div_pos; lia).
    rewrite Z.bit0_mod, Z.div2_div, Nat2Z.inj_succ, Z.pow_succ_r by lia.
    rewrite Z.rem_mul_r by lia. reflexivity.
Qed.

Lemma read_code_lsb (w : nat) (c : Z) (rest : list Z) :
  0 <= c < 2 ^ Z.of_nat w ->
  read_code w (bits_lsb w c ++ rest) = Some (c, rest).
Proof.
  intros Hc. unfold read_code.
  destruct (Nat.ltb_spec (length (bits_lsb w c ++ rest)) w) as [Hlt|_].
  { rewrite length_app, length_bits_lsb in Hlt. lia. }
  rewrite take_app_length', drop_app_length' by (by rewrite length_bits_lsb).
  rewrite bits_value_lsb by lia. rewrite Z.mod_small by lia. reflexivity.
Qed.

Lemma read_codes_stream (m : Z) (codes : list (Z * Z)) (rest : list Z) :
  Forall (fits m) codes -> 0 <= m ->
  read_codes (map snd codes) (stream_bits codes ++ rest) =
    Some (map fst codes, rest).
Proof.
  intros Hfit Hm. induction Hfit as [|[c w] codes [Hc Hw] _ IH];
    [reflexivity|].
  cbn [fst snd] in Hc, Hw.
  change (stream_bits ((c, w) :: codes))
    with (bits_lsb (Z.to_nat w) c ++ stream_bits codes).
  cbn [map snd fst read_codes]. rewrite <- app_assoc.
  rewrite read_code_lsb by (rewrite Z2Nat.id; lia).
  rewrite IH. reflexivity.
Qed.

Lemma length_unpack (bs : list Z) : length (unpack bs) = (8 * length bs)%nat.
Proof.
  induction bs as [|b bs IH]; [reflexivity|].
  change (unpack (b :: bs)) with (bits_of_byte b ++ unpack bs).
  rewrite length_app, IH. simpl. lia.
Qed.

Lemma length_stream_bits (m : Z) (codes : list (Z * Z)) :
  Forall (fits m) codes -> 0 <= m ->
  (9 * length codes <= length (stream_bits codes) <= 12 * length codes)%nat
  \/ m < 8.
Proof.
  intros Hfit Hm. destruct (Z_lt_le_dec m 8) as [?|Hm8]; [by right | left].
  induction Hfit as [|[c w] codes [_ Hw] _ IH]; [simpl; lia|].
  cbn [snd] in Hw.
  change (stream_bits ((c, w) :: codes))
    with (bits_lsb (Z.to_nat w) c ++ stream_bits codes).
  rewrite length_app, length_bits_lsb. simpl. lia.
Qed.

(** The bytes returned are the packing of the logged codes. *)
Lemma lzw_encode_unpack (data : list Z) (m : Z) (codes : list (Z * Z)) :
  lzw_codes data m = Ok codes ->
  exists (out : list Z) (pad : nat),
    lzw_encode data m = Ok out /\
    unpack out = stream_bits codes ++ repeat 0 pad /\
    (pad < 8)%nat /\
    Forall (fun v => 0 <= v < 256) out.
Proof.
  intros Ecodes. pose proof (encode_packed data m) as Hs.
  rewrite Ecodes in Hs. unfold lzw_encode.
  destruct (encode write_code _ m data) as [buf|]; [|contradiction].
  destruct (pad_flush_unpack buf _ Hs) as (pad & Hpad & Hun & _ & Hby).
  exists (result (pad_flush buf)), pad. rewrite bind_Ok.
  split; [by apply py_bytes_Ok|]. by repeat split.
Qed.

(** Every code of the final log fits its width. *)
Lemma final_log_fits (m : Z) (st : enc (list (Z * Z)))
    (pending : list (Z * Z)) :
  8 <= m <= 11 -> log_ok m st ->
  match prefix st with
  | [] => pending = []
  | _ :: _ =>
      exists c, table st !! prefix st = Some c /\ pending = [(c, code_size st)]
  end ->
  Forall (fits m) (sink st ++ pending ++ [(2 ^ m + 1, code_size st)]).
Proof.
  intros Hm Hok Hpend.
  assert (Hcs : m + 1 <= code_size st <= 12).
  { pose proof (wf_width_lo _ _ (lo_wf _ _ Hok)).
    pose proof (wf_width_hi _ _ (lo_wf _ _ Hok)). lia. }
  assert (Hpow : 2 ^ (m + 1) <= 2 ^ code_size st) by (apply pow2_le; lia).
  pose proof (pow2_succ m ltac:(lia)) as Hs.
  assert (H2 : 2 ^ 8 <= 2 ^ m) by (apply pow2_le; lia).
  change (2 ^ 8) with 256 in H2.
  apply Forall_app_2; [exact (lo_fit _ _ Hok)|].
  apply Forall_app_2.
  - destruct (prefix st) as [|x xs] eqn:Epre.
    + subst pending. constructor.
    + destruct Hpend as (c & Hc & ->). constructor; [|constructor].
      unfold fits. cbn [fst snd]. rewrite <- Epre in Hc.
      pose proof (lo_next _ _ Hok).
      destruct (wf_codes _ _ (lo_wf _ _ Hok) _ _ Hc) as [[_ Hv]|Hv]; lia.
  - constructor; [|constructor]. unfold fits. cbn [fst snd]. lia.
Qed.

(** X2.  With [8 <= min_bits <= 11] and an input made of bytes, every
    code written is non-negative and smaller than 2 to the power of the
    width it is written at, so no bit of a code is lost.  Reading the
    output bytes least significant bit first, width after width, gives
    the codes back and leaves fewer than eight zero bits. *)
Theorem X2_codes_fit_their_widths (data : list Z) (min_bits : Z) :
  8 <= min_bits <= 11 ->
  Forall (fun v => 0 <= v < 256) data ->
  exists (codes : list (Z * Z)) (out : list Z) (pad : nat),
    lzw_codes data min_bits = Ok codes /\
    lzw_encode data min_bits = Ok out /\
    Forall (fun cw => 0 <= fst cw < 2 ^ snd cw /\
                      min_bits + 1 <= snd cw <= 12) codes /\
    read_codes (map snd codes) (unpack out) =
      Some (map fst codes, repeat 0 pad) /\
    (pad < 8)%nat.
Proof.
  intros Hm Hdata.
  destruct (lzw_codes_log data min_bits Hm Hdata)
    as (st & pending & Hok & _ & _ & Hpend & Ecodes).
  destruct (lzw_encode_unpack data min_bits _ Ecodes)
    as (out & pad & Eout & Hun & Hpad & _).
  assert (Hfit : Forall (fits min_bits)
                   (sink st ++ pending ++ [(2 ^ min_bits + 1, code_size st)])).
  { apply final_log_fits; [assumption | assumption |].
    destruct (prefix st); [by destruct Hpend | by destruct Hpend as (_ & H)]. }
  eexists _, out, pad. split; [exact Ecodes|]. split; [exact Eout|].
  split; [exact Hfit|]. split; [|exact Hpad].
  rewrite Hun. apply (read_codes_stream min_bits); [exact Hfit | lia].
Qed.

Lemma X2_codes_fit_their_widths_witness :
  exists (codes : list (Z * Z)) (out : list Z) (pad : nat),
    lzw_codes [1; 1; 1; 2] 8 = Ok codes /\
    lzw_encode [1; 1; 1; 2] 8 = Ok out /\
    Forall (fun cw => 0 <= fst cw < 2 ^ snd cw /\ 8 + 1 <= snd cw <= 12) codes /\
    read_codes (map snd codes) (unpack out) =
      Some (map fst codes, repeat 0 pad) /\
    (pad < 8)%nat.
Proof.
  apply (X2_codes_fit_their_widths [1; 1; 1; 2] 8); [lia|bytes_ok].
Defined.

Lemma X1_code_stream_shape_witness :
  exists (body : list (Z * Z)) (w : Z),
    lzw_codes [1; 1; 1; 2] 8 =
      Ok ((2 ^ 8, 8 + 1) :: body ++ [(2 ^ 8 + 1, w)]) /\
    Forall (fun cw => fst cw <> 2 ^ 8 /\ fst cw <> 2 ^ 8 + 1) body /\
    (length body <= length [1; 1; 1; 2])%nat /\
    ([1; 1; 1; 2] <> [] -> body <> []).
Proof.
  apply (X1_code_stream_shape [1; 1; 1; 2] 8); [lia|bytes_ok].
Defined.

(** X3.  With [min_bits = 8] and [n] input bytes, [lzw_encode] returns
    at least 3 bytes and at most the bytes that [n + 2] codes of 12 bits
    take: the output is never more than one and a half times the input
    plus four bytes. *)
Theorem X3_output_length_bounds (data : list Z) :
  Forall (fun v => 0 <= v < 256) data ->
  exists out,
    lzw_encode data 8 = Ok out /\
    (3 <= length out)%nat /\
    (8 * length out <= 12 * (length data + 2) + 7)%nat.
Proof.
  intros Hdata.
  destruct (lzw_codes_log data 8 ltac:(lia) Hdata)
    as (st & pending & Hok & _ & Hlen & Hpend & Ecodes).
  assert (Hfit : Forall (fits 8) (sink st ++ pending ++ [(2 ^ 8 + 1, code_size st)])).
  { apply final_log_fits; [lia | assumption |].
    destruct (prefix st); [by destruct Hpend | by destruct Hpend as (_ & H)]. }
  destruct (lzw_encode_unpack data 8 _ Ecodes)
    as (out & pad & Eout & Hun & Hpad & _).
  exists out. split; [assumption|].
  apply (f_equal (@length Z)) in Hun.
  rewrite length_unpack, length_app, repeat_length in Hun.
  destruct (length_stream_bits 8 _ Hfit ltac:(lia)) as [Hbits|?]; [|lia].
  rewrite !length_app in Hbits. cbn [length] in Hbits.
  destruct (lo_shape _ _ Hok) as (body & Hsink & _).
  rewrite Hsink in *. cbn [length] in *.
  assert (length pending <= length (take 1 (prefix st)))%nat.
  { destruct (prefix st); [destruct Hpend as [_ ->]; simpl; lia|].
    destruct Hpend as (_ & c & _ & ->). simpl. lia. }
  lia.
Qed.

Lemma X3_output_length_bounds_witness :
  exists out,
    lzw_encode [1; 1; 1; 2] 8 = Ok out /\
    (3 <= length out)%nat /\
    (8 * length out <= 12 * (length [1; 1; 1; 2] + 2) + 7)%nat.
Proof. apply (X3_output_length_bounds [1; 1; 1; 2]). bytes_ok. Defined.

(** *** The width schedule for [min_bits = 8] *)

Lemma width_for_bump (n : Z) :
  258 <= n <= 4095 ->
  (if Z.shiftl 1 (width_for n) <? n + 1
   then Z.min 12 (width_for n + 1) else width_for n) = width_for (n + 1).
Proof.
  intros Hn. unfold width_for.
  destruct (Z.leb_spec n 512), (Z.leb_spec n 1024), (Z.leb_spec n 2048),
    (Z.leb_spec (n + 1) 512), (Z.leb_spec (n + 1) 1024),
    (Z.leb_spec (n + 1) 2048); try lia;
  match goal with
  | |- context [Z.shiftl 1 ?w <? _] =>
      let v := eval cbv in (Z.shiftl 1 w) in change (Z.shiftl 1 w) with v
  end;
  match goal with
  | |- context [?a <? ?b] => destruct (Z.ltb_spec a b)
  end; lia.
Qed.

Lemma start_sched_ok (st : enc (list (Z * Z))) :
  start log_code [] 8 = Ok st -> sched_ok st.
Proof.
  rewrite start_Ok by lia. intros [= <-].
  constructor; enc_simpl; unfold log_code; cbn [app length].
  - reflexivity.
  - reflexivity.
  - intros [|i] cw; [|discriminate]. by intros [= <-].
Qed.

Lemma log_code_sched (st : enc (list (Z * Z))) (c : Z) :
  sched_ok st -> 258 <= next_code st ->
  forall (i : nat) cw,
    log_code (code_size st) c (sink st) !! i = Some cw ->
    snd cw = width_for (257 + Z.of_nat i).
Proof.
  intros [Hn Hw Hlog] Hlo i cw. unfold log_code.
  destruct (decide (i < length (sink st))%nat) as [Hi|Hi].
  - rewrite lookup_app_l by assumption. apply Hlog.
  - rewrite lookup_app_r by lia.
    destruct (i - length (sink st))%nat as [|k] eqn:Ek; [|discriminate].
    intros [= <-]. cbn [snd]. rewrite Hw, Hn.
    assert (i = length (sink st)) as -> by lia.
    unfold width_for.
    destruct (Z.min_spec (257 + Z.of_nat (length (sink st))) 4096)
      as [[_ ->]|[? ->]]; [reflexivity|].
    repeat match goal with
           | |- context [?a <=? ?b] => destruct (Z.leb_spec a b); try lia
           end.
Qed.

Lemma step_sched_ok (st st' : enc (list (Z * Z))) (byte : Z) :
  log_ok 8 st -> sched_ok st -> step log_code st byte = Ok st' ->
  sched_ok st'.
Proof.
  intros Hok Hs E. pose proof (lo_wf _ _ Hok) as Hwf.
  pose proof (wf_next_lo _ _ Hwf) as Hlo. change (2 ^ 8) with 256 in Hlo.
  destruct (step_inversion log_code 8 st st' byte Hwf E)
    as (Hb & [[_ ->] | (c & Hnew & Hne & Hc & Hcase)]).
  { destruct Hs as [Hn Hw Hlog]. by constructor. }
  pose proof (log_code_sched st c Hs ltac:(lia)) as Hlog'.
  destruct Hs as [Hn Hw Hlog].
  destruct Hcase as [[Hroom ->] | [Hfull ->]]; constructor; enc_simpl;
    try exact Hlog'.
  - unfold log_code. rewrite length_app. cbn [length]. lia.
  - rewrite Hw. apply width_for_bump. lia.
  - unfold log_code. rewrite length_app. cbn [length]. lia.
  - assumption.
Qed.

Lemma feed_sched_ok (data : list Z) :
  forall st st',
    log_ok 8 st -> sched_ok st -> feed log_code st data = Ok st' ->
    sched_ok st'.
Proof.
  induction data as [|b data IH]; intros st st' Hok Hs E.
  - simpl in E. by injection E as <-.
  - simpl in E. apply bind_Ok_inv in E as (st1 & E1 & E2).
    destruct (step_log_ok 8 st st1 b ltac:(lia) Hok E1) as [Hok1 _].
    exact (IH st1 st' Hok1 (step_sched_ok st st1 b Hok Hs E1) E2).
Qed.

(** X4.  With [min_bits = 8] and an input made of bytes, the width of a
    code depends on its position only (the clear code is at position 0):
    9 bits up to position 255, 10 bits up to position 767, 11 bits up to
    position 1791, 12 bits after.  The end code is the exception: no code
    is assigned between the last data code and it, so it is written with
    the width of the position before its own. *)
Theorem X4_width_by_position (data : list Z) :
  Forall (fun v => 0 <= v < 256) data ->
  exists codes : list (Z * Z),
    lzw_codes data 8 = Ok codes /\
    forall (i : nat) (c w : Z),
      codes !! i = Some (c, w) ->
      ((S i < length codes)%nat -> w = width_for (257 + Z.of_nat i)) /\
      (S i = length codes -> w = width_for (256 + Z.of_nat i)).
Proof.
  intros Hdata.
  destruct (lzw_codes_log data 8 ltac:(lia) Hdata)
    as (st & pending & Hok & Erun & _ & Hpend & Ecodes).
  rewrite start_Ok, bind_Ok in Erun by lia.
  pose proof (start_log_ok 8 _ ltac:(lia) (start_Ok log_code [] 8 ltac:(lia)))
    as Hok0.
  pose proof (feed_sched_ok data _ st Hok0
                (start_sched_ok _ (start_Ok log_code [] 8 ltac:(lia))) Erun)
    as Hs.
  pose proof (wf_next_lo _ _ (lo_wf _ _ Hok)) as Hlo.
  change (2 ^ 8) with 256 in Hlo.
  eexists. split; [exact Ecodes|].
  assert (Hlast : code_size st = width_for (257 + Z.of_nat (length (sink st)))).
  { pose proof (log_code_sched st 0 Hs ltac:(lia) (length (sink st))
                  (0, code_size st)) as H.
    cbn [snd] in H. apply H. unfold log_code.
    rewrite lookup_app_r, Nat.sub_diag by lia. reflexivity. }
  intros i c w Hi.
  destruct (decide (i < length (sink st))%nat) as [Hlt|Hge].
  { rewrite lookup_app_l in Hi by assumption.
    pose proof (so_log _ Hs i (c, w) Hi) as Hw. cbn [snd] in Hw.
    split; [by intros _|].
    rewrite !length_app. cbn [length]. lia. }
  rewrite lookup_app_r in Hi by lia.
  destruct (prefix st) as [|x xs].
  - (* no input: the log is the clear code alone *)
    destruct Hpend as [-> ->]. simpl in Erun. injection Erun as <-.
    revert Hi Hge. enc_simpl. unfold log_code. cbn [app length].
    intros Hi Hge.
    destruct (i - 1)%nat as [|k] eqn:Ek; [|discriminate].
    injection Hi as <- <-. split; [lia|]. intros _.
    assert (i = 1%nat) as -> by lia. reflexivity.
  - destruct Hpend as (_ & c0 & _ & ->).
    destruct (i - length (sink st))%nat as [|[|k]] eqn:Ek; try discriminate.
    + injection Hi as <- <-. rewrite !length_app. cbn [length].
      split; [|lia]. intros _.
      assert (i = length (sink st)) as -> by lia. exact Hlast.
    + injection Hi as <- <-. rewrite !length_app. cbn [length].
      split; [lia|]. intros _.
      assert (i = S (length (sink st))) as -> by lia.
      rewrite Hlast. f_equal. lia.
Qed.

Lemma X4_width_by_position_witness :
  exists codes : list (Z * Z),
    lzw_codes [1; 1; 1; 2] 8 = Ok codes /\
    forall (i : nat) (c w : Z),
      codes !! i = Some (c, w) ->
      ((S i < length codes)%nat -> w = width_for (257 + Z.of_nat i)) /\
      (S i = length codes -> w = width_for (256 + Z.of_nat i)).
Proof. apply (X4_width_by_position [1; 1; 1; 2]). bytes_ok. Defined.

End LzwMore.

(** ** Decoding the code stream *)

Module LzwRoundTrip.
Import Lzw Format Props Decode StreamProps BitFacts LzwFacts SinkFacts LzwMore.

Lemma dec_init_table_spec (v : Z) (k : list Z) :
  dec_init_table !! v = Some k <-> k = [v] /\ 0 <= v < 256.
Proof.
  split.
  - intros Hvk.
    assert (H : forallb (fun vk => match snd vk with
                                   | [x] => (x =? fst vk) && is_byte x
                                   | _ => false
                                   end) (map_to_list dec_init_table) = true).
    { vm_compute. reflexivity. }
    rewrite forallb_forall in H.
    apply elem_of_map_to_list, list_elem_of_In, H in Hvk. simpl in Hvk.
    destruct k as [|x [|? ?]]; try discriminate.
    apply andb_true_iff in Hvk as [E Hx].
    apply Z.eqb_eq in E. apply is_byte_spec in Hx. subst x. by split.
  - intros [-> Hv].
    assert (H : forallb (fun j => match dec_init_table !! j with
                                  | Some [x] => x =? j
                                  | _ => false
                                  end) (seqZ 0 256) = true).
    { vm_compute. reflexivity. }
    rewrite forallb_forall in H. specialize (H v).
    assert (Hin : In v (seqZ 0 256)) by (apply list_elem_of_In, elem_of_seqZ; lia).
    specialize (H Hin).
    destruct (dec_init_table !! v) as [[|x [|? ?]]|]; try discriminate.
    apply Z.eqb_eq in H. by subst x.
Qed.

Lemma dec_run_app (codes1 codes2 : list Z) :
  forall D,
    dec_run D (codes1 ++ codes2) =
      match dec_run D codes1 with
      | None => None
      | Some D' => dec_run D' codes2
      end.
Proof.
  induction codes1 as [|c codes1 IH]; intros D; [reflexivity|].
  simpl. destruct (dec_step D c); [apply IH | reflexivity].
Qed.

Lemma start_sync (st : enc (list (Z * Z))) :
  start log_code [] 8 = Ok st -> dec_sync st [] dec_start.
Proof.
  rewrite start_Ok by lia. intros [= <-].
  constructor; enc_simpl; cbn [dec_start dout dtable dnext dprev].
  - reflexivity.
  - intros v k Hvk. apply dec_init_table_spec in Hvk as [-> Hv].
    split; [by apply init_table_seed | lia].
  - intros v k Hkv _. apply init_table_only_seed in Hkv as [-> Hv].
    by apply dec_init_table_spec.
  - intros k1 k2 v H1 H2.
    apply init_table_only_seed in H1 as [-> _].
    apply init_table_only_seed in H2 as [-> _]. reflexivity.
  - split; reflexivity.
Qed.

(** The decoder reads the code of the encoder's prefix. *)
Lemma dec_step_sync (st : enc (list (Z * Z))) (consumed : list Z) (D : dec)
    (c : Z) :
  wf 8 st -> dec_sync st consumed D ->
  prefix st <> [] -> table st !! prefix st = Some c ->
  exists D',
    dec_step D c = Some D' /\
    dout D' = dout D ++ prefix st /\
    dprev D' = Some (prefix st) /\
    match dprev D with
    | None => dtable D' = dtable D /\ dnext D' = dnext D
    | Some s =>
        if dnext D <=? 4095 then
          dtable D' = <[ dnext D := s ++ take 1 (prefix st) ]> (dtable D) /\
          dnext D' = dnext D + 1
        else dtable D' = dtable D /\ dnext D' = dnext D
    end.
Proof.
  intros Hwf [Hout Hde Hed Hinj Hcase] Hne Hc.
  assert (Hentry : dec_entry D c = Some (prefix st)).
  { unfold dec_entry.
    destruct (Z_lt_le_dec c (dnext D)) as [Hlt|Hge].
    { by rewrite (Hed _ _ Hc Hlt). }
    destruct (dtable D !! c) as [k|] eqn:Ek.
    { apply Hde in Ek as [_ ?]. lia. }
    destruct (wf_codes _ _ Hwf _ _ Hc) as [[_ Hv]|Hv].
    { exfalso. destruct (dprev D) as [s|].
      - destruct Hcase as (_ & _ & [[Hdn Hpend]|[Hdn Hn]]).
        + pose proof (wf_next_lo _ _ Hwf). change (2 ^ 8) with 256 in *. lia.
        + lia.
      - destruct Hcase. lia. }
    change (2 ^ 8) with 256 in Hv.
    destruct (dprev D) as [s|]; [|destruct Hcase; lia].
    destruct Hcase as (Hs & _ & [[Hdn Hpend]|[Hdn Hn]]); [|lia].
    assert (c = dnext D) as -> by lia.
    pose proof (Hinj _ _ _ Hc Hpend) as Hp.
    destruct s as [|p0 ps]; [contradiction|].
    rewrite Z.eqb_refl. f_equal.
    (* the prefix is the previous string and its own first byte, which
       is the first byte of the previous string *)
    rewrite Hp at 1. rewrite Hp. reflexivity. }
  unfold dec_step. rewrite Hentry.
  destruct (prefix st) as [|x xs] eqn:Epre; [contradiction|].
  destruct (dprev D) as [s|].
  - destruct (dnext D <=? 4095); eexists; (split; [reflexivity|]);
      repeat split; reflexivity.
  - eexists. split; [reflexivity|]. repeat split; reflexivity.
Qed.

Lemma tl_log_code (st : enc (list (Z * Z))) (c : Z) :
  log_ok 8 st ->
  map fst (tl (log_code (code_size st) c (sink st))) =
    map fst (tl (sink st)) ++ [c].
Proof.
  intros Hok. destruct (lo_shape _ _ Hok) as (body & -> & _).
  unfold log_code. cbn [app tl]. by rewrite map_app.
Qed.

(** With 8 bits every code in the table is below the next one. *)
Lemma table_below_next (st : enc (list (Z * Z))) (k : list Z) (v : Z) :
  wf 8 st -> table st !! k = Some v -> 0 <= v < next_code st.
Proof.
  intros Hwf H. pose proof (wf_next_lo _ _ Hwf) as Hlo.
  change (2 ^ 8) with 256 in *.
  destruct (wf_codes _ _ Hwf _ _ H) as [[_ ?]|?]; lia.
Qed.

(** Assigning the next code keeps the table one-to-one. *)
Lemma insert_next_inj (st : enc (list (Z * Z))) (k : list Z) :
  wf 8 st ->
  (forall k1 k2 v,
     table st !! k1 = Some v -> table st !! k2 = Some v -> k1 = k2) ->
  forall k1 k2 v,
    <[ k := next_code st ]> (table st) !! k1 = Some v ->
    <[ k := next_code st ]> (table st) !! k2 = Some v -> k1 = k2.
Proof.
  intros Hwf Hinj k1 k2 v.
  rewrite !lookup_insert. repeat case_decide; subst.
  - reflexivity.
  - intros [= <-] Hx. apply (table_below_next _ _ _ Hwf) in Hx. lia.
  - intros Hx [= <-]. apply (table_below_next _ _ _ Hwf) in Hx. lia.
  - apply Hinj.
Qed.

Lemma step_sync (st st' : enc (list (Z * Z))) (byte : Z)
    (consumed : list Z) (D : dec) :
  log_ok 8 st -> dec_sync st consumed D ->
  dec_run dec_start (map fst (tl (sink st))) = Some D ->
  step log_code st byte = Ok st' ->
  exists D',
    dec_run dec_start (map fst (tl (sink st'))) = Some D' /\
    dec_sync st' (consumed ++ [byte]) D'.
Proof.
  intros Hok Hsync Hrun E. pose proof (lo_wf _ _ Hok) as Hwf.
  destruct (step_inversion log_code 8 st st' byte Hwf E)
    as (Hb & [[Hin ->] | (c & Hnew & Hne & Hc & Hcase)]).
  { (* the prefix grows, nothing is written *)
    exists D. split; [exact Hrun|].
    destruct Hsync as [Hout Hde Hed Hinj Hcs].
    constructor; enc_simpl; try assumption.
    - by rewrite app_assoc, Hout.
    - destruct (dprev D) as [s|]; [|assumption].
      destruct Hcs as (Hs & Hp & Hpend). split; [assumption|].
      split; [by destruct (prefix st)|].
      destruct (prefix st) as [|x xs]; [contradiction|]. exact Hpend. }
  destruct (dec_step_sync st consumed D c Hwf Hsync Hne Hc)
    as (D' & Estep & Hout' & Hprev' & Htab').
  exists D'. split.
  { assert (Esink : sink st' = log_code (code_size st) c (sink st))
      by (destruct Hcase as [[_ ->]|[_ ->]]; reflexivity).
    rewrite Esink, tl_log_code, dec_run_app, Hrun by assumption.
    simpl. by rewrite Estep. }
  destruct Hsync as [Hout Hde Hed Hinj Hcs].
  pose proof (wf_next_hi _ _ Hwf) as Hhi. change (2 ^ 8) with 256 in Hhi.
  rewrite Z.max_l in Hhi by lia.
  assert (Hbelow : forall k v, table st !! k = Some v -> 0 <= v < next_code st)
    by (intros k v; apply table_below_next; assumption).
  destruct Hcase as [[Hroom ->] | [Hfull ->]].
  - (* the encoder assigns [next_code] to the prefix and the byte *)
    destruct (dprev D) as [s|] eqn:Eprev.
    + destruct Hcs as (Hs & _ & [[Hdn Hpend]|[Hdn Hn]]); [|lia].
      destruct (Z.leb_spec (dnext D) 4095) as [_|?]; [|lia].
      destruct Htab' as [Etab Enext].
      constructor; enc_simpl; rewrite ?Etab, ?Enext, ?Hprev', ?Hout'.
      * by rewrite <- Hout.
      * intros v k. rewrite lookup_insert. case_decide as Hv.
        -- intros [= <-]. subst v. split; [|lia].
           rewrite lookup_insert_ne; [assumption|]. congruence.
        -- intros Hvk. destruct (Hde _ _ Hvk) as [Hkv Hlt]. split; [|lia].
           rewrite lookup_insert_ne; [assumption|]. congruence.
      * intros v k. rewrite lookup_insert. case_decide as Hk.
        -- intros [= <-]. lia.
        -- intros Hkv Hlt. rewrite lookup_insert. case_decide as Hv.
           ++ subst v. f_equal. exact (Hinj _ _ _ Hpend Hkv).
           ++ apply Hed; [assumption | lia].
      * by apply insert_next_inj.
      * split; [assumption|]. split; [discriminate|]. left.
        split; [lia|]. cbn [take]. rewrite lookup_insert_eq. f_equal. lia.
    + destruct Hcs as [Hdn Hn]. destruct Htab' as [Etab Enext].
      constructor; enc_simpl; rewrite ?Etab, ?Enext, ?Hprev', ?Hout'.
      * by rewrite <- Hout.
      * intros v k Hvk. destruct (Hde _ _ Hvk) as [Hkv Hlt]. split; [|lia].
        rewrite lookup_insert_ne; [assumption|]. congruence.
      * intros v k. rewrite lookup_insert. case_decide as Hk.
        -- intros [= <-]. lia.
        -- intros Hkv Hlt. by apply Hed.
      * by apply insert_next_inj.
      * split; [assumption|]. split; [discriminate|]. left.
        split; [lia|]. cbn [take]. rewrite lookup_insert_eq. f_equal. lia.
  - (* the table is full on the encoder's side *)
    destruct (dprev D) as [s|] eqn:Eprev; [|destruct Hcs; lia].
    destruct Hcs as (Hs & _ & [[Hdn Hpend]|[Hdn Hn]]).
    + destruct (Z.leb_spec (dnext D) 4095) as [_|?]; [|lia].
      destruct Htab' as [Etab Enext].
      constructor; enc_simpl; rewrite ?Etab, ?Enext, ?Hprev', ?Hout'.
      * by rewrite <- Hout.
      * intros v k. rewrite lookup_insert. case_decide as Hv.
        -- intros [= <-]. subst v. split; [assumption | lia].
        -- intros Hvk. destruct (Hde _ _ Hvk) as [Hkv Hlt].
           split; [assumption | lia].
      * intros v k Hkv Hlt. rewrite lookup_insert. case_decide as Hv.
        -- subst v. f_equal. exact (Hinj _ _ _ Hpend Hkv).
        -- apply Hed; [assumption|]. apply Hbelow in Hkv. lia.
      * assumption.
      * split; [assumption|]. split; [discriminate|]. right. lia.
    + destruct (Z.leb_spec (dnext D) 4095) as [?|_]; [lia|].
      destruct Htab' as [Etab Enext].
      constructor; enc_simpl; rewrite ?Etab, ?Enext, ?Hprev', ?Hout';
        try assumption.
      * by rewrite <- Hout.
      * split; [assumption|]. split; [discriminate|]. right. lia.
Qed.

Lemma feed_sync (data : list Z) :
  forall (st st' : enc (list (Z * Z))) (consumed : list Z) (D : dec),
    log_ok 8 st -> dec_sync st consumed D ->
    dec_run dec_start (map fst (tl (sink st))) = Some D ->
    feed log_code st data = Ok st' ->
    exists D',
      dec_run dec_start (map fst (tl (sink st'))) = Some D' /\
      dec_sync st' (consumed ++ data) D'.
Proof.
  induction data as [|b data IH]; intros st st' consumed D Hok Hsync Hrun E.
  - simpl in E. injection E as <-. exists D. by rewrite app_nil_r.
  - simpl in E. apply bind_Ok_inv in E as (st1 & E1 & E2).
    destruct (step_log_ok 8 st st1 b ltac:(lia) Hok E1) as [Hok1 _].
    destruct (step_sync st st1 b consumed D Hok Hsync Hrun E1)
      as (D1 & Hrun1 & Hsync1).
    destruct (IH st1 st' _ D1 Hok1 Hsync1 Hrun1 E2) as (D' & Hrun' & Hsync').
    exists D'. split; [assumption|].
    rewrite <- app_assoc in Hsync'. exact Hsync'.
Qed.

(** X5.  Round trip for [min_bits = 8]: for every input made of bytes,
    the codes that [lzw_encode] writes between the clear code and the end
    code decode back to the input, with the decoder that rebuilds the
    table one entry behind the encoder and stops growing it at 4096
    codes.  The encoder never clears its table, and the stream stays
    decodable after the table is full. *)
Theorem X5_codes_decode_to_input (data : list Z) :
  Forall (fun v => 0 <= v < 256) data ->
  exists (body : list (Z * Z)) (w : Z),
    lzw_codes data 8 = Ok ((256, 9) :: body ++ [(257, w)]) /\
    lzw_decode (map fst body) = Some data.
Proof.
  intros Hdata.
  destruct (lzw_codes_log data 8 ltac:(lia) Hdata)
    as (st & pending & Hok & Erun & _ & Hpend & Ecodes).
  pose proof (start_Ok log_code [] 8 ltac:(lia)) as E0.
  rewrite E0, bind_Ok in Erun.
  pose proof (start_log_ok 8 _ ltac:(lia) E0) as Hok0.
  destruct (feed_sync data _ st [] dec_start Hok0 (start_sync _ E0)
              eq_refl Erun) as (D & Hrun & Hsync).
  cbn [app] in Hsync.
  destruct (lo_shape _ _ Hok) as (body0 & Hsink & _).
  change (2 ^ 8) with 256 in *. change (8 + 1) with 9 in *.
  rewrite Hsink in Hrun, Ecodes. cbn [tl] in Hrun.
  exists (body0 ++ pending), (code_size st).
  split; [by rewrite Ecodes, <- !app_assoc|].
  unfold lzw_decode. rewrite map_app, dec_run_app, Hrun.
  destruct (prefix st) as [|x xs] eqn:Epre.
  - destruct Hpend as [_ ->]. simpl. f_equal.
    pose proof (ds_out _ _ _ Hsync) as Hout. rewrite Epre, app_nil_r in Hout.
    exact Hout.
  - destruct Hpend as (_ & c & Hc & ->). rewrite <- Epre in Hc.
    destruct (dec_step_sync st data D c (lo_wf _ _ Hok) Hsync
                ltac:(rewrite Epre; discriminate) Hc)
      as (D' & Estep & Hout' & _).
    simpl. rewrite Estep. f_equal. rewrite Hout'.
    exact (ds_out _ _ _ Hsync).
Qed.

Lemma X5_codes_decode_to_input_witness :
  exists (body : list (Z * Z)) (w : Z),
    lzw_codes [7; 7; 7; 7; 7; 7] 8 = Ok ((256, 9) :: body ++ [(257, w)]) /\
    lzw_decode (map fst body) = Some [7; 7; 7; 7; 7; 7].
Proof. apply (X5_codes_decode_to_input [7; 7; 7; 7; 7; 7]). bytes_ok. Defined.

Example lzw_decode_kwkwk : lzw_decode [7; 258; 259] = Some [7; 7; 7; 7; 7; 7].
Proof. vm_compute. reflexivity. Qed.

End LzwRoundTrip.

(** ** Sub-blocks: sizes and reading back *)

Module BlockFacts.
Import Lzw Gif Format Props Decode LzwFacts SinkFacts GifFacts.

(** The loop cuts blocks of 255 bytes as long as it can: block [i] has
    [min 255 (rest - 255 i)] bytes, where [rest] is what is left of the
    payload from [pos] on. *)
Lemma write_subblocks_greedy (compressed : list Z) (pos : nat) (f : list Z) :
  exists blocks,
    write_subblocks compressed pos f =
      (Ok tt, f ++ concat (map sub_block blocks)) /\
    concat blocks = drop pos compressed /\
    (forall (i : nat) b,
       blocks !! i = Some b ->
       (0 < length b)%nat /\
       length b = Nat.min 255 (length compressed - pos - 255 * i)) /\
    length blocks = ((length compressed - pos + 254) / 255)%nat.
Proof.
  funelim (write_subblocks compressed pos f).
  - exists []. simpl. rewrite app_nil_r, drop_ge by lia.
    split; [reflexivity|]. split; [reflexivity|]. split; [by intros i b|].
    replace (length compressed - pos + 254)%nat with 254%nat by lia.
    reflexivity.
  - match goal with
    | IH : exists _, _ |- _ => destruct IH as (blocks & E & Hcat & Hsz & Hn)
    end.
    apply py_bytes_inv in Heq as [-> _].
    set (n := Nat.min 255 (length compressed - pos)) in *.
    exists (take n (drop pos compressed) :: blocks).
    assert (Hl0 : length (take n (drop pos compressed)) = n).
    { rewrite length_take, length_drop. subst n. lia. }
    split; [|split; [|split]].
    + rewrite E. f_equal. simpl. unfold sub_block at 1. rewrite Hl0.
      rewrite <- !app_assoc. reflexivity.
    + simpl. rewrite Hcat, <- drop_drop. apply take_drop.
    + intros [|i] b Hb.
      * injection Hb as <-. rewrite Hl0. subst n. lia.
      * apply Hsz in Hb as [Hpos Hb]. split; [assumption|].
        rewrite Hb. subst n. lia.
    + cbn [length]. rewrite Hn. subst n.
      destruct (Nat.min_spec 255 (length compressed - pos)) as [[? ->]|[? ->]].
      * replace (length compressed - pos + 254)%nat
          with (1 * 255 + (length compressed - (pos + 255) + 254))%nat by lia.
        rewrite Nat.div_add_l by lia. lia.
      * replace (length compressed - (pos + (length compressed - pos)) + 254)%nat
          with 254%nat by lia.
        change (254 / 255)%nat with 0%nat.
        apply Nat.div_unique with (r := (length compressed - pos - 1)%nat);
          lia.
  - exfalso. rewrite py_bytes_Ok in Heq; [discriminate|].
    constructor; [lia | constructor].
Qed.

(** Reading sub-blocks back gives their contents put together. *)
Lemma read_subblocks_blocks (blocks : list (list Z)) (rest : list Z) :
  Forall (fun b => (1 <= length b <= 255)%nat) blocks ->
  forall fuel,
    (length blocks < fuel)%nat ->
    read_subblocks fuel (concat (map sub_block blocks) ++ 0 :: rest) =
      Some (concat blocks, rest).
Proof.
  induction 1 as [|b blocks Hb _ IH]; intros fuel Hfuel.
  - destruct fuel as [|fuel]; [simpl in Hfuel; lia|]. reflexivity.
  - destruct fuel as [|fuel]; [simpl in Hfuel; lia|].
    cbn [map concat]. unfold sub_block at 1. cbn [app read_subblocks].
    destruct (Z.eqb_spec (Z.of_nat (length b)) 0) as [?|_]; [lia|].
    rewrite Nat2Z.id, <- app_assoc.
    destruct (Nat.ltb_spec (length (b ++ concat (map sub_block blocks) ++ 0 :: rest))
                (length b)) as [Hlt|_].
    { rewrite length_app in Hlt. lia. }
    rewrite take_app_length, drop_app_length.
    rewrite IH by (simpl in Hfuel; lia). reflexivity.
Qed.

(** A frame on valid arguments, with the payload named. *)
Lemma write_frame_payload (W H d t : Z) (frame : list (list Z))
    (compressed : list Z) (f : list Z) :
  0 <= W < 65536 -> 0 <= H < 65536 -> 0 <= d < 65536 -> 0 <= t < 256 ->
  lzw_encode (concat frame) 8 = Ok compressed ->
  write_frame W H d t frame f =
    match write_subblocks compressed 0 (f ++ frame_head W H d t) with
    | (Ok _, f') => (Ok tt, f' ++ [0])
    | (Raise e, f') => (Raise e, f')
    end.
Proof.
  intros HW HH Hd Ht Elzw. unfold write_frame.
  rewrite bind_write, pack_H_Ok, bind_lift_Ok, bind_write by assumption.
  rewrite (py_bytes_Ok [t; 0]), bind_lift_Ok, bind_write by bytes_ok.
  rewrite bind_write, pack_Hs_descriptor, bind_lift_Ok, bind_write
    by assumption.
  rewrite (py_bytes_Ok [8]), bind_lift_Ok, bind_write by bytes_ok.
  rewrite Elzw, bind_lift_Ok.
  replace ((((((f ++ [33; 249; 4; 2]) ++ [Z.land d 255; Z.shiftr d 8]) ++
              [t; 0]) ++ [44]) ++
            [0; 0; 0; 0; Z.land W 255; Z.shiftr W 8;
             Z.land H 255; Z.shiftr H 8; 0; 0]) ++ [8])
    with (f ++ frame_head W H d t)
    by (unfold frame_head, gce_bytes, descriptor_bytes;
        rewrite <- !app_assoc; reflexivity).
  unfold mbind, io_bind.
  destruct (write_subblocks compressed 0 (f ++ frame_head W H d t))
    as [[u|e] f']; reflexivity.
Qed.

Lemma length_frame_head (W H d t : Z) : length (frame_head W H d t) = 20%nat.
Proof. reflexivity. Qed.

(** X6.  On valid arguments the payload of a frame is cut greedily:
    sub-block [i] holds [min 255 (n - 255 i)] bytes of the [n] payload
    bytes, so every sub-block but the last is full, no sub-block is
    empty, and there are [ceil (n / 255)] of them. *)
Theorem X6_sub_blocks_are_greedy (W H d t : Z) (frame : list (list Z))
    (f : list Z) :
  0 <= W < 65536 -> 0 <= H < 65536 -> 0 <= d < 65536 -> 0 <= t < 256 ->
  pixels_ok frame ->
  exists (compressed : list Z) (blocks : list (list Z)),
    lzw_encode (concat frame) 8 = Ok compressed /\
    write_frame W H d t frame f =
      (Ok tt,
       f ++ frame_head W H d t ++
       concat (map (fun b => Z.of_nat (length b) :: b) blocks) ++ [0]) /\
    concat blocks = compressed /\
    (forall (i : nat) b,
       blocks !! i = Some b ->
       (0 < length b)%nat /\
       length b = Nat.min 255 (length compressed - 255 * i)) /\
    length blocks = ((length compressed + 254) / 255)%nat.
Proof.
  intros HW HH Hd Ht Hpix.
  destruct (lzw_encode_total (concat frame) 8) as (compressed & Elzw & _);
    [lia | by apply concat_pixels_ok |].
  destruct (write_subblocks_greedy compressed 0 (f ++ frame_head W H d t))
    as (blocks & E & Hcat & Hsz & Hn).
  rewrite drop_0 in Hcat. rewrite Nat.sub_0_r in Hn.
  exists compressed, blocks. split; [assumption|].
  rewrite (write_frame_payload W H d t frame compressed f) by assumption.
  rewrite E. split; [by rewrite <- !app_assoc|]. split; [assumption|].
  split; [|assumption].
  intros i b Hb. destruct (Hsz i b Hb) as [Hpos Hlen].
  rewrite Nat.sub_0_r in Hlen. by split.
Qed.

Lemma X6_sub_blocks_are_greedy_witness :
  exists (compressed : list Z) (blocks : list (list Z)),
    lzw_encode (concat [[1; 2]; [3; 4]]) 8 = Ok compressed /\
    write_frame 2 2 83 0 [[1; 2]; [3; 4]] [] =
      (Ok tt,
       [] ++ frame_head 2 2 83 0 ++
       concat (map (fun b => Z.of_nat (length b) :: b) blocks) ++ [0]) /\
    concat blocks = compressed /\
    (forall (i : nat) b,
       blocks !! i = Some b ->
       (0 < length b)%nat /\
       length b = Nat.min 255 (length compressed - 255 * i)) /\
    length blocks = ((length compressed + 254) / 255)%nat.
Proof.
  apply (X6_sub_blocks_are_greedy 2 2 83 0 [[1; 2]; [3; 4]] []);
    try lia. args_tac.
Defined.

(** X7.  On valid arguments the image data that a frame leaves in the
    file reads back: after the 20 bytes that precede it, reading
    length-prefixed sub-blocks up to the zero-length one returns exactly
    the bytes of [lzw_encode] on the flattened frame, and stops at the
    byte after the terminator. *)
Theorem X7_sub_blocks_read_back (W H d t : Z) (frame : list (list Z))
    (f : list Z) :
  0 <= W < 65536 -> 0 <= H < 65536 -> 0 <= d < 65536 -> 0 <= t < 256 ->
  pixels_ok frame ->
  exists compressed : list Z,
    lzw_encode (concat frame) 8 = Ok compressed /\
    forall rest,
      read_subblocks (S (length compressed))
        (drop (length f + 20) (snd (write_frame W H d t frame f)) ++ rest) =
        Some (compressed, rest).
Proof.
  intros HW HH Hd Ht Hpix.
  destruct (lzw_encode_total (concat frame) 8) as (compressed & Elzw & _);
    [lia | by apply concat_pixels_ok |].
  destruct (write_subblocks_greedy compressed 0 (f ++ frame_head W H d t))
    as (blocks & E & Hcat & Hsz & Hn).
  rewrite drop_0 in Hcat. rewrite Nat.sub_0_r in Hn.
  exists compressed. split; [assumption|]. intros rest.
  rewrite (write_frame_payload W H d t frame compressed f) by assumption.
  rewrite E. cbn [snd].
  rewrite <- (length_frame_head W H d t), <- length_app.
  rewrite <- !app_assoc, (app_assoc f), drop_app_length.
  rewrite <- app_assoc. cbn [app].
  assert (Hall : Forall (fun b => (1 <= length b <= 255)%nat) blocks).
  { apply Forall_forall. intros b Hb.
    apply list_elem_of_lookup in Hb as [i Hi].
    destruct (Hsz i b Hi) as [Hpos Hlen]. lia. }
  rewrite <- Hcat. apply read_subblocks_blocks; [assumption|].
  assert (Hle : (length blocks <= length (concat blocks))%nat).
  { clear -Hall. induction Hall as [|b bs Hb _ IH]; [simpl; lia|].
    cbn [concat length]. rewrite length_app. lia. }
  lia.
Qed.

Lemma X7_sub_blocks_read_back_witness :
  exists compressed : list Z,
    lzw_encode (concat [[1; 2]; [3; 4]]) 8 = Ok compressed /\
    forall rest,
      read_subblocks (S (length compressed))
        (drop (length [9; 9] + 20)
              (snd (write_frame 2 2 83 0 [[1; 2]; [3; 4]] [9; 9])) ++ rest) =
        Some (compressed, rest).
Proof.
  apply (X7_sub_blocks_read_back 2 2 83 0 [[1; 2]; [3; 4]] [9; 9]);
    try lia. args_tac.
Defined.

(** X8.  Arguments that do not fit their field, for a non-empty list of
    frames whose first frame has a first row and a palette made of
    bytes.  A width or height of 65536 or more raises struct.error when
    only the 6-byte signature is in the file.  A duration outside 16
    unsigned bits raises struct.error inside the first frame, when the
    file holds the 800 header bytes and 21 F9 04 02.  A transparent index
    that is not a byte raises ValueError two bytes later, after the
    delay field.  In the last two cases the pixels have not been looked
    at yet. *)
Theorem X8_argument_errors (frames : list (list (list Z)))
    (palette : list (Z * Z * Z)) (d t W H : Z) :
  dims frames = Some (W, H) ->
  Forall rgb_ok (take 256 palette) ->
  (~ (W < 65536 /\ H < 65536) ->
   write_gif frames palette d t =
     Outcome (Some signature) (Some StructError)) /\
  (W < 65536 -> H < 65536 -> ~ 0 <= d < 65536 ->
   write_gif frames palette d t =
     Outcome (Some (header_bytes W H (color_table palette) ++
                    [0x21; 0xF9; 0x04; 0x02]))
             (Some StructError)) /\
  (W < 65536 -> H < 65536 -> 0 <= d < 65536 -> ~ 0 <= t < 256 ->
   write_gif frames palette d t =
     Outcome (Some (header_bytes W H (color_table palette) ++
                    [0x21; 0xF9; 0x04; 0x02; Z.land d 255; Z.shiftr d 8]))
             (Some ValueError)).
Proof.
  intros Hdims Hpal.
  destruct frames as [|[|row0 rows0] more]; try discriminate.
  assert (HW : Z.of_nat (length row0) = W)
    by (unfold dims in Hdims; congruence).
  assert (HH : Z.of_nat (length (row0 :: rows0)) = H)
    by (unfold dims in Hdims; congruence).
  assert (HW0 : 0 <= W) by lia. assert (HH0 : 0 <= H) by lia.
  unfold write_gif. rewrite build_palette_Ok by assumption.
  rewrite HW, HH. clear HW HH.
  split; [|split].
  - intros Hbig. unfold write_body. rewrite bind_write. cbn [app pack_Hs].
    destruct (Z_lt_le_dec W 65536) as [HWl|HWl].
    + rewrite (pack_H_Ok W), bind_Ok by lia.
      rewrite (pack_H_Raise H), !bind_Raise by lia.
      rewrite bind_lift_Raise. reflexivity.
    + rewrite (pack_H_Raise W), !bind_Raise by lia.
      rewrite bind_lift_Raise. reflexivity.
  - intros HWl HHl Hd. rewrite write_body_frames by lia.
    cbn [write_frames]. unfold write_frame at 1.
    unfold mbind at 1, io_bind at 1.
    rewrite bind_write, pack_H_Raise, bind_lift_Raise by assumption.
    reflexivity.
  - intros HWl HHl Hd Ht. rewrite write_body_frames by lia.
    cbn [write_frames]. unfold write_frame at 1.
    unfold mbind at 1, io_bind at 1.
    rewrite bind_write, pack_H_Ok, bind_lift_Ok, bind_write by assumption.
    rewrite (py_bytes_Raise [t; 0]), bind_lift_Raise
      by (apply Exists_cons_hd; assumption).
    rewrite <- app_assoc. reflexivity.
Qed.

Lemma X8_argument_errors_witness :
  write_gif [[replicate (Z.to_nat 65536) 0]] [] 83 0 =
    Outcome (Some signature) (Some StructError) /\
  write_gif [[[0; 1]]] [] (-1) 0 =
    Outcome (Some (header_bytes 2 1 (color_table []) ++
                   [0x21; 0xF9; 0x04; 0x02]))
            (Some StructError) /\
  write_gif [[[0; 1]]] [] 83 256 =
    Outcome (Some (header_bytes 2 1 (color_table []) ++
                   [0x21; 0xF9; 0x04; 0x02; Z.land 83 255; Z.shiftr 83 8]))
            (Some ValueError).
Proof.
  split; [|split].
  - apply (proj1 (X8_argument_errors [[replicate (Z.to_nat 65536) 0]] [] 83 0 65536 1
                    ltac:(vm_compute; reflexivity) ltac:(constructor))).
    lia.
  - apply (proj1 (proj2 (X8_argument_errors [[[0; 1]]] [] (-1) 0 2 1
                           eq_refl ltac:(constructor)))); lia.
  - apply (proj2 (proj2 (X8_argument_errors [[[0; 1]]] [] 83 256 2 1
                           eq_refl ltac:(constructor)))); lia.
Defined.

End BlockFacts.

(** ** Pixels: one write, and loops of writes *)

Module CanvasFacts.
Import Canvas CanvasProps.

Lemma in_range_spec (lo v hi : Z) : in_range lo v hi = true <-> lo <= v < hi.
Proof. unfold in_range. rewrite andb_true_iff. lia. Qed.

Lemma py_pos_in (n : nat) (i : Z) :
  0 <= i < Z.of_nat n -> py_pos n i = Ok (Z.to_nat i).
Proof.
  intros Hi. unfold py_pos.
  destruct (Z.leb_spec 0 i), (Z.ltb_spec i (Z.of_nat n)); try lia.
  reflexivity.
Qed.

Lemma py_pos_empty (i : Z) : py_pos 0 i = Raise IndexError.
Proof.
  unfold py_pos. change (Z.of_nat 0) with 0. change (- 0) with 0.
  destruct (Z.leb_spec 0 i), (Z.ltb_spec i 0); try lia; reflexivity.
Qed.

Lemma row_at_insert (st : store) (a a' : nat) (r : list Z) :
  (a < length st)%nat ->
  row_at (<[ a := r ]> st) a' = if decide (a' = a) then r else row_at st a'.
Proof.
  intros Ha. unfold row_at. case_decide as E.
  - subst a'. by rewrite list_lookup_insert_eq.
  - by rewrite list_lookup_insert_ne.
Qed.

Lemma canvas_ok_lookup (st : store) (cv : canvas) (H W y : nat) :
  canvas_ok st cv H W -> (y < H)%nat ->
  exists a, cv !! y = Some a /\ a ∈ cv /\
            (a < length st)%nat /\ length (row_at st a) = W.
Proof.
  intros [Hrows Hnd Hrow] Hy.
  destruct (lookup_lt_is_Some_2 cv y) as [a Ha]; [lia|].
  exists a. assert (Hin : a ∈ cv) by (apply list_elem_of_lookup; eauto).
  destruct (Hrow a Hin). by repeat split.
Qed.

(** One pixel write inside the canvas. *)
Lemma set_pixel_paints (st : store) (cv : canvas) (H W : nat) (y x v : Z) :
  canvas_ok st cv H W ->
  0 <= y < Z.of_nat H -> 0 <= x < Z.of_nat W ->
  exists st',
    set_pixel st cv y x v = Ok st' /\
    paints cv H W st st' v (fun y' x' => (y' =? y) && (x' =? x)).
Proof.
  intros Hok Hy Hx.
  destruct (canvas_ok_lookup st cv H W (Z.to_nat y) Hok ltac:(lia))
    as (a & Ha & Hin & Hlt & Hlen).
  destruct Hok as [Hrows Hnd Hrow].
  unfold set_pixel. rewrite py_pos_in, bind_Ok by lia.
  rewrite (nth_lookup_Some _ _ _ _ Ha).
  rewrite py_pos_in, bind_Ok by lia.
  eexists. split; [reflexivity|].
  constructor.
  - constructor; [assumption | assumption |].
    intros a' Ha'. rewrite length_insert, row_at_insert by assumption.
    destruct (Hrow a' Ha') as [Hlt' Hlen']. split; [assumption|].
    case_decide; [by rewrite length_insert | assumption].
  - by rewrite length_insert.
  - intros a' Ha'. rewrite row_at_insert by assumption.
    case_decide; [subst; contradiction | reflexivity].
  - intros y' x' Hy' Hx'. unfold pixel.
    destruct (lookup_lt_is_Some_2 cv y') as [a' Ha']; [lia|].
    rewrite Ha'. cbn [mbind option_bind].
    rewrite row_at_insert by assumption.
    destruct (Z.eqb_spec (Z.of_nat y') y) as [Ey|Ey].
    + assert (y' = Z.to_nat y) as -> by lia.
      assert (a' = a) as -> by congruence.
      rewrite decide_True by reflexivity. cbn [andb].
      destruct (Z.eqb_spec (Z.of_nat x') x) as [Ex|Ex].
      * assert (x' = Z.to_nat x) as -> by lia.
        apply list_lookup_insert_eq. lia.
      * apply list_lookup_insert_ne. lia.
    + cbn [andb]. rewrite decide_False; [reflexivity|].
      intros ->. apply Ey.
      pose proof (NoDup_lookup _ _ _ _ Hnd Ha' Ha). lia.
Qed.

Lemma paints_skip (st : store) (cv : canvas) (H W : nat) (v : Z) :
  canvas_ok st cv H W -> paints cv H W st st v (fun _ _ => false).
Proof. intros Hok. by constructor. Qed.

Lemma paints_ext (cv : canvas) (H W : nat) (st st' : store) (v : Z)
    (t t' : Z -> Z -> bool) :
  (forall y x, 0 <= y < Z.of_nat H -> 0 <= x < Z.of_nat W -> t y x = t' y x) ->
  paints cv H W st st' v t -> paints cv H W st st' v t'.
Proof.
  intros Ht [Hok Hlen Hoth Hpix]. constructor; try assumption.
  intros y x Hy Hx. rewrite <- Ht by lia. by apply Hpix.
Qed.

Lemma paints_seq (cv : canvas) (H W : nat) (st st1 st2 : store) (v : Z)
    (t1 t2 : Z -> Z -> bool) :
  paints cv H W st st1 v t1 -> paints cv H W st1 st2 v t2 ->
  paints cv H W st st2 v (fun y x => t1 y x || t2 y x).
Proof.
  intros [Hok1 Hlen1 Hoth1 Hpix1] [Hok2 Hlen2 Hoth2 Hpix2].
  constructor; [assumption | congruence | |].
  - intros a Ha. rewrite Hoth2, Hoth1 by assumption. reflexivity.
  - intros y x Hy Hx. rewrite Hpix2, Hpix1 by assumption.
    destruct (t1 _ _), (t2 _ _); reflexivity.
Qed.

(** A loop whose iterations paint with one value paints the union. *)
Lemma for_each_paints {A} (cv : canvas) (H W : nat) (v : Z)
    (body : A -> store -> res store) (t : A -> Z -> Z -> bool)
    (xs : list A) :
  (forall a st, a ∈ xs -> canvas_ok st cv H W ->
     exists st', body a st = Ok st' /\ paints cv H W st st' v (t a)) ->
  forall st,
    canvas_ok st cv H W ->
    exists st',
      for_each xs body st = Ok st' /\
      paints cv H W st st' v (fun y x => existsb (fun a => t a y x) xs).
Proof.
  induction xs as [|a xs IH]; intros Hbody st Hok.
  - exists st. split; [reflexivity|]. by apply paints_skip.
  - destruct (Hbody a st ltac:(left) Hok) as (st1 & E1 & Hp1).
    destruct (IH (fun a' st' Ha' => Hbody a' st' ltac:(by right)) st1
                (pa_ok _ _ _ _ _ _ _ Hp1)) as (st2 & E2 & Hp2).
    exists st2. cbn [for_each]. rewrite E1, bind_Ok, E2.
    split; [reflexivity|]. exact (paints_seq _ _ _ _ _ _ _ _ _ Hp1 Hp2).
Qed.

Lemma existsb_range (lo hi v : Z) :
  existsb (fun a => v =? a) (py_range lo hi) = in_range lo v hi.
Proof.
  unfold py_range. apply eq_true_iff_eq.
  rewrite existsb_exists, in_range_spec. split.
  - intros (a & Ha & E). apply list_elem_of_In, elem_of_seqZ in Ha.
    apply Z.eqb_eq in E. lia.
  - intros Hv. exists v. split; [|apply Z.eqb_refl].
    apply list_elem_of_In, elem_of_seqZ. lia.
Qed.

Lemma existsb_andb_l {A} (b : bool) (g : A -> bool) (xs : list A) :
  existsb (fun a => b && g a) xs = b && existsb g xs.
Proof.
  induction xs as [|a xs IH]; simpl; [by destruct b|].
  rewrite IH. destruct b, (g a); reflexivity.
Qed.

Lemma canvas_dims_ok (st : store) (cv : canvas) (H W : nat) :
  canvas_ok st cv H W -> (0 < H)%nat ->
  canvas_dims st cv = Ok (Z.of_nat H, Z.of_nat W).
Proof.
  intros Hok HH.
  destruct (canvas_ok_lookup st cv H W 0 Hok HH) as (a & Ha & _ & _ & Hlen).
  unfold canvas_dims.
  rewrite py_pos_in, bind_Ok by (rewrite (co_rows _ _ _ _ Hok); lia).
  change (Z.to_nat 0) with 0%nat.
  rewrite (nth_lookup_Some _ _ _ _ Ha), Hlen, (co_rows _ _ _ _ Hok).
  reflexivity.
Qed.

Lemma canvas_dims_empty (st : store) :
  canvas_dims st [] = Raise IndexError.
Proof. reflexivity. Qed.

(** A guarded pixel write. *)
Lemma guarded_set_pixel_paints (st : store) (cv : canvas) (H W : nat)
    (c : bool) (y x v : Z) :
  canvas_ok st cv H W ->
  (c = true -> 0 <= y < Z.of_nat H /\ 0 <= x < Z.of_nat W) ->
  exists st',
    (if c then set_pixel st cv y x v else Ok st) = Ok st' /\
    paints cv H W st st' v (fun y' x' => c && ((y' =? y) && (x' =? x))).
Proof.
  intros Hok Hc. destruct c.
  - destruct (Hc eq_refl) as [Hy Hx].
    exact (set_pixel_paints st cv H W y x v Hok Hy Hx).
  - exists st. split; [reflexivity|]. by apply paints_skip.
Qed.

(** Two guarded writes in a row, as in the outline loops. *)
Lemma two_writes_paint (st : store) (cv : canvas) (H W : nat)
    (c1 c2 : bool) (ya xa yb xb v : Z) :
  canvas_ok st cv H W ->
  (c1 = true -> 0 <= ya < Z.of_nat H /\ 0 <= xa < Z.of_nat W) ->
  (c2 = true -> 0 <= yb < Z.of_nat H /\ 0 <= xb < Z.of_nat W) ->
  exists st',
    (st1 ← (if c1 then set_pixel st cv ya xa v else Ok st);
     if c2 then set_pixel st1 cv yb xb v else Ok st1) = Ok st' /\
    paints cv H W st st' v
      (fun y' x' => (c1 && ((y' =? ya) && (x' =? xa))) ||
                    (c2 && ((y' =? yb) && (x' =? xb)))).
Proof.
  intros Hok H1 H2.
  destruct (guarded_set_pixel_paints st cv H W c1 ya xa v Hok H1)
    as (st1 & E1 & Hp1).
  destruct (guarded_set_pixel_paints st1 cv H W c2 yb xb v
              (pa_ok _ _ _ _ _ _ _ Hp1) H2) as (st2 & E2 & Hp2).
  exists st2. rewrite E1, bind_Ok, E2. split; [reflexivity|].
  exact (paints_seq _ _ _ _ _ _ _ _ _ Hp1 Hp2).
Qed.

Lemma range_clip (lo hi n v : Z) :
  0 <= v < n ->
  in_range (Z.max 0 lo) v (Z.min n hi) = in_range lo v hi.
Proof.
  intros Hv. apply eq_true_iff_eq. rewrite !in_range_spec. lia.
Qed.

Lemma in_py_range (lo hi v : Z) : v ∈ py_range lo hi <-> lo <= v < hi.
Proof. unfold py_range. rewrite elem_of_seqZ. lia. Qed.

Ltac bool_prop :=
  rewrite ?orb_true_iff, ?andb_true_iff, ?Z.eqb_eq, ?in_range_spec in *.

(** The fill loops of [draw_rect]. *)
Lemma fill_paints (st : store) (cv : canvas) (H W : nat)
    (x1 y1 x2 y2 idx : Z) :
  canvas_ok st cv H W ->
  exists st',
    for_each (py_range (Z.max 0 y1) (Z.min (Z.of_nat H) (y2 + 1)))
      (fun y =>
         for_each (py_range (Z.max 0 x1) (Z.min (Z.of_nat W) (x2 + 1)))
           (fun x st => set_pixel st cv y x idx)) st = Ok st' /\
    paints cv H W st st' idx (rect_inside x1 y1 x2 y2).
Proof.
  intros Hok.
  destruct (for_each_paints cv H W idx
              (fun y =>
                 for_each (py_range (Z.max 0 x1) (Z.min (Z.of_nat W) (x2 + 1)))
                   (fun x st => set_pixel st cv y x idx))
              (fun y y' x' => in_range x1 x' (x2 + 1) && (y' =? y))
              (py_range (Z.max 0 y1) (Z.min (Z.of_nat H) (y2 + 1))))
    with (st := st) as (st' & E & Hp); [|assumption|].
  - intros y st0 Hy Hok0. apply in_py_range in Hy.
    destruct (for_each_paints cv H W idx
                (fun x st => set_pixel st cv y x idx)
                (fun x y' x' => (y' =? y) && (x' =? x))
                (py_range (Z.max 0 x1) (Z.min (Z.of_nat W) (x2 + 1))))
      with (st := st0) as (st1 & E1 & Hp1); [|assumption|].
    + intros x st2 Hx Hok2. apply in_py_range in Hx.
      apply set_pixel_paints; [assumption | lia | lia].
    + exists st1. split; [assumption|].
      eapply paints_ext; [|exact Hp1].
      intros y' x' Hy' Hx'. cbv beta.
      rewrite existsb_andb_l, existsb_range, range_clip by lia.
      apply andb_comm.
  - exists st'. split; [assumption|].
    eapply paints_ext; [|exact Hp].
    intros y' x' Hy' Hx'. cbv beta.
    rewrite existsb_andb_l, existsb_range, range_clip by lia.
    unfold rect_inside. apply andb_comm.
Qed.

(** The outline loops of [draw_rect]. *)
Lemma outline_paints (st : store) (cv : canvas) (H W : nat)
    (x1 y1 x2 y2 o : Z) :
  canvas_ok st cv H W ->
  exists st',
    (st2 ← for_each (py_range (Z.max 0 x1) (Z.min (Z.of_nat W) (x2 + 1)))
             (fun x st =>
                st' ← (if in_range 0 y1 (Z.of_nat H)
                       then set_pixel st cv y1 x o else Ok st);
                if in_range 0 y2 (Z.of_nat H)
                then set_pixel st' cv y2 x o else Ok st') st;
     for_each (py_range (Z.max 0 y1) (Z.min (Z.of_nat H) (y2 + 1)))
       (fun y st =>
          st' ← (if in_range 0 x1 (Z.of_nat W)
                 then set_pixel st cv y x1 o else Ok st);
          if in_range 0 x2 (Z.of_nat W)
          then set_pixel st' cv y x2 o else Ok st') st2) = Ok st' /\
    paints cv H W st st' o (rect_border x1 y1 x2 y2).
Proof.
  intros Hok.
  destruct (for_each_paints cv H W o
              (fun x st =>
                 st' ← (if in_range 0 y1 (Z.of_nat H)
                        then set_pixel st cv y1 x o else Ok st);
                 if in_range 0 y2 (Z.of_nat H)
                 then set_pixel st' cv y2 x o else Ok st')
              (fun x y' x' =>
                 (in_range 0 y1 (Z.of_nat H) && ((y' =? y1) && (x' =? x))) ||
                 (in_range 0 y2 (Z.of_nat H) && ((y' =? y2) && (x' =? x))))
              (py_range (Z.max 0 x1) (Z.min (Z.of_nat W) (x2 + 1))))
    with (st := st) as (st2 & E2 & Hp2); [|assumption|].
  { intros x st0 Hx Hok0. apply in_py_range in Hx.
    apply two_writes_paint; [assumption | |];
      intros Hc; apply in_range_spec in Hc; lia. }
  destruct (for_each_paints cv H W o
              (fun y st =>
                 st' ← (if in_range 0 x1 (Z.of_nat W)
                        then set_pixel st cv y x1 o else Ok st);
                 if in_range 0 x2 (Z.of_nat W)
                 then set_pixel st' cv y x2 o else Ok st')
              (fun y y' x' =>
                 (in_range 0 x1 (Z.of_nat W) && ((y' =? y) && (x' =? x1))) ||
                 (in_range 0 x2 (Z.of_nat W) && ((y' =? y) && (x' =? x2))))
              (py_range (Z.max 0 y1) (Z.min (Z.of_nat H) (y2 + 1))))
    with (st := st2) as (st3 & E3 & Hp3);
    [|exact (pa_ok _ _ _ _ _ _ _ Hp2)|].
  { intros y st0 Hy Hok0. apply in_py_range in Hy.
    apply two_writes_paint; [assumption | |];
      intros Hc; apply in_range_spec in Hc; lia. }
  exists st3. rewrite E2, bind_Ok, E3. split; [reflexivity|].
  eapply paints_ext; [|exact (paints_seq _ _ _ _ _ _ _ _ _ Hp2 Hp3)].
  intros y' x' Hy' Hx'. cbv beta. unfold rect_border.
  apply eq_true_iff_eq. rewrite !orb_true_iff, !existsb_exists.
  split.
  - intros [(x & Hx & Ht)|(y & Hy & Ht)].
    + apply list_elem_of_In, in_py_range in Hx. left. bool_prop. lia.
    + apply list_elem_of_In, in_py_range in Hy. right. bool_prop. lia.
  - intros [Ht|Ht]; bool_prop.
    + left. exists x'. split; [apply list_elem_of_In, in_py_range; lia|].
      bool_prop. lia.
    + right. exists y'. split; [apply list_elem_of_In, in_py_range; lia|].
      bool_prop. lia.
Qed.

(** [create_canvas] makes a canvas of distinct new rows. *)
Lemma create_canvas_ok (w h d : Z) (st : store) :
  canvas_ok (fst (create_canvas w h d st)) (snd (create_canvas w h d st))
            (Z.to_nat h) (Z.to_nat w) /\
  (forall a, a ∈ snd (create_canvas w h d st) ->
     (length st <= a)%nat /\
     row_at (fst (create_canvas w h d st)) a = replicate (Z.to_nat w) d) /\
  (forall a, (a < length st)%nat ->
     row_at (fst (create_canvas w h d st)) a = row_at st a).
Proof.
  unfold create_canvas. cbn [fst snd].
  assert (Hrow : forall a, a ∈ seq (length st) (Z.to_nat h) ->
            (length st <= a)%nat /\
            row_at (st ++ replicate (Z.to_nat h) (replicate (Z.to_nat w) d)) a
              = replicate (Z.to_nat w) d).
  { intros a Ha. apply elem_of_seq in Ha. split; [lia|].
    unfold row_at. rewrite lookup_app_r by lia.
    rewrite lookup_replicate_2 by lia. reflexivity. }
  split; [|split].
  - constructor.
    + apply length_seq.
    + apply NoDup_seq.
    + intros a Ha. destruct (Hrow a Ha) as [Hge ->].
      apply elem_of_seq in Ha.
      rewrite length_app, !length_replicate. lia.
  - exact Hrow.
  - intros a Ha. unfold row_at. by rewrite lookup_app_l.
Qed.

(** The square around a position. *)
Lemma draw_dot_paints (st : store) (cv : canvas) (H W : nat)
    (half idx x y : Z) :
  canvas_ok st cv H W ->
  exists st',
    draw_dot cv (Z.of_nat H) (Z.of_nat W) half idx x y st = Ok st' /\
    paints cv H W st st' idx
      (fun y' x' => in_range (x - half) x' (x + half + 1) &&
                    in_range (y - half) y' (y + half + 1)).
Proof.
  intros Hok. unfold draw_dot.
  destruct (for_each_paints cv H W idx
              (fun oy =>
                 for_each (py_range (- half) (half + 1))
                   (fun ox st =>
                      if in_range 0 (x + ox) (Z.of_nat W) &&
                         in_range 0 (y + oy) (Z.of_nat H)
                      then set_pixel st cv (y + oy) (x + ox) idx else Ok st))
              (fun oy y' x' =>
                 in_range (x - half) x' (x + half + 1) && (y' =? y + oy))
              (py_range (- half) (half + 1)))
    with (st := st) as (st' & E & Hp); [|assumption|].
  - intros oy st0 Hoy Hok0.
    destruct (for_each_paints cv H W idx
                (fun ox st =>
                   if in_range 0 (x + ox) (Z.of_nat W) &&
                      in_range 0 (y + oy) (Z.of_nat H)
                   then set_pixel st cv (y + oy) (x + ox) idx else Ok st)
                (fun ox y' x' =>
                   (in_range 0 (x + ox) (Z.of_nat W) &&
                    in_range 0 (y + oy) (Z.of_nat H)) &&
                   ((y' =? y + oy) && (x' =? x + ox)))
                (py_range (- half) (half + 1)))
      with (st := st0) as (st1 & E1 & Hp1); [|assumption|].
    + intros ox st2 Hox Hok2.
      apply guarded_set_pixel_paints; [assumption|].
      intros Hc. bool_prop. lia.
    + exists st1. split; [assumption|].
      eapply paints_ext; [|exact Hp1].
      intros y' x' Hy' Hx'. cbv beta.
      apply eq_true_iff_eq. rewrite existsb_exists. split.
      * intros (ox & Hox & Ht). apply list_elem_of_In, in_py_range in Hox.
        bool_prop. lia.
      * intros Ht. bool_prop. exists (x' - x).
        split; [apply list_elem_of_In, in_py_range; lia|].
        bool_prop. lia.
  - exists st'. split; [assumption|].
    eapply paints_ext; [|exact Hp].
    intros y' x' Hy' Hx'. cbv beta.
    apply eq_true_iff_eq. rewrite existsb_exists. split.
    + intros (oy & Hoy & Ht). apply list_elem_of_In, in_py_range in Hoy.
      bool_prop. lia.
    + intros Ht. bool_prop. exists (y' - y).
      split; [apply list_elem_of_In, in_py_range; lia|].
      bool_prop. lia.
Qed.

(** The loop of [draw_line] draws the square of every position it
    visits. *)
Lemma line_loop_points (cv : canvas) (H W x1 y1 dx dy sx sy half idx : Z)
    (n : nat) :
  forall x y err st,
    line_loop cv H W x1 y1 dx dy sx sy half idx n x y err st =
      for_each (line_points x1 y1 dx dy sx sy n x y err)
        (fun p st => draw_dot cv H W half idx (fst p) (snd p) st) st.
Proof.
  induction n as [|n IH]; intros x y err st; [reflexivity|].
  cbn [line_loop line_points for_each fst snd].
  destruct (draw_dot cv H W half idx x y st) as [st'|e]; [|reflexivity].
  rewrite !bind_Ok.
  destruct ((x =? x1) && (y =? y1)); [reflexivity|].
  destruct (line_next dx dy sx sy x y err) as [[x' y'] err']. apply IH.
Qed.

(** [canvas_bytes], pixel by pixel. *)
Lemma canvas_bytes_pixel (st : store) (cv : canvas) :
  canvas_bytes st cv <->
  forall y x v, pixel st cv y x = Some v -> 0 <= v < 256.
Proof.
  unfold canvas_bytes, frame_of, pixel. rewrite Forall_forall. split.
  - intros Hall y x v Hv.
    destruct (cv !! y) as [a|] eqn:Ha; [|discriminate].
    cbn [mbind option_bind] in Hv.
    assert (Hin : row_at st a ∈ map (row_at st) cv).
    { apply list_elem_of_In, in_map_iff. exists a. split; [reflexivity|].
      apply list_elem_of_In, list_elem_of_lookup. eauto. }
    exact (Forall_lookup_1 _ _ _ _ (Hall _ Hin) Hv).
  - intros Hpix row Hrow.
    apply list_elem_of_In, in_map_iff in Hrow as (a & <- & Ha).
    apply list_elem_of_In, list_elem_of_lookup in Ha as (y & Hy).
    apply Forall_lookup. intros x v Hv.
    apply (Hpix y x v). by rewrite Hy.
Qed.

(** Painting with a byte keeps a canvas of bytes. *)
Lemma paints_bytes (st st' : store) (cv : canvas) (H W : nat) (v : Z)
    (t : Z -> Z -> bool) :
  paints cv H W st st' v t -> 0 <= v < 256 ->
  canvas_bytes st cv -> canvas_bytes st' cv.
Proof.
  intros [[Hrows Hnd Hrow] Hlen Hoth Hpix] Hv Hb.
  rewrite canvas_bytes_pixel in Hb. apply canvas_bytes_pixel.
  intros y x u Hu.
  assert (Hyx : (y < H)%nat /\ (x < W)%nat).
  { unfold pixel in Hu. destruct (cv !! y) as [a|] eqn:Ha; [|discriminate].
    cbn [mbind option_bind] in Hu.
    assert (Hin : a ∈ cv) by (apply list_elem_of_lookup; eauto).
    destruct (Hrow a Hin) as [_ HW].
    apply lookup_lt_Some in Ha. apply lookup_lt_Some in Hu. lia. }
  destruct Hyx as [Hy Hx]. rewrite Hpix in Hu by assumption.
  destruct (t (Z.of_nat y) (Z.of_nat x)); [injection Hu as <-; lia|].
  by apply (Hb y x u).
Qed.

Lemma draw_rect_paints (st : store) (cv : canvas) (H W : nat)
    (x1 y1 x2 y2 idx : Z) (outline_idx : option Z) :
  canvas_ok st cv H W -> (0 < H)%nat ->
  exists st1 st',
    draw_rect st cv x1 y1 x2 y2 idx outline_idx = Ok st' /\
    paints cv H W st st1 idx (rect_inside x1 y1 x2 y2) /\
    match outline_idx with
    | Some o => paints cv H W st1 st' o (rect_border x1 y1 x2 y2)
    | None => st' = st1
    end.
Proof.
  intros Hok HH. unfold draw_rect.
  rewrite (canvas_dims_ok st cv H W Hok HH), bind_Ok.
  destruct (fill_paints st cv H W x1 y1 x2 y2 idx Hok) as (st1 & E1 & Hp1).
  rewrite E1, bind_Ok.
  destruct outline_idx as [o|].
  - destruct (outline_paints st1 cv H W x1 y1 x2 y2 o
                (pa_ok _ _ _ _ _ _ _ Hp1)) as (st3 & E3 & Hp3).
    by exists st1, st3.
  - by exists st1, st1.
Qed.

Lemma draw_line_paints (st : store) (cv : canvas) (H W : nat)
    (x0 y0 x1 y1 idx thickness : Z) :
  canvas_ok st cv H W -> (0 < H)%nat ->
  exists st',
    draw_line st cv x0 y0 x1 y1 idx thickness = Ok st' /\
    paints cv H W st st' idx (near (thickness / 2) (line_trace x0 y0 x1 y1)).
Proof.
  intros Hok HH. unfold draw_line.
  rewrite (canvas_dims_ok st cv H W Hok HH), bind_Ok.
  rewrite line_loop_points.
  apply (for_each_paints cv H W idx
           (fun p st =>
              draw_dot cv (Z.of_nat H) (Z.of_nat W) (thickness / 2) idx
                       (fst p) (snd p) st)
           (fun p y' x' =>
              in_range (fst p - thickness / 2) x' (fst p + thickness / 2 + 1) &&
              in_range (snd p - thickness / 2) y' (snd p + thickness / 2 + 1))
           (line_trace x0 y0 x1 y1)); [|assumption].
  intros p st0 _ Hok0. by apply draw_dot_paints.
Qed.

(** The first frame gives the dimensions of its canvas. *)
Lemma dims_frame_of (st : store) (cv : canvas) (H W : nat)
    (more : list (list (list Z))) :
  canvas_ok st cv H W -> (0 < H)%nat ->
  Props.dims (frame_of st cv :: more) = Some (Z.of_nat W, Z.of_nat H).
Proof.
  intros [Hrows Hnd Hrow] HH. destruct cv as [|a cv]; [cbn in Hrows; lia|].
  unfold frame_of, Props.dims. cbn [map].
  destruct (Hrow a) as [_ ->]; [by left|].
  by rewrite <- Hrows, <- (length_map (row_at st)).
Qed.

End CanvasFacts.

(** ** The drawing primitives *)

(** ** The positions of a line *)

Module LineFacts.
Import Canvas CanvasProps.

Section Bresenham.
Variables x0 y0 x1 y1 dx dy sx sy : Z.
Hypothesis Hdx : 0 <= dx.
Hypothesis Hdy : 0 <= dy.
Hypothesis Hsx : sx = 1 \/ sx = -1.
Hypothesis Hsy : sy = 1 \/ sy = -1.
Hypothesis Hx1 : x1 = x0 + sx * dx.
Hypothesis Hy1 : y1 = y0 + sy * dy.

Lemma line_inv_start : line_inv dx dy 0 0 0 (dx - dy).
Proof. unfold line_inv. repeat split; lia. Qed.

Lemma line_inv_step (k i j err : Z) :
  line_inv dx dy k i j err -> k < Z.max dx dy ->
  line_inv dx dy (k + 1)
    (if - dy <? 2 * err then i + 1 else i)
    (if 2 * err <? dx then j + 1 else j)
    ((if - dy <? 2 * err then err - dy else err) +
     (if 2 * err <? dx then dx else 0)).
Proof.
  unfold line_inv. intros (Hk & Hi & Hj & He & HA & HB) Hlt.
  destruct (Z_le_gt_dec dy dx) as [Hle|Hgt].
  - destruct (HA Hle) as (-> & Hhi & Hlo & Heq). clear HA HB.
    assert (Hk' : k < dx) by lia.
    assert (Hc1 : - dy < 2 * err)
      by (destruct (Z_lt_le_dec dy dx); [by apply Hlo | lia]).
    assert (Hj' : 2 * err < dx -> j + 1 <= dy).
    { intros Hc2. destruct (Z_lt_le_dec j dy); [lia|]. exfalso.
      assert (0 <= (dx - 1 - k) * dy) by nia.
      assert (0 <= (j - dy) * dx) by nia.
      nia. }
    destruct (Z.ltb_spec (- dy) (2 * err)); [|lia].
    destruct (Z.ltb_spec (2 * err) dx).
    + specialize (Hj' ltac:(lia)).
      split; [lia|]. split; [lia|]. split; [lia|]. split; [lia|].
      split; [|lia]. intros _. split; [lia|]. split; [lia|].
      split; [lia|]. intros ->. lia.
    + split; [lia|]. split; [lia|]. split; [lia|]. split; [lia|].
      split; [|lia]. intros _. split; [lia|]. split; [lia|].
      split; [lia|]. intros ->. lia.
  - destruct (HB ltac:(lia)) as (-> & Hhi & Hlo). clear HA HB.
    assert (Hk' : k < dy) by lia.
    assert (Hi' : - dy < 2 * err -> i + 1 <= dx).
    { intros Hc1. destruct (Z_lt_le_dec i dx); [lia|]. exfalso.
      assert (0 <= (dy - 1 - k) * dx) by nia.
      assert (0 <= (i - dx) * dy) by nia.
      nia. }
    destruct (Z.ltb_spec (2 * err) dx); [|lia].
    destruct (Z.ltb_spec (- dy) (2 * err)).
    + specialize (Hi' ltac:(lia)).
      split; [lia|]. split; [lia|]. split; [lia|]. split; [lia|].
      split; [lia|]. intros _. split; [lia|]. split; lia.
    + split; [lia|]. split; [lia|]. split; [lia|]. split; [lia|].
      split; [lia|]. intros _. split; [lia|]. split; lia.
Qed.

(** After [max dx dy] iterations both coordinates have arrived. *)
Lemma line_inv_end (i j err : Z) :
  line_inv dx dy (Z.max dx dy) i j err -> i = dx /\ j = dy.
Proof.
  unfold line_inv. intros (Hk & Hi & Hj & He & HA & HB).
  destruct (Z_le_gt_dec dy dx) as [Hle|Hgt].
  - destruct (HA Hle) as (Hik & Hhi & Hlo & Heq). clear HA HB.
    split; [lia|].
    destruct (Z_lt_le_dec j dy) as [Hlt|]; [exfalso|lia].
    assert (i = dx) as -> by lia.
    destruct (Z_lt_le_dec dy dx) as [Hd|Hd].
    + specialize (Hlo Hd).
      assert (0 <= (dy - 1 - j) * dx) by nia. nia.
    + assert (dx = dy) as -> by lia. specialize (Heq eq_refl).
      assert (0 < (dy - j) * dy) by nia. nia.
  - destruct (HB ltac:(lia)) as (Hjk & Hhi & Hlo). clear HA HB.
    split; [|lia].
    destruct (Z_lt_le_dec i dx) as [Hlt|]; [exfalso|lia].
    assert (j = dy) as -> by lia.
    assert (0 <= (dx - 1 - i) * dy) by nia. nia.
Qed.

(** Before that the loop has not arrived. *)
Lemma line_inv_not_end (k i j err : Z) :
  line_inv dx dy k i j err -> k < Z.max dx dy ->
  (x0 + sx * i =? x1) && (y0 + sy * j =? y1) = false.
Proof.
  unfold line_inv. intros (Hk & Hi & Hj & He & HA & HB) Hlt.
  apply andb_false_iff.
  destruct (Z_le_gt_dec dy dx) as [Hle|Hgt].
  - destruct (HA Hle) as (-> & _). left. apply Z.eqb_neq. nia.
  - destruct (HB ltac:(lia)) as (-> & _). right. apply Z.eqb_neq. nia.
Qed.

Lemma line_next_steps (i j err : Z) :
  line_next dx dy sx sy (x0 + sx * i) (y0 + sy * j) err =
    (x0 + sx * (if - dy <? 2 * err then i + 1 else i),
     y0 + sy * (if 2 * err <? dx then j + 1 else j),
     (if - dy <? 2 * err then err - dy else err) +
     (if 2 * err <? dx then dx else 0)).
Proof.
  unfold line_next.
  destruct (- dy <? 2 * err), (2 * err <? dx); do 2 f_equal; lia.
Qed.

(** The positions visited from a state of the loop. *)
Lemma line_points_inv (n : nat) :
  forall k i j err,
    line_inv dx dy k i j err -> Z.of_nat n = Z.max dx dy - k ->
    exists l,
      line_points x1 y1 dx dy sx sy (S n) (x0 + sx * i) (y0 + sy * j) err =
        (x0 + sx * i, y0 + sy * j) :: l /\
      length l = n /\
      last ((x0 + sx * i, y0 + sy * j) :: l) = Some (x1, y1) /\
      Forall (fun p => exists i' j', 0 <= i' <= dx /\ 0 <= j' <= dy /\
                         p = (x0 + sx * i', y0 + sy * j')) l /\
      forall m p q,
        ((x0 + sx * i, y0 + sy * j) :: l) !! m = Some p ->
        l !! m = Some q -> line_step sx sy p q.
Proof.
  induction n as [|n IH]; intros k i j err Hinv Hn.
  - assert (k = Z.max dx dy) as -> by lia.
    destruct (line_inv_end _ _ _ Hinv) as [-> ->].
    exists []. cbn [line_points].
    rewrite <- Hx1, <- Hy1.
    split; [|split; [reflexivity|split; [reflexivity|split; [constructor|]]]].
    + destruct ((x1 =? x1) && (y1 =? y1)); [reflexivity|].
      by destruct (line_next dx dy sx sy x1 y1 err) as [[? ?] ?].
    + intros m p q _ Hq. rewrite lookup_nil in Hq. discriminate.
  - assert (Hlt : k < Z.max dx dy) by lia.
    pose proof (line_inv_step _ _ _ _ Hinv Hlt) as Hinv'.
    destruct (IH _ _ _ _ Hinv' ltac:(lia)) as (l & El & Hlen & Hlast & Hall & Hch).
    eexists. split.
    { change (line_points x1 y1 dx dy sx sy (S (S n)) ?x ?y ?e)
        with ((x, y) ::
              (if (x =? x1) && (y =? y1) then []
               else let '(x', y', err') := line_next dx dy sx sy x y e in
                    line_points x1 y1 dx dy sx sy (S n) x' y' err')).
      rewrite (line_inv_not_end _ _ _ _ Hinv Hlt), line_next_steps, El.
      reflexivity. }
    split; [cbn [length]; lia|].
    split; [exact Hlast|].
    split.
    { constructor; [|exact Hall].
      destruct Hinv' as (_ & Hi' & Hj' & _). eauto 6. }
    intros [|m] p q Hp Hq.
    + cbn in Hp, Hq. injection Hp as <-. injection Hq as <-.
      unfold line_step. cbn [fst snd].
      destruct Hinv as (_ & _ & _ & _ & HA & HB).
      destruct Hinv' as (_ & _ & _ & _ & HA' & HB').
      destruct (- dy <? 2 * err), (2 * err <? dx);
        (split; [|split]); try (left; lia); try (right; lia);
        destruct (Z_le_gt_dec dy dx);
        try (destruct (HA ltac:(lia)), (HA' ltac:(lia)); lia);
        try (destruct (HB ltac:(lia)), (HB' ltac:(lia)); lia).
    + cbn [lookup list_lookup] in Hp. exact (Hch m p q Hp Hq).
Qed.

End Bresenham.

(** The positions of [draw_line], from the arguments. *)
Lemma line_trace_inv (x0 y0 x1 y1 : Z) :
  let dx := Z.abs (x1 - x0) in
  let dy := Z.abs (y1 - y0) in
  let sx := if x0 <? x1 then 1 else -1 in
  let sy := if y0 <? y1 then 1 else -1 in
  exists l,
    line_trace x0 y0 x1 y1 = (x0, y0) :: l /\
    Z.of_nat (length l) = Z.max dx dy /\
    last ((x0, y0) :: l) = Some (x1, y1) /\
    Forall (fun p => exists i' j', 0 <= i' <= dx /\ 0 <= j' <= dy /\
                       p = (x0 + sx * i', y0 + sy * j')) l /\
    forall m p q,
      ((x0, y0) :: l) !! m = Some p -> l !! m = Some q -> line_step sx sy p q.
Proof.
  intros dx dy sx sy.
  assert (Hdx : 0 <= dx) by apply Z.abs_nonneg.
  assert (Hdy : 0 <= dy) by apply Z.abs_nonneg.
  assert (Hsx : sx = 1 \/ sx = -1) by (subst sx; destruct (x0 <? x1); auto).
  assert (Hsy : sy = 1 \/ sy = -1) by (subst sy; destruct (y0 <? y1); auto).
  assert (Hx1 : x1 = x0 + sx * dx)
    by (subst sx dx; destruct (Z.ltb_spec x0 x1); lia).
  assert (Hy1 : y1 = y0 + sy * dy)
    by (subst sy dy; destruct (Z.ltb_spec y0 y1); lia).
  destruct (line_points_inv x0 y0 x1 y1 dx dy sx sy Hdx Hdy Hsx Hsy Hx1 Hy1
              (Z.to_nat (Z.max dx dy)) 0 0 0 (dx - dy)
              (line_inv_start dx dy Hdx Hdy) ltac:(lia))
    as (l & El & Hlen & Hlast & Hall & Hch).
  replace (x0 + sx * 0) with x0 in * by lia.
  replace (y0 + sy * 0) with y0 in * by lia.
  exists l. unfold line_trace. fold dx dy sx sy.
  replace (Z.to_nat (Z.max dx dy + 1)) with (S (Z.to_nat (Z.max dx dy))) by lia.
  split; [exact El|]. split; [lia|]. split; [exact Hlast|].
  split; assumption.
Qed.

End LineFacts.

Module CanvasClaims.
Import Canvas CanvasProps CanvasFacts.

(** X10.  [draw_rect] on a canvas of [H >= 1] rows of [W] pixels, rows
    being distinct objects: it never raises, whatever the coordinates
    (the rectangle is clipped to the canvas); the canvas keeps its
    dimensions and no other object of the store changes.  Afterwards a
    pixel of the outline (when an outline index is given) holds the
    outline index, another pixel of the rectangle holds [idx], and every
    other pixel is unchanged.  The outline is made of columns [x1..x2] of
    rows [y1] and [y2] and rows [y1..y2] of columns [x1] and [x2], also
    when [y1 > y2] or [x1 > x2], where nothing is filled. *)
Theorem X10_draw_rect_pixels (st : store) (cv : canvas) (H W : nat)
    (x1 y1 x2 y2 idx : Z) (outline_idx : option Z) :
  canvas_ok st cv H W -> (0 < H)%nat ->
  exists st',
    draw_rect st cv x1 y1 x2 y2 idx outline_idx = Ok st' /\
    canvas_ok st' cv H W /\
    length st' = length st /\
    (forall a, a ∉ cv -> row_at st' a = row_at st a) /\
    forall y x, (y < H)%nat -> (x < W)%nat ->
      pixel st' cv y x =
        match outline_idx with
        | Some o =>
            if rect_border x1 y1 x2 y2 (Z.of_nat y) (Z.of_nat x) then Some o
            else if rect_inside x1 y1 x2 y2 (Z.of_nat y) (Z.of_nat x)
                 then Some idx else pixel st cv y x
        | None =>
            if rect_inside x1 y1 x2 y2 (Z.of_nat y) (Z.of_nat x)
            then Some idx else pixel st cv y x
        end.
Proof.
  intros Hok HH. unfold draw_rect.
  rewrite (canvas_dims_ok st cv H W Hok HH), bind_Ok.
  destruct (fill_paints st cv H W x1 y1 x2 y2 idx Hok) as (st1 & E1 & Hp1).
  rewrite E1, bind_Ok.
  destruct outline_idx as [o|].
  - destruct (outline_paints st1 cv H W x1 y1 x2 y2 o
                (pa_ok _ _ _ _ _ _ _ Hp1)) as (st3 & E3 & Hp3).
    exists st3. split; [exact E3|].
    destruct Hp1 as [Hok1 Hlen1 Hoth1 Hpix1], Hp3 as [Hok3 Hlen3 Hoth3 Hpix3].
    split; [assumption|]. split; [congruence|]. split.
    + intros a Ha. rewrite Hoth3, Hoth1 by assumption. reflexivity.
    + intros y x Hy Hx. rewrite Hpix3, Hpix1 by assumption. reflexivity.
  - exists st1. split; [reflexivity|].
    destruct Hp1 as [Hok1 Hlen1 Hoth1 Hpix1].
    split; [assumption|]. split; [assumption|]. split; assumption.
Qed.

Lemma X10_draw_rect_pixels_witness :
  exists st',
    draw_rect [[0; 0; 0]; [0; 0; 0]] [0; 1]%nat 1 (-3) 5 0 4 (Some 9) = Ok st' /\
    canvas_ok st' [0; 1]%nat 2 3 /\
    length st' = length [[0; 0; 0]; [0; 0; 0]] /\
    (forall a, a ∉ [0; 1]%nat -> row_at st' a = row_at [[0; 0; 0]; [0; 0; 0]] a) /\
    forall y x, (y < 2)%nat -> (x < 3)%nat ->
      pixel st' [0; 1]%nat y x =
        if rect_border 1 (-3) 5 0 (Z.of_nat y) (Z.of_nat x) then Some 9
        else if rect_inside 1 (-3) 5 0 (Z.of_nat y) (Z.of_nat x)
             then Some 4 else pixel [[0; 0; 0]; [0; 0; 0]] [0; 1]%nat y x.
Proof.
  apply (X10_draw_rect_pixels [[0; 0; 0]; [0; 0; 0]] [0; 1]%nat 2 3
           1 (-3) 5 0 4 (Some 9)); [|lia].
  exact (proj1 (create_canvas_ok 3 2 0 [])).
Defined.

(** X9.  [create_canvas(w, h, default)] makes [h] rows of [w] pixels,
    all equal to [default], as [h] distinct new objects: the objects
    that existed before are unchanged, and writing one pixel of the new
    canvas changes that pixel and no other (rows do not share
    storage). *)
Theorem X9_create_canvas_rows_are_distinct (w h d : Z) (st : store) :
  let st1 := fst (create_canvas w h d st) in
  let cv := snd (create_canvas w h d st) in
  canvas_ok st1 cv (Z.to_nat h) (Z.to_nat w) /\
  (forall a, (a < length st)%nat -> row_at st1 a = row_at st a) /\
  (forall y x, (y < Z.to_nat h)%nat -> (x < Z.to_nat w)%nat ->
     pixel st1 cv y x = Some d) /\
  (forall y x v, 0 <= y < h -> 0 <= x < w ->
     exists st2,
       set_pixel st1 cv y x v = Ok st2 /\
       forall y' x', (y' < Z.to_nat h)%nat -> (x' < Z.to_nat w)%nat ->
         pixel st2 cv y' x' =
           if (Z.of_nat y' =? y) && (Z.of_nat x' =? x) then Some v else Some d).
Proof.
  intros st1 cv.
  destruct (create_canvas_ok w h d st) as (Hok & Hnew & Hold).
  fold st1 cv in Hok, Hnew, Hold.
  assert (Hpix : forall y x, (y < Z.to_nat h)%nat -> (x < Z.to_nat w)%nat ->
                   pixel st1 cv y x = Some d).
  { intros y x Hy Hx.
    destruct (canvas_ok_lookup st1 cv _ _ y Hok Hy) as (a & Ha & Hin & _).
    unfold pixel. rewrite Ha. cbn [mbind option_bind].
    destruct (Hnew a Hin) as [_ ->]. by apply lookup_replicate_2. }
  split; [assumption|]. split; [assumption|]. split; [assumption|].
  intros y x v Hy Hx.
  destruct (set_pixel_paints st1 cv _ _ y x v Hok ltac:(lia) ltac:(lia))
    as (st2 & E & Hp).
  exists st2. split; [assumption|].
  intros y' x' Hy' Hx'. rewrite (pa_pixel _ _ _ _ _ _ _ Hp) by assumption.
  by rewrite Hpix.
Qed.

(** X11.  [draw_line] on a canvas of [H >= 1] rows of [W] pixels, rows
    being distinct objects: it never raises, whatever the end points and
    the thickness; the canvas keeps its dimensions and no other object
    changes.  Afterwards exactly the pixels within [thickness // 2] of a
    visited position, in both directions, hold [idx]; the other pixels
    are unchanged (with a negative thickness, none is drawn). *)
Theorem X11_draw_line_pixels (st : store) (cv : canvas) (H W : nat)
    (x0 y0 x1 y1 idx thickness : Z) :
  canvas_ok st cv H W -> (0 < H)%nat ->
  exists st',
    draw_line st cv x0 y0 x1 y1 idx thickness = Ok st' /\
    canvas_ok st' cv H W /\
    length st' = length st /\
    (forall a, a ∉ cv -> row_at st' a = row_at st a) /\
    forall y x, (y < H)%nat -> (x < W)%nat ->
      pixel st' cv y x =
        if near (thickness / 2) (line_trace x0 y0 x1 y1)
                (Z.of_nat y) (Z.of_nat x)
        then Some idx else pixel st cv y x.
Proof.
  intros Hok HH. unfold draw_line.
  rewrite (canvas_dims_ok st cv H W Hok HH), bind_Ok.
  rewrite line_loop_points.
  destruct (for_each_paints cv H W idx
              (fun p st =>
                 draw_dot cv (Z.of_nat H) (Z.of_nat W) (thickness / 2) idx
                          (fst p) (snd p) st)
              (fun p y' x' =>
                 in_range (fst p - thickness / 2) x' (fst p + thickness / 2 + 1) &&
                 in_range (snd p - thickness / 2) y' (snd p + thickness / 2 + 1))
              (line_trace x0 y0 x1 y1))
    with (st := st) as (st' & E & [Hok' Hlen Hoth Hpix]); [|assumption|].
  { intros p st0 _ Hok0. by apply draw_dot_paints. }
  exists st'. split; [exact E|].
  split; [assumption|]. split; [assumption|]. split; assumption.
Qed.

Lemma X11_draw_line_pixels_witness :
  exists st',
    draw_line [[0; 0; 0]; [0; 0; 0]] [0; 1]%nat (-1) 0 4 1 7 1 = Ok st' /\
    canvas_ok st' [0; 1]%nat 2 3 /\
    length st' = length [[0; 0; 0]; [0; 0; 0]] /\
    (forall a, a ∉ [0; 1]%nat -> row_at st' a = row_at [[0; 0; 0]; [0; 0; 0]] a) /\
    forall y x, (y < 2)%nat -> (x < 3)%nat ->
      pixel st' [0; 1]%nat y x =
        if near (1 / 2) (line_trace (-1) 0 4 1) (Z.of_nat y) (Z.of_nat x)
        then Some 7 else pixel [[0; 0; 0]; [0; 0; 0]] [0; 1]%nat y x.
Proof.
  apply (X11_draw_line_pixels [[0; 0; 0]; [0; 0; 0]] [0; 1]%nat 2 3
           (-1) 0 4 1 7 1); [|lia].
  exact (proj1 (create_canvas_ok 3 2 0 [])).
Defined.

Lemma X9_create_canvas_rows_are_distinct_witness :
  exists st2,
    set_pixel (fst (create_canvas 3 2 0 [])) (snd (create_canvas 3 2 0 []))
              1 2 5 = Ok st2 /\
    forall y' x', (y' < Z.to_nat 2)%nat -> (x' < Z.to_nat 3)%nat ->
      pixel st2 (snd (create_canvas 3 2 0 [])) y' x' =
        if (Z.of_nat y' =? 1) && (Z.of_nat x' =? 2) then Some 5 else Some 0.
Proof.
  apply (proj2 (proj2 (proj2
           (X9_create_canvas_rows_are_distinct 3 2 0 [])))); lia.
Defined.

(** X12.  The positions that [draw_line] visits from [(x0, y0)] to
    [(x1, y1)]: there are [max(|x1 - x0|, |y1 - y0|) + 1] of them, the
    first is [(x0, y0)] and the last is [(x1, y1)] (the loop always
    arrives); all lie in the rectangle spanned by the two end points; and
    from each to the next both coordinates change by at most one, one of
    them by exactly one. *)
Theorem X12_line_reaches_its_end (x0 y0 x1 y1 : Z) :
  let t := line_trace x0 y0 x1 y1 in
  Z.of_nat (length t) = Z.max (Z.abs (x1 - x0)) (Z.abs (y1 - y0)) + 1 /\
  head t = Some (x0, y0) /\
  last t = Some (x1, y1) /\
  (forall p, p ∈ t ->
     Z.min x0 x1 <= fst p <= Z.max x0 x1 /\
     Z.min y0 y1 <= snd p <= Z.max y0 y1) /\
  (forall k p q, t !! k = Some p -> t !! S k = Some q ->
     Z.abs (fst q - fst p) <= 1 /\ Z.abs (snd q - snd p) <= 1 /\
     Z.max (Z.abs (fst q - fst p)) (Z.abs (snd q - snd p)) = 1).
Proof.
  intros t. subst t.
  destruct (LineFacts.line_trace_inv x0 y0 x1 y1)
    as (l & -> & Hlen & Hlast & Hall & Hch).
  split; [cbn [length]; lia|]. split; [reflexivity|]. split; [exact Hlast|].
  split.
  - intros p Hp. apply elem_of_cons in Hp as [->|Hp]; [cbn [fst snd]; lia|].
    rewrite Forall_forall in Hall.
    destruct (Hall p Hp) as (i & j & Hi & Hj & ->). cbn [fst snd].
    destruct (Z.ltb_spec x0 x1), (Z.ltb_spec y0 y1); lia.
  - intros k p q Hp Hq. cbn [lookup list_lookup] in Hq.
    destruct (Hch k p q Hp Hq) as (Hx & Hy & Hxy).
    destruct (x0 <? x1), (y0 <? y1); lia.
Qed.

(** X13.  A canvas of bytes stays one under [draw_rect] and [draw_line]
    with colour indices in [0, 255]: on a canvas of [H >= 1] rows of [W]
    pixels (rows distinct objects) both return, and every pixel of the
    result still is in [0, 255]. *)
Theorem X13_drawing_keeps_bytes (st : store) (cv : canvas) (H W : nat)
    (idx : Z) :
  canvas_ok st cv H W -> (0 < H)%nat -> canvas_bytes st cv ->
  0 <= idx < 256 ->
  (forall x1 y1 x2 y2 outline_idx,
     (forall o, outline_idx = Some o -> 0 <= o < 256) ->
     exists st',
       draw_rect st cv x1 y1 x2 y2 idx outline_idx = Ok st' /\
       canvas_ok st' cv H W /\ canvas_bytes st' cv) /\
  (forall x0 y0 x1 y1 thickness,
     exists st',
       draw_line st cv x0 y0 x1 y1 idx thickness = Ok st' /\
       canvas_ok st' cv H W /\ canvas_bytes st' cv).
Proof.
  intros Hok HH Hb Hidx. split.
  - intros x1 y1 x2 y2 outline_idx Ho.
    destruct (draw_rect_paints st cv H W x1 y1 x2 y2 idx outline_idx Hok HH)
      as (st1 & st' & E & Hp1 & Hp2).
    exists st'. split; [exact E|].
    pose proof (paints_bytes _ _ _ _ _ _ _ Hp1 Hidx Hb) as Hb1.
    destruct outline_idx as [o|].
    + split; [exact (pa_ok _ _ _ _ _ _ _ Hp2)|].
      exact (paints_bytes _ _ _ _ _ _ _ Hp2 (Ho o eq_refl) Hb1).
    + subst st'. split; [exact (pa_ok _ _ _ _ _ _ _ Hp1)|exact Hb1].
  - intros x0 y0 x1 y1 thickness.
    destruct (draw_line_paints st cv H W x0 y0 x1 y1 idx thickness Hok HH)
      as (st' & E & Hp).
    exists st'. split; [exact E|].
    split; [exact (pa_ok _ _ _ _ _ _ _ Hp)|].
    exact (paints_bytes _ _ _ _ _ _ _ Hp Hidx Hb).
Qed.

Lemma X13_drawing_keeps_bytes_witness :
  (forall x1 y1 x2 y2 outline_idx,
     (forall o, outline_idx = Some o -> 0 <= o < 256) ->
     exists st',
       draw_rect [[0; 0; 0]; [0; 0; 0]] [0; 1]%nat x1 y1 x2 y2 4 outline_idx
         = Ok st' /\
       canvas_ok st' [0; 1]%nat 2 3 /\ canvas_bytes st' [0; 1]%nat) /\
  (forall x0 y0 x1 y1 thickness,
     exists st',
       draw_line [[0; 0; 0]; [0; 0; 0]] [0; 1]%nat x0 y0 x1 y1 4 thickness
         = Ok st' /\
       canvas_ok st' [0; 1]%nat 2 3 /\ canvas_bytes st' [0; 1]%nat).
Proof.
  apply (X13_drawing_keeps_bytes [[0; 0; 0]; [0; 0; 0]] [0; 1]%nat 2 3 4).
  - exact (proj1 (create_canvas_ok 3 2 0 [])).
  - lia.
  - repeat constructor; lia.
  - lia.
Defined.

(** X14.  [write_gif] on canvases: when every frame is a canvas of bytes
    of [H] rows of [W] pixels, with [1 <= H < 65536] and [W < 65536], a
    palette of bytes, a duration below 65536 and a transparent index
    that is a byte, nothing raises and the file is complete: the header
    for [W] by [H], one image per canvas in order, and the trailer. *)
Theorem X14_canvases_are_written (st : store) (cvs : list canvas) (H W : nat)
    (palette : list (Z * Z * Z)) (d t : Z) :
  cvs <> [] ->
  Forall (fun cv => canvas_ok st cv H W /\ canvas_bytes st cv) cvs ->
  0 < Z.of_nat H < 65536 -> Z.of_nat W < 65536 ->
  Forall Props.rgb_ok (take 256 palette) ->
  0 <= d < 65536 -> 0 <= t < 256 ->
  exists bss,
    Forall2 Props.blocks_of (map (frame_of st) cvs) bss /\
    Gif.write_gif (map (frame_of st) cvs) palette d t =
      Gif.Outcome
        (Some (Props.header_bytes (Z.of_nat W) (Z.of_nat H)
                 (Props.color_table palette) ++
               concat (map (Props.frame_bytes (Z.of_nat W) (Z.of_nat H) d t)
                           bss) ++ [0x3B]))
        None.
Proof.
  intros Hne Hall HH HW Hpal Hd Ht.
  apply GifFacts.write_gif_Ok.
  - destruct cvs as [|cv cvs]; [done|]. cbn [map].
    apply Forall_cons in Hall as [[Hok _] _].
    apply dims_frame_of; [assumption|lia].
  - unfold Props.args_ok. split; [lia|]. split; [lia|].
    split; [assumption|]. split; assumption.
  - apply Forall_forall. intros fr Hfr.
    apply list_elem_of_In, in_map_iff in Hfr as (cv & <- & Hcv).
    rewrite Forall_forall in Hall.
    exact (proj2 (Hall cv (proj2 (list_elem_of_In _ _) Hcv))).
Qed.

Lemma X14_canvases_are_written_witness :
  exists bss,
    Forall2 Props.blocks_of
      (map (frame_of [[0; 0; 0]; [0; 0; 0]]) [[0; 1]%nat]) bss /\
    Gif.write_gif (map (frame_of [[0; 0; 0]; [0; 0; 0]]) [[0; 1]%nat])
                  [(1, 2, 3)] 83 0 =
      Gif.Outcome
        (Some (Props.header_bytes (Z.of_nat 3) (Z.of_nat 2)
                 (Props.color_table [(1, 2, 3)]) ++
               concat (map (Props.frame_bytes (Z.of_nat 3) (Z.of_nat 2) 83 0)
                           bss) ++ [0x3B]))
        None.
Proof.
  apply (X14_canvases_are_written [[0; 0; 0]; [0; 0; 0]] [[0; 1]%nat] 2 3
           [(1, 2, 3)] 83 0).
  - discriminate.
  - constructor; [|constructor]. split.
    + exact (proj1 (create_canvas_ok 3 2 0 [])).
    + repeat constructor; lia.
  - lia.
  - lia.
  - repeat constructor; lia.
  - lia.
  - lia.
Defined.

(** X15.  A canvas without rows ([create_canvas(w, h)] with [h <= 0]):
    [draw_rect] and [draw_line] raise [IndexError] at [canvas[0]],
    whatever their other arguments, and [write_gif] with such a first
    frame raises [IndexError] before it opens the file. *)
Theorem X15_canvas_without_rows_raises (w h d : Z) (st : store) :
  h <= 0 ->
  let st1 := fst (create_canvas w h d st) in
  let cv := snd (create_canvas w h d st) in
  (forall x1 y1 x2 y2 idx outline_idx,
     draw_rect st1 cv x1 y1 x2 y2 idx outline_idx = Raise IndexError) /\
  (forall x0 y0 x1 y1 idx thickness,
     draw_line st1 cv x0 y0 x1 y1 idx thickness = Raise IndexError) /\
  (forall more palette dur t,
     Gif.write_gif (frame_of st1 cv :: more) palette dur t =
       Gif.Outcome None (Some IndexError)).
Proof.
  intros Hh st1 cv. subst st1 cv. unfold create_canvas. cbn [fst snd].
  rewrite (Z2Nat.nonpos h Hh). cbn [seq replicate].
  split; [|split]; reflexivity.
Qed.

Lemma X15_canvas_without_rows_raises_witness :
  (forall x1 y1 x2 y2 idx outline_idx,
     draw_rect (fst (create_canvas 5 0 0 [])) (snd (create_canvas 5 0 0 []))
               x1 y1 x2 y2 idx outline_idx = Raise IndexError) /\
  (forall x0 y0 x1 y1 idx thickness,
     draw_line (fst (create_canvas 5 0 0 [])) (snd (create_canvas 5 0 0 []))
               x0 y0 x1 y1 idx thickness = Raise IndexError) /\
  (forall more palette dur t,
     Gif.write_gif (frame_of (fst (create_canvas 5 0 0 []))
                             (snd (create_canvas 5 0 0 [])) :: more)
                   palette dur t =
       Gif.Outcome None (Some IndexError)).
Proof.
  apply (X15_canvas_without_rows_raises 5 0 0 []). lia.
Defined.

Example draw_rect_example :
  draw_rect [[0; 0; 0; 0]; [0; 0; 0; 0]; [0; 0; 0; 0]] [0; 1; 2]%nat
            0 0 3 2 4 (Some 9) =
    Ok [[9; 9; 9; 9]; [9; 4; 4; 9]; [9; 9; 9; 9]].
Proof. vm_compute. reflexivity. Qed.

Example draw_line_example :
  draw_line [[0; 0; 0; 0]; [0; 0; 0; 0]; [0; 0; 0; 0]] [0; 1; 2]%nat
            0 0 3 2 7 1 =
    Ok [[7; 0; 0; 0]; [0; 7; 7; 0]; [0; 0; 0; 7]].
Proof. vm_compute. reflexivity. Qed.

End CanvasClaims.
